(** * PicConv: the image converter component of [src/App.tsx]

    A shallow embedding of the [App] component: its hooks state, the
    handlers it registers and the conversion routine [convertImage],
    written over an explicit model of the browser facilities the code
    calls (object URLs, the canvas, [document.body], React state
    setters).  Every handler is a computation that threads the system
    state and writes the calls it makes, in program order, to a trace. *)

From Stdlib Require Import String Ascii List Bool Arith Lia QArith.
From Stdlib Require Import DecimalNat DecimalString.
Import ListNotations.

Open Scope string_scope.
Open Scope nat_scope.
Open Scope list_scope.

(** ** JavaScript strings and arrays

    Strings are sequences of one-byte characters.  The code only splits
    on ['.'] and ['/'], compares with ASCII literals and concatenates;
    an ASCII separator never occurs inside the encoding of a non-ASCII
    character, so these operations agree with the ones on UTF-16 code
    units. *)
Module JS.

(** [s.split(sep)] for a one-character separator: the substrings
    between the occurrences of [sep]; never the empty array. *)
Fixpoint split (sep : ascii) (s : string) : list string :=
  match s with
  | EmptyString => [EmptyString]
  | String c rest =>
      if Ascii.eqb c sep then EmptyString :: split sep rest
      else match split sep rest with
           | [] => [String c EmptyString]
           | hd :: tl => String c hd :: tl
           end
  end.

(** [a[i]]: [undefined] (here [None]) when [i] is out of range. *)
Definition index {A : Type} (a : list A) (i : nat) : option A :=
  nth_error a i.

(** Interpolation [`${v}`] of a value that may be [undefined]. *)
Definition interpolate (v : option string) : string :=
  match v with
  | Some s => s
  | None => "undefined"
  end.

(** Truthiness of a [string | null]: [null] and [''] are falsy. *)
Definition truthy (v : option string) : bool :=
  match v with
  | Some s => negb (String.eqb s "")
  | None => false
  end.

(** [s.startsWith(p)]. *)
Definition startsWith (s p : string) : bool := String.prefix p s.

End JS.

(** ** Data model *)

(** A [Blob]: its bytes and its [type]. *)
Record Blob := mkBlob {
  blob_bytes : list Byte.byte;
  blob_type : string
}.

(** A [File] is a [Blob] with a [name]. *)
Record File := mkFile {
  name : string;
  type : string;
  bytes : list Byte.byte
}.

Definition blob_of_file (f : File) : Blob :=
  mkBlob (bytes f) (type f).

(** The case conversions of ASCII letters. *)
Definition lowerChar (c : ascii) : ascii :=
  let n := nat_of_ascii c in
  if (65 <=? n) && (n <=? 90) then ascii_of_nat (n + 32) else c.

Definition upperChar (c : ascii) : ascii :=
  let n := nat_of_ascii c in
  if (97 <=? n) && (n <=? 122) then ascii_of_nat (n - 32) else c.

(** [s.toLowerCase()] and [s.toUpperCase()]. *)
Fixpoint toLowerCase (s : string) : string :=
  match s with
  | EmptyString => EmptyString
  | String c rest => String (lowerChar c) (toLowerCase rest)
  end.

Fixpoint toUpperCase (s : string) : string :=
  match s with
  | EmptyString => EmptyString
  | String c rest => String (upperChar c) (toUpperCase rest)
  end.

(** The type a [Blob] or [File] constructor keeps of the [type] it is
    given: the empty string when the type has a character outside
    U+0020 to U+007E, and else the type in lower case. *)
Definition printableChar (c : ascii) : bool :=
  let n := nat_of_ascii c in
  (32 <=? n) && (n <=? 126).

Fixpoint allChars (p : ascii -> bool) (s : string) : bool :=
  match s with
  | EmptyString => true
  | String c rest => p c && allChars p rest
  end.

Definition normalizeType (t : string) : string :=
  if allChars printableChar t then toLowerCase t else EmptyString.

(** [new File(parts, name, { type })]. *)
Definition newFile (parts : list Blob) (n : string) (t : string) : File :=
  mkFile n (normalizeType t) (flat_map blob_bytes parts).

(** [interface ImageFile]. *)
Record ImageFile := mkImageFile {
  id : string;
  file : File;
  preview : string;
  convertedUrl : option string;
  converting : bool;
  error : option string;
  targetFormat : string
}.

(** [const IMAGE_FORMATS]. *)
Definition IMAGE_FORMATS : list (string * string) :=
  [ ("image/png", "PNG"); ("image/jpeg", "JPEG"); ("image/webp", "WebP");
    ("image/gif", "GIF"); ("image/bmp", "BMP"); ("image/tiff", "TIFF");
    ("image/svg+xml", "SVG"); ("image/avif", "AVIF"); ("image/heic", "HEIC");
    ("image/x-icon", "ICO") ].

(** The hooks of [App]. *)
Module State.
Record t := mk {
  images : list ImageFile;
  targetFormat : string;
  isConverting : bool;
  showInfo : bool;
  darkMode : bool
}.

(** The [useState] initial values. *)
Definition initial : t := mk [] "image/png" false false true.
End State.

(** ** The browser *)

(** A child of [document.body]: the application root, or an [<a>]
    element made by [document.createElement('a')]; [node] is the
    identity of the element. *)
Inductive Node :=
| Root
| Anchor (node : nat) (href : string) (download : string).

Definition is_node (k : nat) (n : Node) : bool :=
  match n with
  | Root => false
  | Anchor j _ _ => Nat.eqb j k
  end.

Record World := mkWorld {
  uuids : nat;                        (* calls of crypto.randomUUID so far *)
  urls : nat;                         (* calls of URL.createObjectURL so far *)
  blobStore : list (string * Blob);   (* the blob URL store *)
  nodes : nat;                        (* elements created so far *)
  body : list Node;                   (* the children of document.body *)
  fileInput : option string           (* fileInputRef.current and its value *)
}.

Record Sys := mkSys {
  app : State.t;
  world : World
}.

(** What the platform does with one conversion: whether the image
    element fires [load] (with the decoded width and height) or
    [error], whether [getContext('2d')] gives a context, and what
    [canvas.toBlob] does.  An image element whose [src] is set fires
    one of the two events, and [toBlob] either throws or calls its
    callback once; the other calls of [convertImage] do not throw. *)
Inductive Thrown :=
| ThrownError (message : string)      (* error instanceof Error *)
| ThrownValue (asString : string).    (* anything else, as String(error) *)

Inductive ToBlob :=
| BlobReady (blob : Blob)             (* callback called with a blob *)
| BlobNull                            (* callback called with null *)
| BlobThrows (e : Thrown).            (* toBlob throws *)

Record Platform := mkPlatform {
  decoded : option (nat * nat);
  context2d : bool;
  toBlob : ToBlob
}.

(** The calls a handler makes, in program order.  [EvConvertImage] is
    the entry of [convertImage] (the [new Promise]), [EvImageSrc] the
    [new Image()] with its [src], [EvCanvasSize] the two assignments
    to the size of the canvas, [EvFillRect] the assignment of
    [fillStyle] with the [fillRect] that follows it, and [EvSetImages]
    carries the list the updater returns.  [EvFetch] stands for a call
    of [fetch] or of [XMLHttpRequest], and [EvStorageSetItem] for a
    write to [localStorage], [sessionStorage], [indexedDB] or
    [document.cookie]: the platform offers them, [App.tsx] has no such
    call, and they are in the alphabet so that a trace can be said to
    be free of them. *)
Inductive Event :=
| EvRandomUUID (result : string)
| EvCreateObjectURL (b : Blob) (result : string)
| EvRevokeObjectURL (url : string)
| EvConvertImage (image : ImageFile)
| EvImageSrc (src : string)
| EvCreateElement (tag : string)
| EvCanvasSize (width height : nat)
| EvGetContext (ok : bool)
| EvFillRect (fillStyle : string) (x y w h : nat)
| EvDrawImage (dx dy : nat)
| EvToBlob (mime : string) (quality : option Q)
| EvNewFile (f : File)
| EvResolve (result : ImageFile)
| EvSetImages (next : list ImageFile)
| EvSetTargetFormat (format : string)
| EvSetIsConverting (b : bool)
| EvSetShowInfo (b : bool)
| EvSetDarkMode (b : bool)
| EvAppendChild (n : Node)
| EvClick (n : Node)
| EvRemoveChild (n : Node)
| EvResetFileInput
| EvPreventDefault
| EvStopPropagation
| EvFetch (url : string)
| EvStorageSetItem (key value : string).

(** How a promise settles. *)
Inductive Settled (A : Type) :=
| Resolved (value : A)
| Rejected (reason : string).
Arguments Resolved {A} value.
Arguments Rejected {A} reason.

(** ** Computations: state passing with a trace

    A computation takes the system state and gives its result, the
    state it leaves and the calls it made.  A handler runs to its end
    before the next event of the page is handled. *)

Definition M (A : Type) : Type := Sys -> A * Sys * list Event.

Definition value {A : Type} (r : A * Sys * list Event) : A := fst (fst r).
Definition after {A : Type} (r : A * Sys * list Event) : Sys := snd (fst r).
Definition trace {A : Type} (r : A * Sys * list Event) : list Event := snd r.

Definition ret {A : Type} (a : A) : M A :=
  fun s => (a, s, []).

Definition bind {A B : Type} (m : M A) (k : A -> M B) : M B :=
  fun s =>
    let r1 := m s in
    let r2 := k (value r1) (after r1) in
    (value r2, after r2, trace r1 ++ trace r2).

Declare Scope m_scope.
Delimit Scope m_scope with m.
Notation "x <- c1 ;; c2" := (bind c1 (fun x => c2))
  (at level 61, c1 at next level, right associativity) : m_scope.
Notation "c1 ;; c2" := (bind c1 (fun _ => c2))
  (at level 61, right associativity) : m_scope.
Open Scope m_scope.

Definition emit (e : Event) : M unit :=
  fun s => (tt, s, [e]).

Definition getState : M State.t :=
  fun s => (app s, s, []).

(** Decimal rendering of a counter. *)
Definition decimal (n : nat) : string :=
  NilEmpty.string_of_uint (Nat.to_uint n).

(** [crypto.randomUUID()]: a fresh identifier at every call. *)
Definition uuid (n : nat) : string := String.append "uuid-" (decimal n).

Definition randomUUID : M string :=
  fun s =>
    let w := world s in
    let r := uuid (uuids w) in
    (r,
     mkSys (app s)
       (mkWorld (S (uuids w)) (urls w) (blobStore w) (nodes w) (body w) (fileInput w)),
     [EvRandomUUID r]).

(** [URL.createObjectURL(blob)]: a new [blob:] URL, entered in the
    blob URL store. *)
Definition blobUrl (n : nat) : string := String.append "blob:" (decimal n).

Definition createObjectURL (b : Blob) : M string :=
  fun s =>
    let w := world s in
    let r := blobUrl (urls w) in
    (r,
     mkSys (app s)
       (mkWorld (uuids w) (S (urls w)) ((r, b) :: blobStore w) (nodes w) (body w)
          (fileInput w)),
     [EvCreateObjectURL b r]).

(** [URL.revokeObjectURL(url)]. *)
Definition revokeObjectURL (url : string) : M unit :=
  fun s =>
    let w := world s in
    (tt,
     mkSys (app s)
       (mkWorld (uuids w) (urls w)
          (filter (fun e => negb (String.eqb (fst e) url)) (blobStore w))
          (nodes w) (body w) (fileInput w)),
     [EvRevokeObjectURL url]).

(** The state setters.  [setImages] takes an updater, which React
    applies to the state current at that point; the updater of
    [removeImage] makes calls of its own. *)
Definition setImagesWith (f : list ImageFile -> M (list ImageFile)) : M unit :=
  fun s =>
    let r := f (State.images (app s)) s in
    let a := app (after r) in
    (tt,
     mkSys (State.mk (value r) (State.targetFormat a) (State.isConverting a)
              (State.showInfo a) (State.darkMode a)) (world (after r)),
     trace r ++ [EvSetImages (value r)]).

Definition setImages (f : list ImageFile -> list ImageFile) : M unit :=
  setImagesWith (fun prev => ret (f prev)).

Definition setTargetFormat (format : string) : M unit :=
  fun s =>
    let a := app s in
    (tt,
     mkSys (State.mk (State.images a) format (State.isConverting a)
              (State.showInfo a) (State.darkMode a)) (world s),
     [EvSetTargetFormat format]).

Definition setIsConverting (b : bool) : M unit :=
  fun s =>
    let a := app s in
    (tt,
     mkSys (State.mk (State.images a) (State.targetFormat a) b
              (State.showInfo a) (State.darkMode a)) (world s),
     [EvSetIsConverting b]).

Definition setShowInfo (b : bool) : M unit :=
  fun s =>
    let a := app s in
    (tt,
     mkSys (State.mk (State.images a) (State.targetFormat a) (State.isConverting a)
              b (State.darkMode a)) (world s),
     [EvSetShowInfo b]).

Definition setDarkMode (f : bool -> bool) : M unit :=
  fun s =>
    let a := app s in
    let next := f (State.darkMode a) in
    (tt,
     mkSys (State.mk (State.images a) (State.targetFormat a) (State.isConverting a)
              (State.showInfo a) next) (world s),
     [EvSetDarkMode next]).

(** [arr.forEach(f)] and [arr.map(f)] with an effectful callback. *)
Fixpoint forEach {A : Type} (f : A -> M unit) (l : list A) : M unit :=
  match l with
  | [] => ret tt
  | x :: rest => f x ;; forEach f rest
  end.

Fixpoint mapM {A B : Type} (f : A -> M B) (l : list A) : M (list B) :=
  match l with
  | [] => ret []
  | x :: rest => y <- f x ;; ys <- mapM f rest ;; ret (y :: ys)
  end.

(** [fileInputRef.current.value = ''], when the ref is attached. *)
Definition resetFileInput : M unit :=
  fun s =>
    let w := world s in
    match fileInput w with
    | None => (tt, s, [])
    | Some _ =>
        (tt,
         mkSys (app s)
           (mkWorld (uuids w) (urls w) (blobStore w) (nodes w) (body w) (Some "")),
         [EvResetFileInput])
    end.

(** [document.createElement(tag)]: the identity of the new element. *)
Definition createElement (tag : string) : M nat :=
  fun s =>
    let w := world s in
    (nodes w,
     mkSys (app s)
       (mkWorld (uuids w) (urls w) (blobStore w) (S (nodes w)) (body w) (fileInput w)),
     [EvCreateElement tag]).

Definition appendChild (n : Node) : M unit :=
  fun s =>
    let w := world s in
    (tt,
     mkSys (app s)
       (mkWorld (uuids w) (urls w) (blobStore w) (nodes w) (body w ++ [n]) (fileInput w)),
     [EvAppendChild n]).

Definition removeChild (k : nat) (n : Node) : M unit :=
  fun s =>
    let w := world s in
    (tt,
     mkSys (app s)
       (mkWorld (uuids w) (urls w) (blobStore w) (nodes w)
          (filter (fun c => negb (is_node k c)) (body w)) (fileInput w)),
     [EvRemoveChild n]).

(** ** The handlers of [App]

    A handler is a closure over the [images] and [targetFormat] of the
    render that created it ([useCallback] lists both as dependencies);
    it runs on an event of the rendered page, so the values it closes
    over are the ones of the state it starts in. *)

(** The record made for one added file, in [handleFileSelect] and in
    [handleDrop]. *)
Definition newImageFile (targetFormat : string) (f : File) : M ImageFile :=
  i <- randomUUID ;;
  p <- createObjectURL (blob_of_file f) ;;
  ret (mkImageFile i f p None false None targetFormat).

(** [handleFileSelect]; [files] is [e.target.files]. *)
Definition handleFileSelect (files : option (list File)) : M unit :=
  st <- getState ;;
  match files with
  | None => ret tt
  | Some fs =>
      if Nat.eqb (length fs) 0 then ret tt
      else
        newFiles <- mapM (newImageFile (State.targetFormat st)) fs ;;
        setImages (fun prev => prev ++ newFiles) ;;
        resetFileInput
  end.

(** [handleDragOver]. *)
Definition handleDragOver : M unit :=
  emit EvPreventDefault ;;
  emit EvStopPropagation.

(** [handleDrop]; [files] is [e.dataTransfer.files]. *)
Definition handleDrop (files : option (list File)) : M unit :=
  st <- getState ;;
  emit EvPreventDefault ;;
  emit EvStopPropagation ;;
  match files with
  | None => ret tt
  | Some fs =>
      if Nat.eqb (length fs) 0 then ret tt
      else
        let imageFiles := filter (fun f => JS.startsWith (type f) "image/") fs in
        if Nat.eqb (length imageFiles) 0 then ret tt
        else
          newFiles <- mapM (newImageFile (State.targetFormat st)) imageFiles ;;
          setImages (fun prev => prev ++ newFiles)
  end.

(** The two revocations made for an image that leaves the list. *)
Definition revokeImage (image : ImageFile) : M unit :=
  revokeObjectURL (preview image) ;;
  match convertedUrl image with
  | None => ret tt
  | Some url =>
      if JS.truthy (Some url) then revokeObjectURL url else ret tt
  end.

(** [removeImage]. *)
Definition removeImage (i : string) : M unit :=
  setImagesWith (fun prev =>
    let updatedImages := filter (fun img => negb (String.eqb (id img) i)) prev in
    let imageToRemove := find (fun img => String.eqb (id img) i) prev in
    match imageToRemove with
    | Some image => revokeImage image
    | None => ret tt
    end ;;
    ret updatedImages).

(** [resolve(result)]. *)
Definition resolve (result : ImageFile) : M (Settled ImageFile) :=
  emit (EvResolve result) ;;
  ret (Resolved result).

(** The message of the [catch] clause of [convertImage]. *)
Definition thrownMessage (e : Thrown) : string :=
  match e with
  | ThrownError message => message
  | ThrownValue asString => asString
  end.

(** [convertImage]; [p] is what the platform does with this image. *)
Definition convertImage (p : Platform) (image : ImageFile) : M (Settled ImageFile) :=
  emit (EvConvertImage image) ;;
  emit (EvImageSrc (preview image)) ;;
  match decoded p with
  | None =>
      (* img.onerror *)
      resolve (mkImageFile (id image) (file image) (preview image)
                 (convertedUrl image) false (Some "Failed to load image")
                 (targetFormat image))
  | Some (width, height) =>
      (* img.onload *)
      createElement "canvas" ;;
      emit (EvCanvasSize width height) ;;
      emit (EvGetContext (context2d p)) ;;
      if negb (context2d p) then
        resolve (mkImageFile (id image) (file image) (preview image)
                   (convertedUrl image) false (Some "Failed to get canvas context")
                   (targetFormat image))
      else
        (if String.eqb (targetFormat image) "image/jpeg"
            || String.eqb (targetFormat image) "image/bmp"
         then emit (EvFillRect "#FFFFFF" 0 0 width height)
         else ret tt) ;;
        emit (EvDrawImage 0 0) ;;
        let formatParts := JS.split "/" (targetFormat image) in
        let extension := JS.index formatParts (length formatParts - 1) in
        let quality :=
          if String.eqb (targetFormat image) "image/jpeg"
          then Some (Qmake 95 100) else None in
        emit (EvToBlob (targetFormat image) quality) ;;
        match toBlob p with
        | BlobThrows e =>
            resolve (mkImageFile (id image) (file image) (preview image)
                       (convertedUrl image) false
                       (Some (String.append "Conversion failed: " (thrownMessage e)))
                       (targetFormat image))
        | BlobNull =>
            resolve (mkImageFile (id image) (file image) (preview image)
                       (convertedUrl image) false (Some "Conversion failed")
                       (targetFormat image))
        | BlobReady blob =>
            let convertedFile :=
              newFile [blob]
                (String.append
                   (JS.interpolate (JS.index (JS.split "." (name (file image))) 0))
                   (String.append "." (JS.interpolate extension)))
                (targetFormat image) in
            emit (EvNewFile convertedFile) ;;
            url <- createObjectURL blob ;;
            resolve (mkImageFile (id image) convertedFile (preview image)
                       (Some url) false None (targetFormat image))
        end
  end.

(** The loop of [convertAllImages] over the [images] of its closure;
    the [k]-th conversion meets the platform behaviour [env k].  An
    [await] of a rejected promise throws, which ends the function. *)
Fixpoint convertLoop (env : nat -> Platform) (k : nat) (todo : list ImageFile)
    (convertedImages : list ImageFile) : M (Settled (list ImageFile)) :=
  match todo with
  | [] => ret (Resolved convertedImages)
  | image :: rest =>
      r <- convertImage (env k) image ;;
      match r with
      | Rejected reason => ret (Rejected reason)
      | Resolved convertedImage =>
          setImages (fun prev =>
            map (fun img =>
                   if String.eqb (id img) (id convertedImage)
                   then convertedImage else img) prev) ;;
          convertLoop env (S k) rest (convertedImages ++ [convertedImage])
      end
  end.

(** [convertAllImages]. *)
Definition convertAllImages (env : nat -> Platform) : M (Settled unit) :=
  st <- getState ;;
  if Nat.eqb (length (State.images st)) 0 then ret (Resolved tt)
  else
    setIsConverting true ;;
    setImages (fun prev =>
      map (fun img =>
             mkImageFile (id img) (file img) (preview img) (convertedUrl img)
               true None (targetFormat img)) prev) ;;
    r <- convertLoop env 0 (State.images st) [] ;;
    match r with
    | Rejected reason => ret (Rejected reason)
    | Resolved _ => setIsConverting false ;; ret (Resolved tt)
    end.

(** [downloadImage]. *)
Definition downloadImage (image : ImageFile) : M unit :=
  match convertedUrl image with
  | None => ret tt
  | Some url =>
      if negb (JS.truthy (Some url)) then ret tt
      else
        k <- createElement "a" ;;
        let link := Anchor k url (name (file image)) in
        appendChild link ;;
        emit (EvClick link) ;;
        removeChild k link
  end.

(** [downloadAllImages]. *)
Definition downloadAllImages : M unit :=
  st <- getState ;;
  forEach (fun image =>
             if JS.truthy (convertedUrl image) then downloadImage image
             else ret tt)
          (State.images st).

(** [clearAllImages]. *)
Definition clearAllImages : M unit :=
  st <- getState ;;
  forEach revokeImage (State.images st) ;;
  setImages (fun _ => []).

(** [toggleTheme], and the two inline handlers of the header and of
    the format buttons. *)
Definition toggleTheme : M unit :=
  setDarkMode negb.

Definition toggleInfo : M unit :=
  st <- getState ;;
  setShowInfo (negb (State.showInfo st)).

Definition pickGlobalFormat (format : string) : M unit :=
  setTargetFormat format.

(** [updateImageTargetFormat]. *)
Definition updateImageTargetFormat (i : string) (format : string) : M unit :=
  setImages (fun prev =>
    map (fun img =>
           if String.eqb (id img) i
           then mkImageFile (id img) (file img) (preview img) None
                  (converting img) None format
           else img) prev).

(** [applyGlobalFormatToAll]. *)
Definition applyGlobalFormatToAll : M unit :=
  st <- getState ;;
  setImages (fun prev =>
    map (fun img =>
           mkImageFile (id img) (file img) (preview img) None
             (converting img) None (State.targetFormat st)) prev).

(** ** What the claims speak of *)

(** The portion of [s] before its first [c]: all of [s] when [c] does
    not occur in it. *)
Fixpoint beforeFirst (c : ascii) (s : string) : string :=
  match s with
  | EmptyString => EmptyString
  | String a rest =>
      if Ascii.eqb a c then EmptyString else String a (beforeFirst c rest)
  end.

Fixpoint occurs (c : ascii) (s : string) : bool :=
  match s with
  | EmptyString => false
  | String a rest => Ascii.eqb a c || occurs c rest
  end.

(** The substring of [s] after its last [c]: all of [s] when [c] does
    not occur in it. *)
Fixpoint afterLast (c : ascii) (s : string) : string :=
  match s with
  | EmptyString => EmptyString
  | String a rest =>
      if occurs c rest then afterLast c rest
      else if Ascii.eqb a c then rest
      else String a rest
  end.

(** The ways a conversion fails. *)
Definition Failed (p : Platform) : Prop :=
  decoded p = None
  \/ context2d p = false
  \/ toBlob p = BlobNull
  \/ exists e, toBlob p = BlobThrows e.

(** The formats given a white background. *)
Definition opaqueFormat (format : string) : Prop :=
  format = "image/jpeg" \/ format = "image/bmp".

Definition isFillRect (e : Event) : bool :=
  match e with
  | EvFillRect _ _ _ _ _ => true
  | _ => false
  end.

(** The URLs revoked, the images handed to [convertImage] and the
    downloads triggered in a trace, in order. *)
Definition revoked (t : list Event) : list string :=
  flat_map (fun e => match e with EvRevokeObjectURL u => [u] | _ => [] end) t.

Definition conversions (t : list Event) : list ImageFile :=
  flat_map (fun e => match e with EvConvertImage i => [i] | _ => [] end) t.

Definition downloads (t : list Event) : list (string * string) :=
  flat_map (fun e => match e with
                     | EvClick (Anchor _ href download) => [(href, download)]
                     | _ => []
                     end) t.

(** The object URLs an image holds. *)
Definition handles (image : ImageFile) : list string :=
  preview image ::
  match convertedUrl image with
  | Some url => if JS.truthy (Some url) then [url] else []
  | None => []
  end.

(** A trace is sequential when no conversion starts while another
    one has not resolved; [busy] tells whether one is in flight. *)
Fixpoint sequential (busy : bool) (t : list Event) : bool :=
  match t with
  | [] => true
  | EvConvertImage _ :: rest => negb busy && sequential true rest
  | EvResolve _ :: rest => busy && sequential false rest
  | _ :: rest => sequential busy rest
  end.

Definition isConversionEvent (e : Event) : bool :=
  match e with
  | EvConvertImage _ | EvResolve _ => true
  | _ => false
  end.

(** The updaters of [convertAllImages]. *)
Definition markConverting (img : ImageFile) : ImageFile :=
  mkImageFile (id img) (file img) (preview img) (convertedUrl img)
    true None (targetFormat img).

Definition putResult (result : ImageFile) (prev : list ImageFile) : list ImageFile :=
  map (fun img => if String.eqb (id img) (id result) then result else img) prev.

(** The rounds of the loop: from the list [cur], converting [todo]
    leaves the trace [t] and the list [final].  A round is the call of
    [convertImage], its work, the resolution of its promise and, next
    to it, the update of the list with the result. *)
Inductive rounds :
  list ImageFile -> list ImageFile -> list Event -> list ImageFile -> Prop :=
| rounds_done cur : rounds cur [] [] cur
| rounds_step cur image rest work result t final :
    Forall (fun e => isConversionEvent e = false) work ->
    id result = id image ->
    rounds (putResult result cur) rest t final ->
    rounds cur (image :: rest)
      (EvConvertImage image :: work
         ++ EvResolve result :: EvSetImages (putResult result cur) :: t)
      final.

(** A URL of the local blob URL store. *)
Definition isBlobUrl (u : string) : bool := String.prefix "blob:" u.

(** An event is local when it is no call of the network or of a
    storage and does not dereference a URL, or the URL it dereferences
    is a [blob:] one. *)
Definition localEvent (e : Event) : bool :=
  match e with
  | EvImageSrc src => isBlobUrl src
  | EvClick (Anchor _ href _) => isBlobUrl href
  | EvFetch _ => false
  | EvStorageSetItem _ _ => false
  | _ => true
  end.

(** The requests a trace sends over the network: the calls of [fetch],
    and the loads of an image and the navigations of a clicked anchor
    whose URL is not one of the local blob URL store. *)
Definition networkRequests (t : list Event) : list string :=
  flat_map (fun e => match e with
                     | EvFetch url => [url]
                     | EvImageSrc src => if isBlobUrl src then [] else [src]
                     | EvClick (Anchor _ href _) =>
                         if isBlobUrl href then [] else [href]
                     | _ => []
                     end) t.

(** The writes of a trace to a storage of the browser. *)
Definition storageWrites (t : list Event) : list (string * string) :=
  flat_map (fun e => match e with
                     | EvStorageSetItem key value => [(key, value)]
                     | _ => []
                     end) t.

(** A computation that leaves the value of the file input as it is. *)
Definition keepsFileInput {A : Type} (m : M A) : Prop :=
  forall s, fileInput (world (after (m s))) = fileInput (world s).

(** What [fileInputRef.current.value = ''] leaves in the file input. *)
Definition resetValue (input : option string) : option string :=
  match input with
  | Some _ => Some EmptyString
  | None => None
  end.

(** ** The page as a transition system *)

(** The events of the rendered page that reach a handler. *)
Inductive Action :=
| FileSelect (files : option (list File))
| DragOver
| Drop (files : option (list File))
| RemoveImage (i : string)
| ConvertAll (env : nat -> Platform)
| DownloadImage (image : ImageFile)
| DownloadAll
| ClearAll
| ToggleTheme
| ToggleInfo
| PickGlobalFormat (format : string)
| UpdateImageTargetFormat (i : string) (format : string)
| ApplyGlobalFormatToAll.

Definition run (a : Action) : M unit :=
  match a with
  | FileSelect files => handleFileSelect files
  | DragOver => handleDragOver
  | Drop files => handleDrop files
  | RemoveImage i => removeImage i
  | ConvertAll env => convertAllImages env ;; ret tt
  | DownloadImage image => downloadImage image
  | DownloadAll => downloadAllImages
  | ClearAll => clearAllImages
  | ToggleTheme => toggleTheme
  | ToggleInfo => toggleInfo
  | PickGlobalFormat format => pickGlobalFormat format
  | UpdateImageTargetFormat i format => updateImageTargetFormat i format
  | ApplyGlobalFormatToAll => applyGlobalFormatToAll
  end.

(** What the rendered page offers: a download button per listed image,
    and the formats of [IMAGE_FORMATS] in the selectors. *)
Definition offered (a : Action) (s : Sys) : Prop :=
  match a with
  | DownloadImage image => In image (State.images (app s))
  | PickGlobalFormat format => In format (map fst IMAGE_FORMATS)
  | UpdateImageTargetFormat _ format => In format (map fst IMAGE_FORMATS)
  | _ => True
  end.

(** The page as first rendered. *)
Definition initialSys : Sys :=
  mkSys State.initial (mkWorld 0 0 [] 0 [Root] (Some "")).

Inductive reachable : Sys -> Prop :=
| reachable_initial : reachable initialSys
| reachable_step a s :
    reachable s -> offered a s -> reachable (after (run a s)).

(** The invariant of the reachable states: every URL an image holds is
    a [blob:] URL, the identifiers are distinct results of
    [crypto.randomUUID], and the anchors of [document.body] are
    elements created earlier. *)
Definition urlsOk (img : ImageFile) : Prop :=
  isBlobUrl (preview img) = true
  /\ (forall u, convertedUrl img = Some u -> isBlobUrl u = true).

Definition imageOk (w : World) (img : ImageFile) : Prop :=
  urlsOk img /\ exists k, k < uuids w /\ id img = uuid k.

Definition nodeOk (w : World) (n : Node) : Prop :=
  match n with
  | Root => True
  | Anchor k _ _ => k < nodes w
  end.

Definition invariant (s : Sys) : Prop :=
  Forall (imageOk (world s)) (State.images (app s))
  /\ NoDup (map id (State.images (app s)))
  /\ Forall (nodeOk (world s)) (body (world s)).

(** What a handler may do to the browser besides the blob URL store
    and the file input: draw identifiers and create elements; the
    children of [document.body] are as before. *)
Definition grows (w w' : World) : Prop :=
  uuids w <= uuids w' /\ nodes w <= nodes w' /\ body w' = body w.

(** A trace is local when each of its events is. *)
Definition localTrace (t : list Event) : Prop :=
  Forall (fun e => localEvent e = true) t.

(** A handler run from [s] is confined when it leaves the invariant
    in place, dereferences local URLs only and leaves the children of
    [document.body] as they were. *)
Definition confined {A : Type} (s : Sys) (r : A * Sys * list Event) : Prop :=
  invariant (after r)
  /\ localTrace (trace r)
  /\ body (world (after r)) = body (world s).

(** The calls [convertImage] makes between getting the context and
    drawing the image, for a canvas of the given size. *)
Definition paintEvents (format : string) (width height : nat) : list Event :=
  if String.eqb format "image/jpeg" || String.eqb format "image/bmp"
  then [EvFillRect "#FFFFFF" 0 0 width height]
  else [].

(** The quality [convertImage] passes to [canvas.toBlob]. *)
Definition qualityFor (format : string) : option Q :=
  if String.eqb format "image/jpeg" then Some (Qmake 95 100) else None.

(** The outcome of a failed conversion: [{...image, converting: false, error}]. *)
Definition failedWith (image : ImageFile) (message : string) : ImageFile :=
  mkImageFile (id image) (file image) (preview image) (convertedUrl image)
    false (Some message) (targetFormat image).

(** The file made by a successful conversion. *)
Definition convertedFileOf (image : ImageFile) (blob : Blob) : File :=
  newFile [blob]
    (String.append
       (JS.interpolate (JS.index (JS.split "." (name (file image))) 0))
       (String.append "."
          (JS.interpolate
             (JS.index (JS.split "/" (targetFormat image))
                (length (JS.split "/" (targetFormat image)) - 1)))))
    (targetFormat image).

(** The calls of [convertImage] up to [canvas.toBlob]. *)
Definition pipelineEvents (image : ImageFile) (width height : nat) : list Event :=
  [EvConvertImage image; EvImageSrc (preview image); EvCreateElement "canvas";
   EvCanvasSize width height; EvGetContext true]
  ++ paintEvents (targetFormat image) width height
  ++ [EvDrawImage 0 0; EvToBlob (targetFormat image) (qualityFor (targetFormat image))].

(** ** A small session

    Two files are added, the first one with several dots in its name;
    the platform decodes a 3 by 2 image and encodes it. *)
Definition photo : File := mkFile "photo.final.png" "image/png" [].
Definition scan : File := mkFile "scan.jpg" "image/jpeg" [].

Definition encoded : Blob := mkBlob [] "image/png".

(** The page as first rendered, when the user has just chosen [photo]
    in the file dialog: the browser has put the path of the file in
    the value of the input, and the [change] event is about to reach
    [handleFileSelect]. *)
Definition pickedSys : Sys :=
  mkSys State.initial
    (mkWorld 0 0 [] 0 [Root] (Some "C:\fakepath\photo.final.png")).

(** The frame the effects would have if a handler touched nothing of
    the page but the component state, the object URLs and an anchor
    that is gone when it ends: the children of [document.body] and the
    value of the file input as before. *)
Definition pageUntouched (s s' : Sys) : Prop :=
  body (world s') = body (world s)
  /\ fileInput (world s') = fileInput (world s).

Definition working : Platform :=
  mkPlatform (Some (3, 2)) true (BlobReady encoded).

Definition broken : Platform :=
  mkPlatform None true BlobNull.

(** After the two files were added. *)
Definition loadedSys : Sys :=
  after (run (FileSelect (Some [photo; scan])) initialSys).

(** The first image as listed then: not yet converted. *)
Definition photoImage : ImageFile :=
  mkImageFile "uuid-0" photo "blob:0" None false None "image/png".

(** The same image with other targets. *)
Definition photoAs (format : string) : ImageFile :=
  mkImageFile "uuid-0" photo "blob:0" None false None format.

(** After a conversion of both in which the second one fails. *)
Definition convertedSys : Sys :=
  after (run (ConvertAll (fun k => if Nat.eqb k 0 then working else broken))
           loadedSys).

(** The first image as listed then: converted. *)
Definition convertedPhoto : ImageFile :=
  mkImageFile "uuid-0" (mkFile "photo.png" "image/png" []) "blob:0"
    (Some "blob:2") false None "image/png".

(** ** What the page renders

    The expressions of the JSX that read the state.  A [File] made by
    the browser has a type of printable ASCII, and the labels of
    [IMAGE_FORMATS] are ASCII, so the two case conversions are the ones
    of ASCII letters. *)
(** [getFormatExtension]. *)
Definition getFormatExtension (format : string) : string :=
  match find (fun f => String.eqb (fst f) format) IMAGE_FORMATS with
  | Some formatObj => toLowerCase (snd formatObj)
  | None => "unknown"
  end.

(** [image.convertedUrl || image.preview], the [src] of the thumbnail. *)
Definition imageSrc (image : ImageFile) : string :=
  match convertedUrl image with
  | Some url => if JS.truthy (Some url) then url else preview image
  | None => preview image
  end.

(** [image.file.type.split('/')[1].toUpperCase()], the badge of the
    card: [None] is the [TypeError] of calling a method of [undefined],
    which ends the render. *)
Definition typeBadge (image : ImageFile) : option string :=
  match JS.index (JS.split "/" (type (file image))) 1 with
  | Some part => Some (toUpperCase part)
  | None => None
  end.

(** The status line of a card: the chain of conditionals on [error],
    [converting] and [convertedUrl]; the last case carries the download
    button of the card. *)
Inductive Status :=
| ShowError (message : string)
| ShowConverting
| ShowConverted (label : string)
| ShowNothing.

Definition status (image : ImageFile) : Status :=
  match error image with
  | Some message =>
      if JS.truthy (Some message) then ShowError message
      else if converting image then ShowConverting
      else if JS.truthy (convertedUrl image)
           then ShowConverted (getFormatExtension (targetFormat image))
      else ShowNothing
  | None =>
      if converting image then ShowConverting
      else if JS.truthy (convertedUrl image)
           then ShowConverted (getFormatExtension (targetFormat image))
      else ShowNothing
  end.

(** [images.some(img => img.convertedUrl)]: whether the Download All
    button is rendered. *)
Definition showDownloadAll (st : State.t) : bool :=
  existsb (fun img => JS.truthy (convertedUrl img)) (State.images st).

(** [disabled] of the Convert All button, and of the Clear All button
    and the format selectors. *)
Definition convertDisabled (st : State.t) : bool :=
  State.isConverting st || Nat.eqb (length (State.images st)) 0.

Definition editingDisabled (st : State.t) : bool :=
  State.isConverting st.

(** ** More on the states of the page *)

(** The values of [IMAGE_FORMATS]. *)
Definition formatValues : list string := map fst IMAGE_FORMATS.

(** The keys of the blob URL store. *)
Definition liveUrls (w : World) : list string := map fst (blobStore w).

(** The object URLs the images of a list hold. *)
Definition heldUrls (l : list ImageFile) : list string := flat_map handles l.

(** The store and the list agree: the URLs the images hold are
    pairwise distinct and live, and every live URL was handed out by
    [URL.createObjectURL]. *)
Definition storeOk (s : Sys) : Prop :=
  NoDup (heldUrls (State.images (app s)))
  /\ (forall u, In u (heldUrls (State.images (app s))) -> In u (liveUrls (world s)))
  /\ (forall u, In u (liveUrls (world s)) ->
                exists k, k < urls (world s) /\ u = blobUrl k).

(** The settings of a state at rest: no conversion is running and
    every target format is one of [IMAGE_FORMATS]. *)
Definition settingsOk (s : Sys) : Prop :=
  State.isConverting (app s) = false
  /\ In (State.targetFormat (app s)) formatValues
  /\ Forall (fun img => In (targetFormat img) formatValues) (State.images (app s)).

(** An entry of the list that stands for an image of the closure of
    [convertAllImages]: same identifier, same URLs. *)
Definition awaits (entry image : ImageFile) : Prop :=
  id entry = id image
  /\ preview entry = preview image
  /\ convertedUrl entry = convertedUrl image.

(** The first image of the session converted to JPEG, and the same
    image listed for a second conversion, to WebP. *)
Definition photoJpeg : ImageFile :=
  mkImageFile "uuid-0" (mkFile "photo.jpeg" "image/jpeg" []) "blob:0"
    (Some "blob:2") false None "image/jpeg".

Definition photoAgain : ImageFile :=
  mkImageFile "uuid-0" (mkFile "photo.jpeg" "image/jpeg" []) "blob:0"
    None false None "image/webp".

(** * Facts *)

(** ** Strings *)

Lemma decimal_inj (a b : nat) : decimal a = decimal b -> a = b.
Proof.
  unfold decimal. intros E.
  apply Unsigned.to_uint_inj.
  assert (H : Some (Nat.to_uint a) = Some (Nat.to_uint b)).
  { rewrite <- (NilEmpty.usu (Nat.to_uint a)), <- (NilEmpty.usu (Nat.to_uint b)).
    now rewrite E. }
  now injection H.
Qed.

Lemma blobUrl_inj (a b : nat) : blobUrl a = blobUrl b -> a = b.
Proof.
  unfold blobUrl. cbn. intros E. injection E as E. now apply decimal_inj.
Qed.

Lemma uuid_inj (a b : nat) : uuid a = uuid b -> a = b.
Proof.
  unfold uuid. cbn. intros E. injection E as E. now apply decimal_inj.
Qed.

Lemma blobUrl_is_blob (n : nat) : isBlobUrl (blobUrl n) = true.
Proof.
  unfold isBlobUrl, blobUrl. cbn.
  destruct (decimal n); reflexivity.
Qed.

Lemma blobUrl_truthy (u : string) : isBlobUrl u = true -> JS.truthy (Some u) = true.
Proof.
  destruct u; [discriminate | reflexivity].
Qed.

(** The types of [IMAGE_FORMATS] are lower-case printable ASCII: a
    [File] made with one of them has it as its type. *)
Lemma normalizeType_format (format : string) :
  In format formatValues -> normalizeType format = format.
Proof.
  cbn. intros F.
  repeat (destruct F as [<- | F]; [reflexivity|]).
  destruct F.
Qed.

Lemma split_not_nil (c : ascii) (s : string) : JS.split c s <> [].
Proof.
  destruct s as [|a rest]; cbn; [discriminate|].
  destruct (Ascii.eqb a c); [discriminate|].
  destruct (JS.split c rest); discriminate.
Qed.

Lemma split_first (c : ascii) (s : string) :
  JS.index (JS.split c s) 0 = Some (beforeFirst c s).
Proof.
  unfold JS.index.
  induction s as [|a rest IH]; cbn; [reflexivity|].
  destruct (Ascii.eqb a c); [reflexivity|].
  destruct (JS.split c rest) as [|hd tl]; cbn in *.
  - discriminate.
  - now injection IH as ->.
Qed.

Lemma split_no_separator (c : ascii) (s : string) :
  occurs c s = false -> JS.split c s = [s].
Proof.
  induction s as [|a rest IH]; cbn; [reflexivity|].
  destruct (Ascii.eqb a c); cbn; [discriminate|].
  intros H. now rewrite (IH H).
Qed.

Lemma split_separator (c : ascii) (s : string) :
  occurs c s = true -> 2 <= length (JS.split c s).
Proof.
  induction s as [|a rest IH]; cbn; [discriminate|].
  destruct (Ascii.eqb a c); cbn.
  - intros _. pose proof (split_not_nil c rest).
    destruct (JS.split c rest); [congruence | cbn; lia].
  - intros H. specialize (IH H).
    destruct (JS.split c rest) as [|hd tl]; cbn in *; lia.
Qed.

Lemma afterLast_no_separator (c : ascii) (s : string) :
  occurs c s = false -> afterLast c s = s.
Proof.
  destruct s as [|a rest]; cbn; [reflexivity|].
  destruct (Ascii.eqb a c); cbn; [discriminate|].
  now intros ->.
Qed.

Lemma split_last (c : ascii) (s : string) :
  last (JS.split c s) EmptyString = afterLast c s.
Proof.
  induction s as [|a rest IH]; [reflexivity|].
  cbn [JS.split afterLast].
  destruct (occurs c rest) eqn:O.
  - pose proof (split_separator c rest O) as L.
    destruct (Ascii.eqb a c).
    + destruct (JS.split c rest) as [|hd tl]; [cbn in L; lia | exact IH].
    + destruct (JS.split c rest) as [|hd [|hd' tl]]; cbn in L; try lia.
      exact IH.
  - rewrite (split_no_separator c rest O).
    destruct (Ascii.eqb a c); reflexivity.
Qed.

Lemma index_last (l : list string) :
  l <> [] -> JS.index l (length l - 1) = Some (last l EmptyString).
Proof.
  unfold JS.index.
  induction l as [|x [|y tl] IH]; intros N; [congruence | reflexivity |].
  cbn [length last]. replace (S (S (length tl)) - 1) with (S (length (y :: tl) - 1))
    by (cbn; lia).
  cbn [nth_error]. apply IH. discriminate.
Qed.

(** The extension [convertImage] takes from a format. *)
Lemma extension_afterLast (format : string) :
  JS.interpolate
    (JS.index (JS.split "/" format) (length (JS.split "/" format) - 1))
  = afterLast "/" format.
Proof.
  rewrite index_last by apply split_not_nil.
  cbn. apply split_last.
Qed.

Lemma basename_beforeFirst (n : string) :
  JS.interpolate (JS.index (JS.split "." n) 0) = beforeFirst "." n.
Proof.
  now rewrite split_first.
Qed.

(** ** [convertImage], case by case *)

(** The [File] a successful conversion makes. *)
Lemma converted_file (image : ImageFile) (blob : Blob) :
  convertedFileOf image blob
  = newFile [blob]
      (String.append (beforeFirst "." (name (file image)))
         (String.append "." (afterLast "/" (targetFormat image))))
      (targetFormat image).
Proof.
  unfold convertedFileOf. now rewrite extension_afterLast, basename_beforeFirst.
Qed.

Lemma convertImage_load_error (p : Platform) (image : ImageFile) (s : Sys) :
  decoded p = None ->
  convertImage p image s =
    (Resolved (failedWith image "Failed to load image"), s,
     [EvConvertImage image; EvImageSrc (preview image);
      EvResolve (failedWith image "Failed to load image")]).
Proof.
  intros D. unfold convertImage. rewrite D. reflexivity.
Qed.

Lemma convertImage_no_context (p : Platform) (image : ImageFile) (s : Sys)
    (w h : nat) :
  decoded p = Some (w, h) -> context2d p = false ->
  convertImage p image s =
    (Resolved (failedWith image "Failed to get canvas context"),
     after (createElement "canvas" s),
     [EvConvertImage image; EvImageSrc (preview image); EvCreateElement "canvas";
      EvCanvasSize w h; EvGetContext false;
      EvResolve (failedWith image "Failed to get canvas context")]).
Proof.
  intros D C. unfold convertImage. rewrite D, !C. reflexivity.
Qed.

Lemma convertImage_blob_null (p : Platform) (image : ImageFile) (s : Sys)
    (w h : nat) :
  decoded p = Some (w, h) -> context2d p = true -> toBlob p = BlobNull ->
  convertImage p image s =
    (Resolved (failedWith image "Conversion failed"),
     after (createElement "canvas" s),
     pipelineEvents image w h ++ [EvResolve (failedWith image "Conversion failed")]).
Proof.
  intros D C B. unfold convertImage, pipelineEvents, paintEvents, qualityFor.
  rewrite D, !C, B.
  destruct (String.eqb (targetFormat image) "image/jpeg"
            || String.eqb (targetFormat image) "image/bmp"); reflexivity.
Qed.

Lemma convertImage_blob_throws (p : Platform) (image : ImageFile) (s : Sys)
    (w h : nat) (e : Thrown) :
  decoded p = Some (w, h) -> context2d p = true -> toBlob p = BlobThrows e ->
  convertImage p image s =
    (Resolved (failedWith image
                 (String.append "Conversion failed: " (thrownMessage e))),
     after (createElement "canvas" s),
     pipelineEvents image w h
       ++ [EvResolve (failedWith image
                        (String.append "Conversion failed: " (thrownMessage e)))]).
Proof.
  intros D C B. unfold convertImage, pipelineEvents, paintEvents, qualityFor.
  rewrite D, !C, B.
  destruct (String.eqb (targetFormat image) "image/jpeg"
            || String.eqb (targetFormat image) "image/bmp"); reflexivity.
Qed.

Lemma convertImage_success (p : Platform) (image : ImageFile) (s : Sys)
    (w h : nat) (blob : Blob) :
  decoded p = Some (w, h) -> context2d p = true -> toBlob p = BlobReady blob ->
  let s1 := after (createElement "canvas" s) in
  let url := blobUrl (urls (world s)) in
  let result :=
    mkImageFile (id image) (convertedFileOf image blob) (preview image)
      (Some url) false None (targetFormat image) in
  convertImage p image s =
    (Resolved result,
     after (createObjectURL blob s1),
     pipelineEvents image w h
       ++ [EvNewFile (convertedFileOf image blob); EvCreateObjectURL blob url;
           EvResolve result]).
Proof.
  intros D C B. unfold convertImage, pipelineEvents, paintEvents, qualityFor.
  rewrite D, !C, B.
  destruct (String.eqb (targetFormat image) "image/jpeg"
            || String.eqb (targetFormat image) "image/bmp"); reflexivity.
Qed.

(** The five cases are all there are. *)
Lemma platform_cases (p : Platform) :
  decoded p = None
  \/ (exists w h, decoded p = Some (w, h) /\ context2d p = false)
  \/ (exists w h, decoded p = Some (w, h) /\ context2d p = true
                  /\ toBlob p = BlobNull)
  \/ (exists w h e, decoded p = Some (w, h) /\ context2d p = true
                    /\ toBlob p = BlobThrows e)
  \/ (exists w h blob, decoded p = Some (w, h) /\ context2d p = true
                       /\ toBlob p = BlobReady blob).
Proof.
  destruct p as [[[w h]|] [|] [blob| |e]]; cbn; eauto 12.
Qed.

Lemma paintEvents_opaque (format : string) (w h : nat) :
  opaqueFormat format ->
  paintEvents format w h = [EvFillRect "#FFFFFF" 0 0 w h].
Proof.
  unfold paintEvents. intros [-> | ->]; reflexivity.
Qed.

Lemma paintEvents_other (format : string) (w h : nat) :
  ~ opaqueFormat format -> paintEvents format w h = [].
Proof.
  unfold paintEvents, opaqueFormat. intros N.
  destruct (String.eqb_spec format "image/jpeg") as [E|_]; [tauto|].
  destruct (String.eqb_spec format "image/bmp") as [E|_]; [tauto|].
  reflexivity.
Qed.

(** After the draw, [convertImage] paints nothing. *)
Lemma convertImage_tail (p : Platform) (image : ImageFile) (s : Sys) (w h : nat) :
  decoded p = Some (w, h) -> context2d p = true ->
  exists rest,
    trace (convertImage p image s) = pipelineEvents image w h ++ rest
    /\ Forall (fun e => isFillRect e = false) rest
    /\ Forall (fun e => isConversionEvent e = false) (removelast rest)
    /\ exists result, last rest EvPreventDefault = EvResolve result.
Proof.
  intros D C.
  destruct (toBlob p) as [blob| |e] eqn:B.
  - rewrite (convertImage_success _ image s _ _ _ D C B). cbn [trace snd].
    eexists. split; [reflexivity|]. cbn. repeat constructor. eauto.
  - rewrite (convertImage_blob_null _ image s _ _ D C B). cbn [trace snd].
    eexists. split; [reflexivity|]. cbn. repeat constructor. eauto.
  - rewrite (convertImage_blob_throws _ image s _ _ _ D C B). cbn [trace snd].
    eexists. split; [reflexivity|]. cbn. repeat constructor. eauto.
Qed.

(** ** The conversion routine *)

(** C1. When the source of an image decodes and the canvas gives a 2d
    context, [convertImage] loads the image from its preview URL, makes
    a new canvas of the width and height of the decoded image, draws
    the image at the origin and calls [canvas.toBlob] with the target
    format of the image; when that delivers a blob, the promise
    resolves with the image record whose [convertedUrl] is an object
    URL never handed out before and entered in the blob URL store for
    that blob, whose [file] is a [File] made with the target format as
    its type and holding the bytes of the blob, and whose [error] is
    null.  The type of that [File] is the target format as the [File]
    constructor keeps it, which is the target format itself for every
    format of [IMAGE_FORMATS]. *)
Theorem convertImage_pipeline (p : Platform) (image : ImageFile) (s : Sys)
    (w h : nat) :
  decoded p = Some (w, h) ->
  context2d p = true ->
  let r := convertImage p image s in
  (exists rest,
     trace r =
       [EvConvertImage image; EvImageSrc (preview image);
        EvCreateElement "canvas"; EvCanvasSize w h; EvGetContext true]
       ++ paintEvents (targetFormat image) w h
       ++ [EvDrawImage 0 0;
           EvToBlob (targetFormat image) (qualityFor (targetFormat image))]
       ++ rest)
  /\ (forall blob, toBlob p = BlobReady blob ->
      exists result url,
        value r = Resolved result
        /\ trace r =
             pipelineEvents image w h
             ++ [EvNewFile (file result); EvCreateObjectURL blob url;
                 EvResolve result]
        /\ convertedUrl result = Some url
        /\ url = blobUrl (urls (world s))
        /\ (forall k, k < urls (world s) -> blobUrl k <> url)
        /\ blobStore (world (after r)) = (url, blob) :: blobStore (world s)
        /\ file result
           = newFile [blob]
               (String.append (beforeFirst "." (name (file image)))
                  (String.append "." (afterLast "/" (targetFormat image))))
               (targetFormat image)
        /\ type (file result) = normalizeType (targetFormat image)
        /\ (In (targetFormat image) formatValues ->
            type (file result) = targetFormat image)
        /\ bytes (file result) = blob_bytes blob
        /\ error result = None
        /\ converting result = false
        /\ id result = id image
        /\ preview result = preview image
        /\ targetFormat result = targetFormat image).
Proof.
  intros D C r. split.
  - destruct (convertImage_tail _ image s _ _ D C) as (rest & T & _).
    exists rest. subst r. rewrite T. unfold pipelineEvents.
    now rewrite <- !app_assoc.
  - intros blob B. subst r.
    rewrite (convertImage_success _ image s _ _ _ D C B).
    do 2 eexists. cbn [value trace after fst snd].
    split; [reflexivity|]. split; [reflexivity|]. split; [reflexivity|].
    split; [reflexivity|]. split.
    + intros k L E. apply blobUrl_inj in E. lia.
    + split; [reflexivity|]. split; [apply converted_file|].
      split; [reflexivity|]. split.
      * intros F. cbn. now apply normalizeType_format.
      * cbn. rewrite app_nil_r. repeat split; reflexivity.
Qed.

(** C8. [convertImage] always resolves, with [converting] false; the
    [error] of the result is non-null exactly when the conversion
    failed (the image did not load, there was no 2d context, [toBlob]
    gave null or threw); and on a failure the [file], [preview],
    [convertedUrl] and [targetFormat] of the result are those of the
    input. *)
Theorem convertImage_total (p : Platform) (image : ImageFile) (s : Sys) :
  exists result,
    value (convertImage p image s) = Resolved result
    /\ converting result = false
    /\ (error result <> None <-> Failed p)
    /\ (Failed p ->
        file result = file image
        /\ preview result = preview image
        /\ convertedUrl result = convertedUrl image
        /\ targetFormat result = targetFormat image).
Proof.
  unfold Failed.
  destruct (platform_cases p)
    as [D | [(w & h & D & C) | [(w & h & D & C & B)
        | [(w & h & e & D & C & B) | (w & h & blob & D & C & B)]]]].
  - rewrite (convertImage_load_error _ image s D).
    eexists. split; [reflexivity|]. cbn. intuition discriminate.
  - rewrite (convertImage_no_context _ image s _ _ D C).
    eexists. split; [reflexivity|]. cbn. intuition discriminate.
  - rewrite (convertImage_blob_null _ image s _ _ D C B).
    eexists. split; [reflexivity|]. cbn. intuition discriminate.
  - rewrite (convertImage_blob_throws _ image s _ _ _ D C B).
    eexists. split; [reflexivity|]. cbn.
    split; [reflexivity|]. split; [|tauto].
    split; [eauto 6 | discriminate].
  - rewrite (convertImage_success _ image s _ _ _ D C B).
    eexists. split; [reflexivity|]. cbn.
    split; [reflexivity|].
    assert (N : ~ (decoded p = None \/ context2d p = false \/ toBlob p = BlobNull
                   \/ exists e, toBlob p = BlobThrows e)).
    { rewrite D, C, B. intros [X | [X | [X | [e X]]]]; discriminate. }
    split; [split; [congruence | tauto] | tauto].
Qed.

(** C9. When the image is drawn, [convertImage] fills the whole canvas
    with ['#FFFFFF'] just before the draw exactly when the target
    format is [image/jpeg] or [image/bmp]; for any other target format
    the draw comes right after the context is taken and no rectangle
    is filled at all. *)
Theorem white_background (p : Platform) (image : ImageFile) (s : Sys)
    (w h : nat) :
  decoded p = Some (w, h) ->
  context2d p = true ->
  exists rest,
    Forall (fun e => isFillRect e = false) rest
    /\ (opaqueFormat (targetFormat image) ->
        trace (convertImage p image s) =
          [EvConvertImage image; EvImageSrc (preview image);
           EvCreateElement "canvas"; EvCanvasSize w h; EvGetContext true;
           EvFillRect "#FFFFFF" 0 0 w h; EvDrawImage 0 0] ++ rest)
    /\ (~ opaqueFormat (targetFormat image) ->
        trace (convertImage p image s) =
          [EvConvertImage image; EvImageSrc (preview image);
           EvCreateElement "canvas"; EvCanvasSize w h; EvGetContext true;
           EvDrawImage 0 0] ++ rest).
Proof.
  intros D C.
  destruct (convertImage_tail _ image s _ _ D C) as (rest & T & F & _).
  exists (EvToBlob (targetFormat image) (qualityFor (targetFormat image)) :: rest).
  split; [constructor; [reflexivity | exact F]|].
  rewrite T. unfold pipelineEvents. split; intros O.
  - now rewrite (paintEvents_opaque _ w h O).
  - now rewrite (paintEvents_other _ w h O).
Qed.

Lemma convertImage_pipeline_witness :
  decoded working = Some (3, 2)
  /\ context2d working = true
  /\ exists result url,
       value (convertImage working (photoAs "image/jpeg") loadedSys)
         = Resolved result
       /\ trace (convertImage working (photoAs "image/jpeg") loadedSys) =
            pipelineEvents (photoAs "image/jpeg") 3 2
            ++ [EvNewFile (file result); EvCreateObjectURL encoded url;
                EvResolve result]
       /\ convertedUrl result = Some url
       /\ url = "blob:2"
       /\ type (file result) = "image/jpeg".
Proof.
  split; [reflexivity|]. split; [reflexivity|].
  destruct (proj2 (convertImage_pipeline working (photoAs "image/jpeg")
                     loadedSys 3 2 eq_refl eq_refl) encoded eq_refl)
    as (result & url & V & T & U & E & _ & _ & _ & _ & TY & _).
  exists result, url.
  split; [exact V|]. split; [exact T|]. split; [exact U|]. split; [exact E|].
  apply TY. cbn. tauto.
Defined.

Lemma white_background_witness :
  decoded working = Some (3, 2)
  /\ context2d working = true
  /\ exists rest,
       Forall (fun e => isFillRect e = false) rest
       /\ (opaqueFormat "image/bmp" ->
           trace (convertImage working (photoAs "image/bmp") loadedSys) =
             [EvConvertImage (photoAs "image/bmp"); EvImageSrc "blob:0";
              EvCreateElement "canvas"; EvCanvasSize 3 2; EvGetContext true;
              EvFillRect "#FFFFFF" 0 0 3 2; EvDrawImage 0 0] ++ rest)
       /\ (~ opaqueFormat "image/bmp" ->
           trace (convertImage working (photoAs "image/bmp") loadedSys) =
             [EvConvertImage (photoAs "image/bmp"); EvImageSrc "blob:0";
              EvCreateElement "canvas"; EvCanvasSize 3 2; EvGetContext true;
              EvDrawImage 0 0] ++ rest).
Proof.
  split; [reflexivity|]. split; [reflexivity|].
  exact (white_background working (photoAs "image/bmp") loadedSys 3 2
           eq_refl eq_refl).
Defined.

Lemma beforeFirst_app (c : ascii) (base tail : string) :
  occurs c base = false ->
  beforeFirst c (String.append base (String c tail)) = base.
Proof.
  induction base as [|a base IH]; cbn.
  - now rewrite Ascii.eqb_refl.
  - destruct (Ascii.eqb a c); cbn; [discriminate|].
    intros O. now rewrite (IH O).
Qed.

(** C10, as stated, fails: converting [photo.final.png] to
    [image/svg+xml] names the file [photo.svg+xml], not [photo.xml]. *)
Lemma converted_name_svg_counterexample :
  targetFormat (photoAs "image/svg+xml") = "image/svg+xml"
  /\ exists result,
       value (convertImage working (photoAs "image/svg+xml") loadedSys)
         = Resolved result
       /\ name (file result) = "photo.svg+xml"
       /\ name (file result) <> "photo.xml".
Proof.
  split; [reflexivity|].
  eexists. split; [reflexivity|]. split; [reflexivity | discriminate].
Qed.

(** C10, amended. The name of the converted file is the portion of the
    name of the input file before its first ['.'], then ['.'], then
    the substring of the target format after its last ['/']: a name
    with several dots loses everything after the first one, the
    target [image/svg+xml] gives the extension [svg+xml] and the
    target [image/x-icon] the extension [x-icon]. *)
Theorem converted_file_name (p : Platform) (image : ImageFile) (s : Sys)
    (w h : nat) (blob : Blob) :
  decoded p = Some (w, h) ->
  context2d p = true ->
  toBlob p = BlobReady blob ->
  exists result,
    value (convertImage p image s) = Resolved result
    /\ name (file result) =
         String.append (beforeFirst "." (name (file image)))
           (String.append "." (afterLast "/" (targetFormat image)))
    /\ (forall base tail,
          name (file image) = String.append base (String "." tail) ->
          occurs "." base = false ->
          beforeFirst "." (name (file image)) = base)
    /\ (targetFormat image = "image/svg+xml" ->
        name (file result) =
          String.append (beforeFirst "." (name (file image))) ".svg+xml")
    /\ (targetFormat image = "image/x-icon" ->
        name (file result) =
          String.append (beforeFirst "." (name (file image))) ".x-icon").
Proof.
  intros D C B.
  rewrite (convertImage_success _ image s _ _ _ D C B).
  eexists. split; [reflexivity|].
  cbn [file name convertedFileOf newFile].
  rewrite extension_afterLast, basename_beforeFirst.
  split; [reflexivity|]. split.
  - intros base tail E O. rewrite E. now apply beforeFirst_app.
  - split; intros ->; reflexivity.
Qed.

Lemma converted_file_name_witness :
  decoded working = Some (3, 2)
  /\ context2d working = true
  /\ toBlob working = BlobReady encoded
  /\ exists result,
       value (convertImage working (photoAs "image/x-icon") loadedSys)
         = Resolved result
       /\ name (file result) = "photo.x-icon".
Proof.
  split; [reflexivity|]. split; [reflexivity|]. split; [reflexivity|].
  destruct (converted_file_name working (photoAs "image/x-icon") loadedSys
              3 2 encoded eq_refl eq_refl eq_refl)
    as (result & V & N & _ & _ & X).
  exists result. split; [exact V|]. exact (X eq_refl).
Defined.

(** ** Loops over the list *)

Lemma flat_map_trace_bind {A B C : Type} (proj : Event -> list C)
    (m : M A) (k : A -> M B) (s : Sys) :
  flat_map proj (trace (bind m k s)) =
    flat_map proj (trace (m s))
    ++ flat_map proj (trace (k (value (m s)) (after (m s)))).
Proof.
  unfold bind. cbn [trace snd]. apply flat_map_app.
Qed.

(** A reading of the trace of [forEach] is the concatenation of the
    readings of its rounds, when these do not depend on the state. *)
Lemma forEach_reading {A C : Type} (proj : Event -> list C)
    (f : A -> M unit) (g : A -> list C) (l : list A) :
  (forall x s, flat_map proj (trace (f x s)) = g x) ->
  forall s, flat_map proj (trace (forEach f l s)) = flat_map g l.
Proof.
  intros H. induction l as [|x rest IH]; intros s; [reflexivity|].
  cbn [forEach flat_map]. rewrite flat_map_trace_bind, H, IH. reflexivity.
Qed.

Lemma forEach_app_unchanged {A : Type} (f : A -> M unit) (l : list A) :
  (forall x s, app (after (f x s)) = app s) ->
  forall s, app (after (forEach f l s)) = app s.
Proof.
  intros H. induction l as [|x rest IH]; intros s; [reflexivity|].
  cbn [forEach]. unfold bind. cbn [after fst snd]. now rewrite IH, H.
Qed.

Lemma revokeImage_revoked (image : ImageFile) (s : Sys) :
  revoked (trace (revokeImage image s)) = handles image.
Proof.
  unfold revokeImage, handles, revoked.
  destruct (convertedUrl image) as [url|]; [|reflexivity].
  unfold bind. destruct (JS.truthy (Some url)); reflexivity.
Qed.

Lemma revokeImage_app (image : ImageFile) (s : Sys) :
  app (after (revokeImage image s)) = app s.
Proof.
  unfold revokeImage.
  destruct (convertedUrl image) as [url|]; [|reflexivity].
  unfold bind. destruct (JS.truthy (Some url)); reflexivity.
Qed.

(** With distinct identifiers, [find] gets the one image that [filter]
    keeps. *)
Lemma filter_find_distinct (i : string) (l : list ImageFile) :
  NoDup (map id l) ->
  filter (fun img => String.eqb (id img) i) l =
    match find (fun img => String.eqb (id img) i) l with
    | Some image => [image]
    | None => []
    end.
Proof.
  induction l as [|x rest IH]; intros N; [reflexivity|].
  cbn in N. inversion N as [|? ? NI N']; subst.
  cbn [filter find].
  destruct (String.eqb_spec (id x) i) as [E|E].
  - f_equal. clear IH N N'.
    induction rest as [|y rest IH]; [reflexivity|].
    cbn [filter]. destruct (String.eqb_spec (id y) i) as [E'|E'].
    + exfalso. apply NI. left. congruence.
    + apply IH. intros X. apply NI. now right.
  - now apply IH.
Qed.

Lemma removeImage_effect (i : string) (s : Sys) :
  State.images (app (after (removeImage i s))) =
    filter (fun img => negb (String.eqb (id img) i)) (State.images (app s))
  /\ revoked (trace (removeImage i s)) =
       match find (fun img => String.eqb (id img) i) (State.images (app s)) with
       | Some image => handles image
       | None => []
       end.
Proof.
  unfold removeImage, setImagesWith.
  cbn [after trace fst snd]. split.
  - unfold bind. cbn. reflexivity.
  - unfold revoked. rewrite flat_map_app. cbn [flat_map]. rewrite app_nil_r.
    rewrite flat_map_trace_bind. cbn [ret trace snd flat_map]. rewrite app_nil_r.
    destruct (find _ _) as [image|]; [|reflexivity].
    apply revokeImage_revoked.
Qed.

Lemma clearAllImages_effect (s : Sys) :
  State.images (app (after (clearAllImages s))) = []
  /\ revoked (trace (clearAllImages s)) = flat_map handles (State.images (app s)).
Proof.
  unfold clearAllImages. split; [reflexivity|].
  unfold revoked.
  rewrite flat_map_trace_bind. cbn [getState trace snd flat_map app value after fst].
  rewrite flat_map_trace_bind.
  rewrite (forEach_reading _ revokeImage handles _ revokeImage_revoked).
  cbn. now rewrite app_nil_r.
Qed.

(** ** Releasing the object URLs *)

(** C3, as stated, fails: removing the one converted image of the
    list revokes two object URLs, its preview and its converted URL;
    clearing the list of two images, one of them converted, revokes
    three. *)
Lemma revoke_two_counterexample :
  State.images (app convertedSys) <> []
  /\ length (State.images (app convertedSys))
     - length (State.images (app (after (removeImage "uuid-0" convertedSys)))) = 1
  /\ revoked (trace (removeImage "uuid-0" convertedSys)) = ["blob:0"; "blob:2"]
  /\ length (State.images (app convertedSys)) = 2
  /\ revoked (trace (clearAllImages convertedSys)) = ["blob:0"; "blob:2"; "blob:1"].
Proof.
  repeat split; try reflexivity. discriminate.
Qed.

(** With distinct identifiers, the two handlers revoke the object URLs
    of the images they remove, and no other. *)
Lemma distinct_ids_revocations (s : Sys) (i : string) :
  NoDup (map id (State.images (app s))) ->
  (State.images (app (after (removeImage i s))) =
     filter (fun img => negb (String.eqb (id img) i)) (State.images (app s))
   /\ revoked (trace (removeImage i s)) =
        flat_map handles
          (filter (fun img => String.eqb (id img) i) (State.images (app s))))
  /\ (State.images (app (after (clearAllImages s))) = []
      /\ revoked (trace (clearAllImages s)) =
           flat_map handles (State.images (app s))).
Proof.
  intros N. split.
  - destruct (removeImage_effect i s) as [I R]. split; [exact I|].
    rewrite R, (filter_find_distinct i _ N).
    destruct (find _ _); cbn; [now rewrite app_nil_r | reflexivity].
  - apply clearAllImages_effect.
Qed.

Lemma handles_count (image : ImageFile) :
  handles image =
    preview image ::
    match convertedUrl image with
    | Some url => if String.eqb url "" then [] else [url]
    | None => []
    end.
Proof.
  unfold handles.
  destruct (convertedUrl image) as [url|]; [|reflexivity].
  cbn. destruct (String.eqb url ""); reflexivity.
Qed.

(** ** Downloading *)

Lemma downloadImage_calls (image : ImageFile) (s : Sys) (url : string) :
  convertedUrl image = Some url ->
  JS.truthy (Some url) = true ->
  let link := Anchor (nodes (world s)) url (name (file image)) in
  trace (downloadImage image s) =
    [EvCreateElement "a"; EvAppendChild link; EvClick link; EvRemoveChild link]
  /\ app (after (downloadImage image s)) = app s.
Proof.
  intros U T. unfold downloadImage. rewrite U, T. cbn. split; reflexivity.
Qed.

Lemma downloadImage_app (image : ImageFile) (s : Sys) :
  app (after (downloadImage image s)) = app s.
Proof.
  unfold downloadImage.
  destruct (convertedUrl image) as [url|]; [|reflexivity].
  destruct (negb (JS.truthy (Some url))); reflexivity.
Qed.

(** The download one round of [downloadAllImages] triggers. *)
Lemma download_round (image : ImageFile) (s : Sys) :
  downloads
    (trace ((if JS.truthy (convertedUrl image) then downloadImage image
             else ret tt) s)) =
    match convertedUrl image with
    | Some url => if String.eqb url "" then [] else [(url, name (file image))]
    | None => []
    end.
Proof.
  destruct (convertedUrl image) as [url|] eqn:U; [|reflexivity].
  cbn [JS.truthy]. destruct (String.eqb url "") eqn:E; [reflexivity|].
  cbn [negb].
  destruct (downloadImage_calls image s url U) as [T _].
  { cbn. now rewrite E. }
  rewrite T. reflexivity.
Qed.

Lemma flat_map_ext_in_nonempty_url (l : list ImageFile) :
  Forall (fun img => convertedUrl img <> Some "") l ->
  flat_map (fun img =>
              match convertedUrl img with
              | Some url => if String.eqb url "" then [] else [(url, name (file img))]
              | None => []
              end) l =
  flat_map (fun img =>
              match convertedUrl img with
              | Some url => [(url, name (file img))]
              | None => []
              end) l.
Proof.
  induction 1 as [|x rest H _ IH]; [reflexivity|].
  cbn [flat_map]. rewrite IH. f_equal.
  destruct (convertedUrl x) as [url|]; [|reflexivity].
  destruct (String.eqb_spec url ""); [congruence | reflexivity].
Qed.

(** When no converted URL of the list is the empty string,
    [downloadAllImages] downloads the converted images, in order. *)
Lemma downloadAllImages_downloads (s : Sys) :
  Forall (fun img => convertedUrl img <> Some "") (State.images (app s)) ->
  downloads (trace (downloadAllImages s)) =
    flat_map (fun img =>
                match convertedUrl img with
                | Some url => [(url, name (file img))]
                | None => []
                end) (State.images (app s))
  /\ app (after (downloadAllImages s)) = app s.
Proof.
  intros F. split.
  - unfold downloadAllImages, downloads.
    rewrite flat_map_trace_bind.
    cbn [getState trace snd flat_map app value after fst].
    erewrite forEach_reading; [|intros x s'; apply download_round].
    apply flat_map_ext_in_nonempty_url. exact F.
  - unfold downloadAllImages. unfold bind at 1. cbn [after fst snd getState value].
    apply forEach_app_unchanged. intros x s'.
    destruct (JS.truthy (convertedUrl x)); [apply downloadImage_app | reflexivity].
Qed.

(** ** Picking the target format *)

Lemma newImageFile_effect (format : string) (f : File) (s : Sys) :
  value (newImageFile format f s) =
    mkImageFile (uuid (uuids (world s))) f (blobUrl (urls (world s)))
      None false None format
  /\ app (after (newImageFile format f s)) = app s.
Proof.
  split; reflexivity.
Qed.

Lemma mapM_newImageFile (format : string) (fs : list File) :
  forall s,
    map file (value (mapM (newImageFile format) fs s)) = fs
    /\ Forall (fun img => targetFormat img = format
                          /\ convertedUrl img = None /\ error img = None)
         (value (mapM (newImageFile format) fs s))
    /\ app (after (mapM (newImageFile format) fs s)) = app s.
Proof.
  induction fs as [|f rest IH]; intros s.
  - repeat split; constructor.
  - cbn [mapM]. unfold bind at 1 2. cbn [value after trace fst snd ret].
    destruct (IH (after (newImageFile format f s))) as (F & T & A).
    unfold bind. cbn [value after trace fst snd ret].
    split; [|split].
    + cbn [map]. now rewrite F.
    + constructor; [repeat split | exact T].
    + rewrite A. reflexivity.
Qed.

Lemma after_bind {A B : Type} (m : M A) (k : A -> M B) (s : Sys) :
  after (bind m k s) = after (k (value (m s)) (after (m s))).
Proof. reflexivity. Qed.

Lemma value_bind {A B : Type} (m : M A) (k : A -> M B) (s : Sys) :
  value (bind m k s) = value (k (value (m s)) (after (m s))).
Proof. reflexivity. Qed.

Lemma trace_bind {A B : Type} (m : M A) (k : A -> M B) (s : Sys) :
  trace (bind m k s) = trace (m s) ++ trace (k (value (m s)) (after (m s))).
Proof. reflexivity. Qed.

Lemma setImages_images (f : list ImageFile -> list ImageFile) (s : Sys) :
  State.images (app (after (setImages f s))) = f (State.images (app s)).
Proof. reflexivity. Qed.

Lemma resetFileInput_app (s : Sys) : app (after (resetFileInput s)) = app s.
Proof.
  unfold resetFileInput. destruct (fileInput (world s)); reflexivity.
Qed.

Lemma handleFileSelect_images (fs : list File) (s : Sys) :
  fs <> [] ->
  State.images (app (after (handleFileSelect (Some fs) s))) =
    State.images (app s)
    ++ value (mapM (newImageFile (State.targetFormat (app s))) fs s).
Proof.
  intros N. unfold handleFileSelect.
  destruct fs as [|f rest]; [congruence|].
  cbn [length Nat.eqb].
  destruct (mapM_newImageFile (State.targetFormat (app s)) (f :: rest) s)
    as (_ & _ & A).
  rewrite !after_bind, resetFileInput_app, setImages_images.
  cbn [getState value after fst snd]. now rewrite A.
Qed.

Lemma handleDrop_images (fs : list File) (s : Sys) :
  filter (fun f => JS.startsWith (type f) "image/") fs <> [] ->
  State.images (app (after (handleDrop (Some fs) s))) =
    State.images (app s)
    ++ value (mapM (newImageFile (State.targetFormat (app s)))
                (filter (fun f => JS.startsWith (type f) "image/") fs) s).
Proof.
  intros N. unfold handleDrop.
  destruct fs as [|f0 rest0]; [cbn in N; congruence|].
  cbn [length Nat.eqb].
  destruct (filter _ (f0 :: rest0)) as [|f rest] eqn:E; [congruence|].
  cbn [length Nat.eqb].
  destruct (mapM_newImageFile (State.targetFormat (app s)) (f :: rest) s)
    as (_ & _ & A).
  rewrite !after_bind, setImages_images.
  cbn [getState emit value after fst snd]. now rewrite A.
Qed.

Lemma pipelineEvents_toBlob (image : ImageFile) (w h : nat) (mime : string)
    (quality : option Q) :
  In (EvToBlob mime quality) (pipelineEvents image w h) ->
  mime = targetFormat image.
Proof.
  unfold pipelineEvents, paintEvents.
  destruct (String.eqb (targetFormat image) "image/jpeg"
            || String.eqb (targetFormat image) "image/bmp");
    cbn; intros H;
    repeat (destruct H as [H|H]; [try discriminate; now injection H|]);
    contradiction.
Qed.

Lemma pipelineEvents_has_toBlob (image : ImageFile) (w h : nat) :
  In (EvToBlob (targetFormat image) (qualityFor (targetFormat image)))
    (pipelineEvents image w h).
Proof.
  unfold pipelineEvents. rewrite !in_app_iff. right. right. cbn. tauto.
Qed.

Lemma convertImage_toBlob (p : Platform) (image : ImageFile) (s : Sys)
    (mime : string) (quality : option Q) :
  In (EvToBlob mime quality) (trace (convertImage p image s)) ->
  mime = targetFormat image.
Proof.
  destruct (platform_cases p)
    as [D | [(w & h & D & C) | [(w & h & D & C & B)
        | [(w & h & e & D & C & B) | (w & h & blob & D & C & B)]]]].
  - rewrite (convertImage_load_error _ image s D). cbn.
    intuition discriminate.
  - rewrite (convertImage_no_context _ image s _ _ D C). cbn.
    intuition discriminate.
  - rewrite (convertImage_blob_null _ image s _ _ D C B). cbn [trace snd].
    rewrite in_app_iff. intros [H|H]; [now apply pipelineEvents_toBlob in H|].
    cbn in H. intuition discriminate.
  - rewrite (convertImage_blob_throws _ image s _ _ _ D C B). cbn [trace snd].
    rewrite in_app_iff. intros [H|H]; [now apply pipelineEvents_toBlob in H|].
    cbn in H. intuition discriminate.
  - rewrite (convertImage_success _ image s _ _ _ D C B). cbn [trace snd].
    rewrite in_app_iff. intros [H|H]; [now apply pipelineEvents_toBlob in H|].
    cbn in H. intuition discriminate.
Qed.

(** C4. [updateImageTargetFormat] sets the target format of the images
    with the given identifier and leaves every other image as it was;
    a format button sets the global format and leaves the list as it
    is; [applyGlobalFormatToAll] sets the target format of every image
    to the global one, so to the format picked just before; a file
    added through the file input or dropped on the page gets the
    global format of that moment; and [convertImage] asks
    [canvas.toBlob] for the target format of the image it converts and
    makes the converted file with that format as its type, which the
    [File] constructor keeps as it is for every format of
    [IMAGE_FORMATS]. *)
Theorem target_format_choice (s : Sys) :
  (forall i format,
     Forall2 (fun old new =>
                if String.eqb (id old) i
                then id new = id old /\ file new = file old
                     /\ preview new = preview old /\ targetFormat new = format
                else new = old)
       (State.images (app s))
       (State.images (app (after (updateImageTargetFormat i format s)))))
  /\ (forall format,
        State.targetFormat (app (after (pickGlobalFormat format s))) = format
        /\ State.images (app (after (pickGlobalFormat format s)))
           = State.images (app s)
        /\ map targetFormat
             (State.images (app (after (applyGlobalFormatToAll
                                          (after (pickGlobalFormat format s))))))
           = map (fun _ => format) (State.images (app s))
        /\ forall fs, exists newFiles,
             State.images (app (after (handleFileSelect (Some fs)
                                         (after (pickGlobalFormat format s)))))
             = State.images (app s) ++ newFiles
             /\ map file newFiles = fs
             /\ Forall (fun img => targetFormat img = format) newFiles)
  /\ Forall2 (fun old new =>
                id new = id old /\ file new = file old
                /\ preview new = preview old
                /\ targetFormat new = State.targetFormat (app s))
       (State.images (app s))
       (State.images (app (after (applyGlobalFormatToAll s))))
  /\ (forall files, exists newFiles,
        State.images (app (after (handleFileSelect files s))) =
          State.images (app s) ++ newFiles
        /\ map file newFiles = match files with Some fs => fs | None => [] end
        /\ Forall (fun img => targetFormat img = State.targetFormat (app s))
             newFiles)
  /\ (forall files, exists newFiles,
        State.images (app (after (handleDrop files s))) =
          State.images (app s) ++ newFiles
        /\ map file newFiles =
             filter (fun f => JS.startsWith (type f) "image/")
               match files with Some fs => fs | None => [] end
        /\ Forall (fun img => targetFormat img = State.targetFormat (app s))
             newFiles)
  /\ (forall p image s',
        (forall mime quality,
           In (EvToBlob mime quality) (trace (convertImage p image s')) ->
           mime = targetFormat image)
        /\ (forall w h,
              decoded p = Some (w, h) -> context2d p = true ->
              In (EvToBlob (targetFormat image) (qualityFor (targetFormat image)))
                (trace (convertImage p image s')))
        /\ (forall result,
              value (convertImage p image s') = Resolved result ->
              targetFormat result = targetFormat image
              /\ (error result = None ->
                  type (file result) = normalizeType (targetFormat image)
                  /\ (In (targetFormat image) formatValues ->
                      type (file result) = targetFormat image)))).
Proof.
  split; [|split; [|split; [|split; [|split]]]].
  - intros i format. unfold updateImageTargetFormat. rewrite setImages_images.
    induction (State.images (app s)) as [|x rest IH]; cbn [map]; constructor.
    + destruct (String.eqb (id x) i); [repeat split | reflexivity].
    + exact IH.
  - intros format. split; [reflexivity|]. split; [reflexivity|]. split.
    + unfold applyGlobalFormatToAll. rewrite after_bind, setImages_images.
      cbn [getState value after fst snd]. rewrite map_map. reflexivity.
    + intros fs. set (s1 := after (pickGlobalFormat format s)).
      destruct fs as [|f rest].
      * exists []. cbn. rewrite app_nil_r. repeat split. constructor.
      * destruct (mapM_newImageFile (State.targetFormat (app s1)) (f :: rest) s1)
          as (MF & T & _).
        change (State.images (app s)) with (State.images (app s1)).
        eexists. split; [apply handleFileSelect_images; discriminate|].
        split; [exact MF|].
        eapply Forall_impl; [|exact T]. cbn. tauto.
  - unfold applyGlobalFormatToAll. rewrite after_bind, setImages_images.
    cbn [getState value after fst snd].
    induction (State.images (app s)) as [|x rest IH]; cbn [map]; constructor.
    + repeat split.
    + exact IH.
  - intros [[|f rest]|].
    + exists []. cbn. now rewrite app_nil_r.
    + destruct (mapM_newImageFile (State.targetFormat (app s)) (f :: rest) s)
        as (F & T & _).
      eexists. split; [apply handleFileSelect_images; discriminate|].
      split; [exact F|].
      eapply Forall_impl; [|exact T]. cbn. tauto.
    + exists []. cbn. now rewrite app_nil_r.
  - intros files.
    destruct (filter (fun f => JS.startsWith (type f) "image/")
                match files with Some fs => fs | None => [] end)
      as [|f rest] eqn:E.
    + exists []. rewrite app_nil_r. split; [|split; [reflexivity | constructor]].
      unfold handleDrop. destruct files as [fs|]; [|reflexivity].
      destruct fs as [|f0 rest0]; [reflexivity|].
      cbn [length Nat.eqb]. rewrite E. reflexivity.
    + destruct files as [fs|]; [|discriminate].
      destruct (mapM_newImageFile (State.targetFormat (app s))
                  (filter (fun f => JS.startsWith (type f) "image/") fs) s)
        as (F & T & _).
      eexists. split; [apply handleDrop_images; rewrite E; discriminate|].
      split; [rewrite <- E; exact F|].
      eapply Forall_impl; [|exact T]. cbn. tauto.
  - intros p image s'. split; [|split].
    + intros mime quality. apply convertImage_toBlob.
    + intros w h D C.
      destruct (convertImage_tail _ image s' _ _ D C) as (rest & T & _).
      rewrite T, in_app_iff. left. apply pipelineEvents_has_toBlob.
    + intros result.
      destruct (platform_cases p)
        as [D | [(w & h & D & C) | [(w & h & D & C & B)
            | [(w & h & e & D & C & B) | (w & h & blob & D & C & B)]]]].
      * rewrite (convertImage_load_error _ image s' D). cbn.
        intros V. injection V as <-. cbn. split; [reflexivity | discriminate].
      * rewrite (convertImage_no_context _ image s' _ _ D C). cbn.
        intros V. injection V as <-. cbn. split; [reflexivity | discriminate].
      * rewrite (convertImage_blob_null _ image s' _ _ D C B). cbn.
        intros V. injection V as <-. cbn. split; [reflexivity | discriminate].
      * rewrite (convertImage_blob_throws _ image s' _ _ _ D C B). cbn.
        intros V. injection V as <-. cbn. split; [reflexivity | discriminate].
      * rewrite (convertImage_success _ image s' _ _ _ D C B). cbn.
        intros V. injection V as <-. cbn.
        split; [reflexivity|]. intros _. split; [reflexivity|].
        apply normalizeType_format.
Qed.

(** ** The loop of [convertAllImages] *)

Lemma pipelineEvents_work (image : ImageFile) (w h : nat) :
  exists work,
    pipelineEvents image w h = EvConvertImage image :: work
    /\ Forall (fun e => isConversionEvent e = false) work.
Proof.
  unfold pipelineEvents, paintEvents.
  destruct (String.eqb (targetFormat image) "image/jpeg"
            || String.eqb (targetFormat image) "image/bmp");
    cbn; eexists; (split; [reflexivity | repeat constructor]).
Qed.

(** One call of [convertImage]: it starts, works, and resolves; the
    result keeps the identifier; the component state is not touched. *)
Lemma convertImage_resolves (p : Platform) (image : ImageFile) (s : Sys) :
  exists result work,
    value (convertImage p image s) = Resolved result
    /\ trace (convertImage p image s) =
         EvConvertImage image :: work ++ [EvResolve result]
    /\ Forall (fun e => isConversionEvent e = false) work
    /\ id result = id image
    /\ app (after (convertImage p image s)) = app s.
Proof.
  destruct (platform_cases p)
    as [D | [(w & h & D & C) | [(w & h & D & C & B)
        | [(w & h & e & D & C & B) | (w & h & blob & D & C & B)]]]].
  - rewrite (convertImage_load_error _ image s D).
    exists (failedWith image "Failed to load image"), [EvImageSrc (preview image)].
    repeat split. repeat constructor.
  - rewrite (convertImage_no_context _ image s _ _ D C).
    eexists _, [_; _; _; _]. repeat split. repeat constructor.
  - rewrite (convertImage_blob_null _ image s _ _ D C B).
    destruct (pipelineEvents_work image w h) as (work & -> & F).
    eexists _, work. repeat split. exact F.
  - rewrite (convertImage_blob_throws _ image s _ _ _ D C B).
    destruct (pipelineEvents_work image w h) as (work & -> & F).
    eexists _, work. repeat split. exact F.
  - rewrite (convertImage_success _ image s _ _ _ D C B).
    destruct (pipelineEvents_work image w h) as (work & -> & F).
    eexists _, (work ++ [_; _]). cbn [value trace after fst snd].
    split; [reflexivity|]. split; [now rewrite <- !app_assoc|].
    split; [|split; reflexivity].
    apply Forall_app. split; [exact F | repeat constructor].
Qed.

Lemma round_trace (image result : ImageFile) (work t : list Event) (e : Event) :
  (EvConvertImage image :: work ++ [EvResolve result]) ++ ([] ++ [e]) ++ t =
  EvConvertImage image :: work ++ EvResolve result :: e :: t.
Proof.
  cbn. now rewrite <- app_assoc.
Qed.

Lemma convertLoop_rounds (env : nat -> Platform) (todo : list ImageFile) :
  forall k convertedImages s,
    (exists results,
       value (convertLoop env k todo convertedImages s) = Resolved results)
    /\ rounds (State.images (app s)) todo
         (trace (convertLoop env k todo convertedImages s))
         (State.images (app (after (convertLoop env k todo convertedImages s))))
    /\ State.targetFormat (app (after (convertLoop env k todo convertedImages s)))
       = State.targetFormat (app s)
    /\ State.isConverting (app (after (convertLoop env k todo convertedImages s)))
       = State.isConverting (app s)
    /\ State.showInfo (app (after (convertLoop env k todo convertedImages s)))
       = State.showInfo (app s)
    /\ State.darkMode (app (after (convertLoop env k todo convertedImages s)))
       = State.darkMode (app s).
Proof.
  induction todo as [|image rest IH]; intros k convertedImages s.
  - cbn. split; [eauto|]. split; [constructor | tauto].
  - cbn [convertLoop].
    destruct (convertImage_resolves (env k) image s)
      as (result & work & V & T & F & I & A).
    rewrite value_bind, trace_bind, !after_bind, V, T.
    rewrite value_bind, trace_bind, !after_bind.
    set (s1 := after (convertImage (env k) image s)) in *.
    set (s2 := after (setImages _ s1)).
    destruct (IH (S k) (convertedImages ++ [result]) s2) as (R & RS & X).
    assert (E : State.images (app s2) = putResult result (State.images (app s))).
    { subst s2. rewrite setImages_images. now rewrite A. }
    split; [exact R|]. split.
    + cbn [trace setImages setImagesWith ret snd value fst].
      rewrite A, round_trace.
      apply rounds_step; [exact F | exact I |].
      fold (putResult result (State.images (app s))).
      rewrite <- E. exact RS.
    + assert (O : State.targetFormat (app s2) = State.targetFormat (app s)
                  /\ State.isConverting (app s2) = State.isConverting (app s)
                  /\ State.showInfo (app s2) = State.showInfo (app s)
                  /\ State.darkMode (app s2) = State.darkMode (app s)).
      { rewrite <- A. repeat split; reflexivity. }
      destruct O as (O1 & O2 & O3 & O4). destruct X as (X1 & X2 & X3 & X4).
      rewrite X1, X2, X3, X4. tauto.
Qed.

Lemma sequential_work (busy : bool) (work rest : list Event) :
  Forall (fun e => isConversionEvent e = false) work ->
  sequential busy (work ++ rest) = sequential busy rest.
Proof.
  induction 1 as [|e work H _ IH]; [reflexivity|].
  cbn [app]. destruct e; cbn in H |- *; try discriminate; exact IH.
Qed.

Lemma conversions_work (work : list Event) :
  Forall (fun e => isConversionEvent e = false) work ->
  conversions work = [].
Proof.
  induction 1 as [|e work H _ IH]; [reflexivity|].
  unfold conversions in *. cbn [flat_map]. rewrite IH.
  destruct e; cbn in H |- *; try discriminate; reflexivity.
Qed.

Lemma rounds_sequential (cur todo : list ImageFile) (t : list Event)
    (final : list ImageFile) :
  rounds cur todo t final ->
  forall rest, sequential false (t ++ rest) = sequential false rest.
Proof.
  induction 1 as [cur | cur image todo work result t final F I R IH];
    intros rest; [reflexivity|].
  change (sequential false
            ((EvConvertImage image ::
                work ++ EvResolve result :: EvSetImages (putResult result cur) :: t)
             ++ rest))
    with (sequential true
            ((work ++ EvResolve result :: EvSetImages (putResult result cur) :: t)
             ++ rest)).
  rewrite <- app_assoc, (sequential_work _ _ _ F).
  cbn [Datatypes.app sequential andb]. apply IH.
Qed.

Lemma rounds_conversions (cur todo : list ImageFile) (t : list Event)
    (final : list ImageFile) :
  rounds cur todo t final -> conversions t = todo.
Proof.
  induction 1 as [cur | cur image todo work result t final F I R IH];
    [reflexivity|].
  unfold conversions in *. cbn [flat_map Datatypes.app].
  rewrite flat_map_app. fold (conversions work).
  rewrite (conversions_work _ F). cbn [flat_map Datatypes.app]. now rewrite IH.
Qed.

(** The entries of the list with the identifier of a result are that
    result, once it is put. *)
Lemma putResult_entry (result img : ImageFile) (cur : list ImageFile) :
  In img (putResult result cur) -> id img = id result -> img = result.
Proof.
  unfold putResult. rewrite in_map_iff. intros (x & E & _) I.
  destruct (String.eqb_spec (id x) (id result)) as [X|X]; [now subst|].
  subst img. contradiction.
Qed.

Lemma putResult_listed (result image : ImageFile) (cur : list ImageFile) :
  In image cur -> id result = id image -> In result (putResult result cur).
Proof.
  unfold putResult. intros H I. apply in_map_iff. exists image.
  rewrite <- I, String.eqb_refl. tauto.
Qed.

Lemma convertAllImages_empty (env : nat -> Platform) (s : Sys) :
  State.images (app s) = [] ->
  convertAllImages env s = (Resolved tt, s, []).
Proof.
  intros E. unfold convertAllImages, bind. cbn [getState value after trace fst snd].
  rewrite E. reflexivity.
Qed.

Lemma convertAllImages_run (env : nat -> Platform) (s : Sys) :
  State.images (app s) <> [] ->
  exists t,
    value (convertAllImages env s) = Resolved tt
    /\ trace (convertAllImages env s) =
         EvSetIsConverting true
         :: EvSetImages (map markConverting (State.images (app s)))
         :: t ++ [EvSetIsConverting false]
    /\ rounds (map markConverting (State.images (app s))) (State.images (app s)) t
         (State.images (app (after (convertAllImages env s))))
    /\ State.targetFormat (app (after (convertAllImages env s)))
       = State.targetFormat (app s)
    /\ State.isConverting (app (after (convertAllImages env s))) = false
    /\ State.showInfo (app (after (convertAllImages env s)))
       = State.showInfo (app s)
    /\ State.darkMode (app (after (convertAllImages env s)))
       = State.darkMode (app s).
Proof.
  intros N. unfold convertAllImages.
  rewrite value_bind, trace_bind, !after_bind.
  cbn [getState value after trace fst snd].
  destruct (State.images (app s)) as [|x rest] eqn:E; [congruence|].
  cbn [length Nat.eqb].
  rewrite ?value_bind, ?trace_bind, ?after_bind.
  set (s1 := after (setIsConverting true s)).
  set (s2 := after (setImages _ s1)).
  assert (I2 : State.images (app s2) = map markConverting (x :: rest)).
  { subst s2 s1. rewrite setImages_images. cbn [setIsConverting after fst snd app
      State.images]. now rewrite E. }
  destruct (convertLoop_rounds env (x :: rest) 0 [] s2)
    as ((results & V) & R & X1 & X2 & X3 & X4).
  rewrite V. rewrite I2 in R.
  exists (trace (convertLoop env 0 (x :: rest) [] s2)).
  split; [reflexivity|]. split.
  - match goal with
    | |- context [trace (setImages ?f s1)] =>
        assert (T2 : trace (setImages f s1)
                     = [EvSetImages (map markConverting (x :: rest))])
    end.
    { subst s1. unfold setImages, setImagesWith, setIsConverting, ret.
      cbn [trace value after fst snd app State.images]. now rewrite E. }
    rewrite T2. reflexivity.
  - split; [exact R|].
    split; [exact X1|]. split; [reflexivity|]. split; [exact X3 | exact X4].
Qed.

(** ** Converting the whole list *)

(** C2. [convertAllImages] converts the images of the list one after
    the other: after the two state updates that open it, its trace is
    a sequence of rounds, one per image in list order, each made of
    the call of [convertImage], the work of that conversion, the
    resolution of its promise and, right after it, the update that
    puts the result in the list in place of the entries with its
    identifier; so a conversion starts only when the one before has
    resolved and no two are in flight at once. *)
Theorem convertAllImages_sequential (env : nat -> Platform) (s : Sys) :
  State.images (app s) <> [] ->
  exists t,
    trace (convertAllImages env s) =
      EvSetIsConverting true
      :: EvSetImages (map markConverting (State.images (app s)))
      :: t ++ [EvSetIsConverting false]
    /\ rounds (map markConverting (State.images (app s))) (State.images (app s)) t
         (State.images (app (after (convertAllImages env s))))
    /\ sequential false (trace (convertAllImages env s)) = true
    /\ (forall result cur img,
          In img (putResult result cur) -> id img = id result -> img = result).
Proof.
  intros N.
  destruct (convertAllImages_run env s N) as (t & _ & T & R & _).
  exists t. split; [exact T|]. split; [exact R|]. split.
  - rewrite T. cbn [sequential].
    now rewrite (rounds_sequential _ _ _ _ R).
  - intros result cur img. apply putResult_entry.
Qed.

Lemma convertAllImages_sequential_witness :
  State.images (app loadedSys) <> []
  /\ sequential false
       (trace (convertAllImages
                 (fun k => if Nat.eqb k 0 then working else broken) loadedSys))
     = true.
Proof.
  assert (N : State.images (app loadedSys) <> []) by discriminate.
  split; [exact N|].
  destruct (convertAllImages_sequential
              (fun k => if Nat.eqb k 0 then working else broken) loadedSys N)
    as (t & _ & _ & S & _).
  exact S.
Defined.

(** A second run converts again the image that was converted and the
    one that failed. *)
Example convert_again :
  State.images (app convertedSys) =
    [convertedPhoto;
     mkImageFile "uuid-1" scan "blob:1" None false (Some "Failed to load image")
       "image/png"]
  /\ conversions (trace (convertAllImages (fun _ => working) convertedSys))
     = State.images (app convertedSys)
  /\ map convertedUrl
       (State.images (app (after (convertAllImages (fun _ => working) convertedSys))))
     = [Some "blob:3"; Some "blob:4"].
Proof.
  vm_compute. repeat split.
Qed.

(** ** The invariant of the reachable states *)

Lemma grows_refl (w : World) : grows w w.
Proof. unfold grows. auto. Qed.

Lemma grows_trans (w1 w2 w3 : World) : grows w1 w2 -> grows w2 w3 -> grows w1 w3.
Proof.
  unfold grows. intros (U1 & N1 & B1) (U2 & N2 & B2).
  repeat split; [lia | lia | congruence].
Qed.

Lemma imageOk_grows (w w' : World) (img : ImageFile) :
  grows w w' -> imageOk w img -> imageOk w' img.
Proof.
  intros (U & _) (P & k & K & I).
  split; [exact P|]. exists k. split; [lia | exact I].
Qed.

Lemma nodeOk_grows (w w' : World) (n : Node) :
  grows w w' -> nodeOk w n -> nodeOk w' n.
Proof.
  intros (_ & N & _). destruct n; cbn; [tauto | lia].
Qed.

Lemma invariant_grows (s s' : Sys) :
  invariant s ->
  grows (world s) (world s') ->
  Forall (imageOk (world s')) (State.images (app s')) ->
  NoDup (map id (State.images (app s'))) ->
  invariant s'.
Proof.
  intros (_ & _ & B) G I N. split; [exact I|]. split; [exact N|].
  destruct G as (GU & GN & GB). rewrite GB.
  eapply Forall_impl; [|exact B].
  intros n. apply nodeOk_grows. repeat split; assumption.
Qed.

Lemma localTrace_app (t1 t2 : list Event) :
  localTrace t1 -> localTrace t2 -> localTrace (t1 ++ t2).
Proof.
  unfold localTrace. intros H1 H2. apply Forall_app. now split.
Qed.

Lemma NoDup_map_injective {A B : Type} (f : A -> B) (l : list A) :
  (forall x y, f x = f y -> x = y) -> NoDup l -> NoDup (map f l).
Proof.
  intros Inj. induction 1 as [|x l X N IH]; cbn; constructor; [|exact IH].
  rewrite in_map_iff. intros (y & E & Y). apply Inj in E. now subst.
Qed.

Lemma NoDup_map_filter {A B : Type} (f : A -> B) (g : A -> bool) (l : list A) :
  NoDup (map f l) -> NoDup (map f (filter g l)).
Proof.
  induction l as [|x l IH]; cbn; intros N; [constructor|].
  inversion N as [|? ? NI N']; subst.
  destruct (g x); cbn; [constructor|]; auto.
  rewrite in_map_iff. intros (y & E & Y). apply NI.
  apply in_map_iff. exists y. split; [exact E|].
  now apply filter_In in Y.
Qed.

(** *** Adding files *)

Lemma mapM_newImageFile_fresh (format : string) (fs : list File) :
  forall s,
    map id (value (mapM (newImageFile format) fs s))
    = map uuid (seq (uuids (world s)) (length fs))
    /\ Forall (fun img => isBlobUrl (preview img) = true
                          /\ convertedUrl img = None)
         (value (mapM (newImageFile format) fs s))
    /\ uuids (world (after (mapM (newImageFile format) fs s)))
       = uuids (world s) + length fs
    /\ nodes (world (after (mapM (newImageFile format) fs s))) = nodes (world s)
    /\ body (world (after (mapM (newImageFile format) fs s))) = body (world s)
    /\ localTrace (trace (mapM (newImageFile format) fs s)).
Proof.
  induction fs as [|f rest IH]; intros s.
  - cbn. rewrite Nat.add_0_r. repeat split; constructor.
  - cbn [mapM].
    rewrite ?value_bind, ?trace_bind, ?after_bind.
    destruct (IH (after (newImageFile format f s))) as (I & P & U & N & B & L).
    cbn [ret value after trace fst snd].
    split; [|split; [|split; [|split; [|split]]]].
    + cbn [map length seq]. rewrite I. reflexivity.
    + constructor; [|exact P]. split; [apply blobUrl_is_blob | reflexivity].
    + rewrite U. cbn. lia.
    + rewrite N. reflexivity.
    + rewrite B. reflexivity.
    + apply localTrace_app; [repeat constructor|].
      rewrite app_nil_r. exact L.
Qed.

(** The list after new images were appended to it. *)
Lemma appended_invariant (s s' : Sys) (newFiles : list ImageFile) (n : nat) :
  invariant s ->
  State.images (app s') = State.images (app s) ++ newFiles ->
  map id newFiles = map uuid (seq (uuids (world s)) n) ->
  Forall (fun img => isBlobUrl (preview img) = true /\ convertedUrl img = None)
    newFiles ->
  uuids (world s') = uuids (world s) + n ->
  nodes (world s') = nodes (world s) ->
  body (world s') = body (world s) ->
  invariant s'.
Proof.
  intros Inv E I P U N B.
  assert (G : grows (world s) (world s')).
  { unfold grows. rewrite U, N, B. repeat split; lia. }
  destruct Inv as (IO & ND & BO).
  apply invariant_grows with (s := s); [repeat split; assumption | exact G | |].
  - rewrite E. apply Forall_app. split.
    + eapply Forall_impl; [|exact IO]. intros img. now apply imageOk_grows.
    + apply Forall_forall. intros img H.
      pose proof (proj1 (Forall_forall _ _) P img H) as (PB & CN).
      split; [split; [exact PB | intros u X; congruence]|].
      assert (HI : In (id img) (map id newFiles)) by now apply in_map.
      rewrite I in HI. apply in_map_iff in HI. destruct HI as (k & K & KS).
      apply in_seq in KS. exists k. split; [lia | now symmetry].
  - rewrite E, map_app, I. apply NoDup_app.
    + exact ND.
    + apply NoDup_map_injective; [apply uuid_inj | apply seq_NoDup].
    + intros x X Y. apply in_map_iff in X. destruct X as (img & <- & X).
      pose proof (proj1 (Forall_forall _ _) IO img X) as (_ & k & K & KI).
      apply in_map_iff in Y. destruct Y as (j & J & JS).
      apply in_seq in JS. rewrite KI in J. apply uuid_inj in J. lia.
Qed.

Lemma resetFileInput_world (s : Sys) :
  uuids (world (after (resetFileInput s))) = uuids (world s)
  /\ nodes (world (after (resetFileInput s))) = nodes (world s)
  /\ body (world (after (resetFileInput s))) = body (world s)
  /\ localTrace (trace (resetFileInput s)).
Proof.
  unfold resetFileInput. destruct (fileInput (world s)); cbn;
    repeat split; repeat constructor.
Qed.

Lemma confined_same (s : Sys) : invariant s -> confined s (tt, s, []).
Proof.
  intros I. repeat split; try apply I. constructor.
Qed.

Lemma handleFileSelect_confined (files : option (list File)) (s : Sys) :
  invariant s -> confined s (handleFileSelect files s).
Proof.
  intros Inv. destruct files as [[|f rest]|]; try now apply confined_same.
  set (fs := f :: rest).
  destruct (mapM_newImageFile_fresh (State.targetFormat (app s)) fs s)
    as (I & P & U & N & B & L).
  pose proof (handleFileSelect_images fs s ltac:(discriminate)) as E.
  unfold confined, handleFileSelect in *.
  cbn [fs length Nat.eqb] in *. fold fs in E |- *.
  rewrite ?after_bind in E. rewrite ?after_bind, ?trace_bind.
  cbn [getState value after trace fst snd] in *.
  set (s1 := after (mapM (newImageFile (State.targetFormat (app s))) fs s)) in *.
  set (s2 := after (setImages _ s1)) in *.
  destruct (resetFileInput_world s2) as (RU & RN & RB & RL).
  assert (W2 : world s2 = world s1) by reflexivity.
  split; [|split].
  - eapply appended_invariant; [exact Inv | exact E | exact I | exact P | | |].
    + rewrite RU, W2. exact U.
    + rewrite RN, W2. exact N.
    + rewrite RB, W2. exact B.
  - cbn [Datatypes.app]. apply localTrace_app; [exact L|].
    apply localTrace_app; [repeat constructor | exact RL].
  - rewrite RB, W2. exact B.
Qed.

Lemma handleDragOver_confined (s : Sys) :
  invariant s -> confined s (handleDragOver s).
Proof.
  intros I. repeat split; try apply I. repeat constructor.
Qed.

Lemma handleDrop_run (fs : list File) (s : Sys) :
  filter (fun f => JS.startsWith (type f) "image/") fs <> [] ->
  let r := mapM (newImageFile (State.targetFormat (app s)))
             (filter (fun f => JS.startsWith (type f) "image/") fs) s in
  trace (handleDrop (Some fs) s) =
    EvPreventDefault :: EvStopPropagation
    :: trace r ++ [EvSetImages (State.images (app (after r)) ++ value r)]
  /\ world (after (handleDrop (Some fs) s)) = world (after r).
Proof.
  intros N. unfold handleDrop.
  destruct fs as [|f0 rest0]; [cbn in N; congruence|].
  cbn [length Nat.eqb].
  destruct (filter _ (f0 :: rest0)) as [|f rest] eqn:E; [congruence|].
  split; reflexivity.
Qed.

Lemma handleDrop_confined (files : option (list File)) (s : Sys) :
  invariant s -> confined s (handleDrop files s).
Proof.
  intros Inv.
  assert (Same : confined s (tt, s, [EvPreventDefault; EvStopPropagation])).
  { repeat split; try apply Inv. repeat constructor. }
  destruct files as [fs|]; [|exact Same].
  destruct (filter (fun f => JS.startsWith (type f) "image/") fs)
    as [|f rest] eqn:F.
  { unfold handleDrop. destruct fs as [|f0 rest0]; [exact Same|].
    cbn [length Nat.eqb]. rewrite F. exact Same. }
  assert (NE : filter (fun f => JS.startsWith (type f) "image/") fs <> [])
    by (rewrite F; discriminate).
  pose proof (handleDrop_images fs s NE) as E.
  destruct (handleDrop_run fs s NE) as (T & W).
  destruct (mapM_newImageFile_fresh (State.targetFormat (app s))
              (filter (fun f => JS.startsWith (type f) "image/") fs) s)
    as (I & P & U & N & B & L).
  unfold confined. rewrite T.
  split; [|split].
  - eapply appended_invariant; [exact Inv | exact E | exact I | exact P | | |];
      rewrite W; assumption.
  - repeat (constructor; [reflexivity|]).
    apply localTrace_app; [exact L | repeat constructor].
  - rewrite W. exact B.
Qed.

(** *** The handlers that only update the list *)

Lemma confined_intro {A : Type} (s : Sys) (r : A * Sys * list Event) :
  invariant s ->
  grows (world s) (world (after r)) ->
  Forall (imageOk (world (after r))) (State.images (app (after r))) ->
  NoDup (map id (State.images (app (after r)))) ->
  localTrace (trace r) ->
  confined s r.
Proof.
  intros Inv G I N L. split; [|split].
  - now apply invariant_grows with (s := s).
  - exact L.
  - apply G.
Qed.

Lemma revokeImage_world (image : ImageFile) (s : Sys) :
  uuids (world (after (revokeImage image s))) = uuids (world s)
  /\ nodes (world (after (revokeImage image s))) = nodes (world s)
  /\ body (world (after (revokeImage image s))) = body (world s)
  /\ localTrace (trace (revokeImage image s)).
Proof.
  unfold revokeImage.
  destruct (convertedUrl image) as [url|]; [destruct (JS.truthy (Some url))|];
    cbn; repeat split; repeat constructor.
Qed.

Lemma grows_same (w w' : World) :
  uuids w' = uuids w -> nodes w' = nodes w -> body w' = body w -> grows w w'.
Proof.
  unfold grows. intros -> -> ->. auto.
Qed.

Lemma removeImage_confined (i : string) (s : Sys) :
  invariant s -> confined s (removeImage i s).
Proof.
  intros Inv. pose proof Inv as (IO & ND & _).
  destruct (removeImage_effect i s) as (E & _).
  assert (W : grows (world s) (world (after (removeImage i s)))
              /\ localTrace (trace (removeImage i s))).
  { unfold removeImage, setImagesWith.
    rewrite ?after_bind, ?trace_bind. cbn [after trace fst snd world].
    rewrite ?after_bind, ?trace_bind. cbn [ret after trace fst snd].
    destruct (find _ _) as [image|].
    - destruct (revokeImage_world image s) as (U & N & B & L).
      split; [now apply grows_same|].
      apply localTrace_app; [|repeat constructor].
      rewrite app_nil_r. exact L.
    - split; [apply grows_refl | repeat constructor]. }
  destruct W as (G & L).
  apply confined_intro; try assumption; rewrite E.
  - apply Forall_forall. intros img H. apply filter_In in H.
    apply imageOk_grows with (w := world s); [exact G|].
    now apply (proj1 (Forall_forall _ _) IO).
  - now apply NoDup_map_filter.
Qed.

Lemma mapped_confined (g : ImageFile -> ImageFile) (s : Sys) :
  invariant s ->
  (forall img, id (g img) = id img /\ (urlsOk img -> urlsOk (g img))) ->
  confined s (setImages (map g) s).
Proof.
  intros Inv H. pose proof Inv as (IO & ND & _).
  apply confined_intro; try assumption.
  - apply grows_refl.
  - rewrite setImages_images. apply Forall_forall. intros img X.
    apply in_map_iff in X. destruct X as (x & <- & X).
    pose proof (proj1 (Forall_forall _ _) IO x X) as (P & K).
    destruct (H x) as (HI & HU).
    split; [now apply HU | now rewrite HI].
  - rewrite setImages_images, map_map.
    erewrite map_ext; [exact ND|]. intros x. apply H.
  - repeat constructor.
Qed.

Lemma updateImageTargetFormat_confined (i format : string) (s : Sys) :
  invariant s -> confined s (updateImageTargetFormat i format s).
Proof.
  intros Inv. unfold updateImageTargetFormat.
  apply (mapped_confined
           (fun img => if String.eqb (id img) i
                       then mkImageFile (id img) (file img) (preview img) None
                              (converting img) None format
                       else img) s Inv).
  intros img. destruct (String.eqb (id img) i); cbn; [|tauto].
  split; [reflexivity|]. intros (P & _). split; [exact P | discriminate].
Qed.

Lemma applyGlobalFormatToAll_confined (s : Sys) :
  invariant s -> confined s (applyGlobalFormatToAll s).
Proof.
  intros Inv.
  apply (mapped_confined
           (fun img => mkImageFile (id img) (file img) (preview img) None
                         (converting img) None (State.targetFormat (app s))) s Inv).
  intros img. cbn. split; [reflexivity|].
  intros (P & _). split; [exact P | discriminate].
Qed.

Lemma settings_confined (s : Sys) :
  invariant s ->
  (forall format, confined s (pickGlobalFormat format s))
  /\ confined s (toggleTheme s)
  /\ confined s (toggleInfo s).
Proof.
  intros Inv. pose proof Inv as (IO & ND & _).
  split; [intros format | split];
    (apply confined_intro;
     [exact Inv | apply grows_refl | exact IO | exact ND | repeat constructor]).
Qed.

Lemma forEach_revokeImage_world (l : list ImageFile) :
  forall s,
    grows (world s) (world (after (forEach revokeImage l s)))
    /\ localTrace (trace (forEach revokeImage l s)).
Proof.
  induction l as [|x rest IH]; intros s.
  - split; [apply grows_refl | constructor].
  - cbn [forEach]. rewrite after_bind, trace_bind.
    destruct (revokeImage_world x s) as (U & N & B & L).
    destruct (IH (after (revokeImage x s))) as (G & LR).
    split.
    + eapply grows_trans; [|exact G]. now apply grows_same.
    + now apply localTrace_app.
Qed.

Lemma clearAllImages_confined (s : Sys) :
  invariant s -> confined s (clearAllImages s).
Proof.
  intros Inv. unfold clearAllImages.
  destruct (forEach_revokeImage_world (State.images (app s)) s) as (G & L).
  apply confined_intro; [exact Inv | exact G | constructor | constructor |].
  rewrite ?trace_bind. cbn [getState trace snd value after fst].
  cbn [Datatypes.app]. apply localTrace_app; [exact L | repeat constructor].
Qed.

(** *** Downloading and converting *)

Lemma confined_bind {A B : Type} (m : M A) (k : A -> M B) (s : Sys) :
  confined s (m s) ->
  confined (after (m s)) (k (value (m s)) (after (m s))) ->
  confined s (bind m k s).
Proof.
  intros (I1 & L1 & B1) (I2 & L2 & B2).
  split; [exact I2|]. split.
  - rewrite trace_bind. now apply localTrace_app.
  - rewrite after_bind. congruence.
Qed.

(** The anchor of a download is the one element [removeChild] takes
    out of [document.body]. *)
Lemma anchor_removed (w : World) (href download : string) :
  Forall (nodeOk w) (body w) ->
  filter (fun c => negb (is_node (nodes w) c))
    (body w ++ [Anchor (nodes w) href download]) = body w.
Proof.
  intros F. rewrite filter_app. cbn. rewrite Nat.eqb_refl. cbn.
  rewrite app_nil_r.
  induction F as [|n l H _ IH]; [reflexivity|].
  cbn [filter]. rewrite IH.
  destruct n as [|j h d]; [reflexivity|].
  cbn in H |- *. destruct (Nat.eqb_spec j (nodes w)); [lia | reflexivity].
Qed.

Lemma downloadImage_confined (image : ImageFile) (s : Sys) :
  invariant s -> urlsOk image -> confined s (downloadImage image s).
Proof.
  intros Inv (_ & C). pose proof Inv as (IO & ND & BO).
  unfold downloadImage.
  destruct (convertedUrl image) as [url|] eqn:U; [|now apply confined_same].
  destruct (JS.truthy (Some url)); cbn [negb]; [|now apply confined_same].
  assert (B : body (world (after
                ((k <- createElement "a";;
                  appendChild (Anchor k url (name (file image)));;
                  emit (EvClick (Anchor k url (name (file image))));;
                  removeChild k (Anchor k url (name (file image)))) s)))
              = body (world s)).
  { cbn. now apply anchor_removed. }
  apply confined_intro; [exact Inv | | | exact ND |].
  - split; [cbn; lia|]. split; [cbn; lia | exact B].
  - eapply Forall_impl; [|exact IO]. intros img. apply imageOk_grows.
    split; [cbn; lia|]. split; [cbn; lia | exact B].
  - cbn. repeat constructor. cbn. now apply C.
Qed.

Lemma downloadAllImages_confined (s : Sys) :
  invariant s -> confined s (downloadAllImages s).
Proof.
  intros Inv. unfold downloadAllImages.
  apply confined_bind; [now apply confined_same|].
  cbn [getState value after fst snd].
  assert (U : Forall urlsOk (State.images (app s))).
  { destruct Inv as (IO & _). eapply Forall_impl; [|exact IO].
    intros img H. apply H. }
  revert U Inv. generalize (State.images (app s)) as l.
  intros l. revert s.
  induction l as [|x rest IH]; intros s U Inv; [now apply confined_same|].
  inversion U as [|? ? UX UR]; subst.
  cbn [forEach]. apply confined_bind.
  - destruct (JS.truthy (convertedUrl x));
      [now apply downloadImage_confined | now apply confined_same].
  - apply IH; [exact UR|].
    destruct (JS.truthy (convertedUrl x));
      [now apply downloadImage_confined | exact Inv].
Qed.

Lemma convertImage_confined (p : Platform) (image : ImageFile) (s : Sys) :
  invariant s -> urlsOk image ->
  confined s (convertImage p image s)
  /\ exists result,
       value (convertImage p image s) = Resolved result
       /\ id result = id image
       /\ urlsOk result.
Proof.
  intros Inv (P & C). pose proof Inv as (IO & ND & BO).
  assert (L : forall w h, localTrace (pipelineEvents image w h)).
  { intros w h. unfold pipelineEvents, paintEvents.
    destruct (String.eqb (targetFormat image) "image/jpeg"
              || String.eqb (targetFormat image) "image/bmp");
      cbn; repeat constructor; exact P. }
  assert (G1 : grows (world s) (world (after (createElement "canvas" s)))).
  { unfold grows. cbn. auto. }
  assert (K : forall (r : Settled ImageFile * Sys * list Event),
            app (after r) = app s -> grows (world s) (world (after r)) ->
            localTrace (trace r) -> confined s r).
  { intros r A G T. apply confined_intro; [exact Inv | exact G | | | exact T];
      rewrite A.
    - eapply Forall_impl; [|exact IO]. intros img. now apply imageOk_grows.
    - exact ND. }
  destruct (platform_cases p)
    as [D | [(w & h & D & Cx) | [(w & h & D & Cx & B)
        | [(w & h & e & D & Cx & B) | (w & h & blob & D & Cx & B)]]]].
  - rewrite (convertImage_load_error _ image s D). split.
    + apply K; [reflexivity | apply grows_refl | repeat constructor; exact P].
    + eexists. repeat split; [exact P | exact C].
  - rewrite (convertImage_no_context _ image s _ _ D Cx). split.
    + apply K; [reflexivity | exact G1 | repeat constructor; exact P].
    + eexists. repeat split; [exact P | exact C].
  - rewrite (convertImage_blob_null _ image s _ _ D Cx B). split.
    + apply K; [reflexivity | exact G1 |].
      apply localTrace_app; [apply L | repeat constructor].
    + eexists. repeat split; [exact P | exact C].
  - rewrite (convertImage_blob_throws _ image s _ _ _ D Cx B). split.
    + apply K; [reflexivity | exact G1 |].
      apply localTrace_app; [apply L | repeat constructor].
    + eexists. repeat split; [exact P | exact C].
  - rewrite (convertImage_success _ image s _ _ _ D Cx B). split.
    + apply K; [reflexivity | unfold grows; cbn; auto |].
      apply localTrace_app; [apply L | repeat constructor].
    + eexists. repeat split; [exact P|].
      cbn. intros u E. injection E as <-. apply blobUrl_is_blob.
Qed.

Lemma convertLoop_confined (env : nat -> Platform) (todo : list ImageFile) :
  forall k convertedImages s,
    invariant s -> Forall urlsOk todo ->
    confined s (convertLoop env k todo convertedImages s).
Proof.
  induction todo as [|image rest IH]; intros k convertedImages s Inv U.
  - now apply confined_same.
  - inversion U as [|? ? UX UR]; subst.
    destruct (convertImage_confined (env k) image s Inv UX)
      as (CI & result & V & I & RU).
    cbn [convertLoop]. apply confined_bind; [exact CI|].
    rewrite V.
    assert (S2 : confined (after (convertImage (env k) image s))
                   (setImages (map (fun img =>
                      if String.eqb (id img) (id result) then result else img))
                      (after (convertImage (env k) image s)))).
    { apply mapped_confined; [apply CI|].
      intros img. destruct (String.eqb_spec (id img) (id result)) as [E|E].
      - split; [now symmetry | intros _; exact RU].
      - tauto. }
    apply confined_bind; [exact S2|].
    apply IH; [apply S2 | exact UR].
Qed.

Lemma convertAllImages_confined (env : nat -> Platform) (s : Sys) :
  invariant s -> confined s (convertAllImages env s).
Proof.
  intros Inv.
  destruct (State.images (app s)) as [|x rest] eqn:E.
  { rewrite (convertAllImages_empty env s E). now apply confined_same. }
  assert (U : Forall urlsOk (State.images (app s))).
  { destruct Inv as (IO & _). eapply Forall_impl; [|exact IO].
    intros img H. apply H. }
  assert (Flag : forall b s', invariant s' -> confined s' (setIsConverting b s')).
  { intros b s' I'. pose proof I' as (IO & ND & _).
    apply confined_intro;
      [exact I' | apply grows_refl | exact IO | exact ND | repeat constructor]. }
  unfold convertAllImages.
  apply confined_bind; [now apply confined_same|].
  cbn [getState value after fst snd]. rewrite E. cbn [length Nat.eqb].
  rewrite <- E.
  apply confined_bind; [now apply Flag|].
  assert (S2 : confined (after (setIsConverting true s))
                 (setImages (map markConverting) (after (setIsConverting true s)))).
  { apply mapped_confined; [now apply Flag|].
    intros img. split; [reflexivity|]. intros H. exact H. }
  apply confined_bind; [exact S2|].
  set (s2 := after (setImages _ (after (setIsConverting true s)))) in *.
  assert (I2 : invariant s2) by apply S2.
  pose proof (convertLoop_confined env (State.images (app s)) 0 [] s2 I2 U) as CL.
  apply confined_bind; [exact CL|].
  destruct (convertLoop_rounds env (State.images (app s)) 0 [] s2)
    as ((results & V) & _).
  rewrite V.
  apply confined_bind; [apply Flag; apply CL|].
  apply confined_same. apply Flag. apply CL.
Qed.

(** ** The reachable states *)

Lemma run_confined (a : Action) (s : Sys) :
  invariant s -> offered a s -> confined s (run a s).
Proof.
  intros Inv O. destruct a; cbn [run].
  - now apply handleFileSelect_confined.
  - now apply handleDragOver_confined.
  - now apply handleDrop_confined.
  - now apply removeImage_confined.
  - apply confined_bind; [now apply convertAllImages_confined|].
    apply confined_same. now apply convertAllImages_confined.
  - apply downloadImage_confined; [exact Inv|].
    destruct Inv as (IO & _). cbn in O.
    apply (proj1 (Forall_forall _ _) IO image O).
  - now apply downloadAllImages_confined.
  - now apply clearAllImages_confined.
  - now apply settings_confined.
  - now apply settings_confined.
  - now apply settings_confined.
  - now apply updateImageTargetFormat_confined.
  - now apply applyGlobalFormatToAll_confined.
Qed.

Lemma initial_invariant : invariant initialSys.
Proof.
  repeat split; repeat constructor.
Qed.

Lemma reachable_invariant (s : Sys) : reachable s -> invariant s.
Proof.
  induction 1 as [|a s R IH O]; [apply initial_invariant|].
  now apply run_confined.
Qed.

(** In a reachable state the identifiers of the list are distinct and
    no converted URL is the empty string. *)
Lemma reachable_images (s : Sys) :
  reachable s ->
  NoDup (map id (State.images (app s)))
  /\ Forall (fun img => convertedUrl img <> Some "") (State.images (app s)).
Proof.
  intros R. destruct (reachable_invariant s R) as (IO & ND & _).
  split; [exact ND|].
  eapply Forall_impl; [|exact IO].
  intros img ((_ & C) & _) E. specialize (C _ E). discriminate.
Qed.

(** In a reachable state [document.body] holds the application root
    only. *)
Lemma reachable_body (s : Sys) : reachable s -> body (world s) = [Root].
Proof.
  induction 1 as [|a s R IH O]; [reflexivity|].
  destruct (run_confined a s (reachable_invariant s R) O) as (_ & _ & B).
  congruence.
Qed.

Lemma convertedSys_reachable : reachable convertedSys.
Proof.
  exact (reachable_step
           (ConvertAll (fun k => if Nat.eqb k 0 then working else broken))
           loadedSys
           (reachable_step (FileSelect (Some [photo; scan])) initialSys
              reachable_initial I)
           I).
Qed.

(** The session, as the definitions compute it. *)
Example session :
  State.images (app loadedSys) =
    [photoImage;
     mkImageFile "uuid-1" scan "blob:1" None false None "image/png"]
  /\ State.images (app convertedSys) =
       [convertedPhoto;
        mkImageFile "uuid-1" scan "blob:1" None false
          (Some "Failed to load image") "image/png"]
  /\ trace (run DownloadAll convertedSys) =
       [EvCreateElement "a"; EvAppendChild (Anchor 1 "blob:2" "photo.png");
        EvClick (Anchor 1 "blob:2" "photo.png");
        EvRemoveChild (Anchor 1 "blob:2" "photo.png")]
  /\ body (world (after (run DownloadAll convertedSys))) = [Root].
Proof.
  vm_compute. repeat split.
Qed.

(** ** Releasing and downloading, in the reachable states *)

(** C3, amended. In every state the page can reach, [removeImage] and
    [clearAllImages] revoke, for every image they remove, its preview
    URL and, when the image has a converted URL, that URL too, and
    nothing else: one object URL for an image not converted, two for a
    converted one. *)
Theorem revoked_handles (s : Sys) (i : string) :
  reachable s ->
  (State.images (app (after (removeImage i s))) =
     filter (fun img => negb (String.eqb (id img) i)) (State.images (app s))
   /\ revoked (trace (removeImage i s)) =
        flat_map handles
          (filter (fun img => String.eqb (id img) i) (State.images (app s))))
  /\ (State.images (app (after (clearAllImages s))) = []
      /\ revoked (trace (clearAllImages s)) =
           flat_map handles (State.images (app s)))
  /\ (forall image,
        In image (State.images (app s)) ->
        handles image =
          preview image ::
          match convertedUrl image with
          | Some url => [url]
          | None => []
          end).
Proof.
  intros R. destruct (reachable_images s R) as (N & F).
  destruct (distinct_ids_revocations s i N) as (RI & CA).
  split; [exact RI|]. split; [exact CA|].
  intros image H. rewrite handles_count.
  destruct (convertedUrl image) as [url|] eqn:U; [|reflexivity].
  destruct (String.eqb_spec url "") as [E|E]; [|reflexivity].
  exfalso. apply (proj1 (Forall_forall _ _) F image H). congruence.
Qed.

Lemma revoked_handles_witness :
  reachable convertedSys
  /\ revoked (trace (removeImage "uuid-1" convertedSys)) = ["blob:1"]
  /\ revoked (trace (clearAllImages convertedSys)) = ["blob:0"; "blob:2"; "blob:1"].
Proof.
  split; [exact convertedSys_reachable|].
  destruct (revoked_handles convertedSys "uuid-1" convertedSys_reachable)
    as [[_ R] [[_ C] _]].
  split; [exact R | exact C].
Defined.

(** C6. [downloadImage] does nothing for an image whose [convertedUrl]
    is null; in every state the page can reach, [downloadAllImages]
    clicks a download link for exactly the listed images whose
    [convertedUrl] is non-null, in the order of the list, each with
    the converted URL and the current file name of the image, and
    leaves the component state as it was. *)
Theorem download_gated (s : Sys) (image : ImageFile) :
  reachable s ->
  (convertedUrl image = None -> downloadImage image s = (tt, s, []))
  /\ downloads (trace (downloadAllImages s)) =
       flat_map (fun img =>
                   match convertedUrl img with
                   | Some url => [(url, name (file img))]
                   | None => []
                   end) (State.images (app s))
  /\ app (after (downloadAllImages s)) = app s.
Proof.
  intros R. split.
  - intros U. unfold downloadImage. now rewrite U.
  - apply downloadAllImages_downloads. now apply reachable_images.
Qed.

Lemma download_gated_witness :
  reachable convertedSys
  /\ downloadImage photoImage convertedSys = (tt, convertedSys, [])
  /\ downloads (trace (downloadAllImages convertedSys)) = [("blob:2", "photo.png")].
Proof.
  split; [exact convertedSys_reachable|].
  destruct (download_gated convertedSys photoImage convertedSys_reachable)
    as (N & D & _).
  split; [exact (N eq_refl) | exact D].
Defined.

(** * Further properties of the component *)

(** ** What a conversion touches *)

Lemma not_failed_success (p : Platform) :
  ~ Failed p ->
  exists w h blob,
    decoded p = Some (w, h) /\ context2d p = true /\ toBlob p = BlobReady blob.
Proof.
  unfold Failed. intros N.
  destruct (platform_cases p)
    as [D | [(w & h & D & C) | [(w & h & D & C & B)
        | [(w & h & e & D & C & B) | (w & h & blob & D & C & B)]]]];
    try (exfalso; apply N; eauto 6; fail).
  eauto 6.
Qed.

Lemma pipelineEvents_revoked (image : ImageFile) (w h : nat) :
  revoked (pipelineEvents image w h) = [].
Proof.
  unfold pipelineEvents, paintEvents.
  destruct (String.eqb (targetFormat image) "image/jpeg"
            || String.eqb (targetFormat image) "image/bmp"); reflexivity.
Qed.

(** What [convertImage] leaves as it was, and what it adds. *)
Lemma convertImage_frame (p : Platform) (image : ImageFile) (s : Sys) :
  app (after (convertImage p image s)) = app s
  /\ revoked (trace (convertImage p image s)) = []
  /\ (decoded p = None -> after (convertImage p image s) = s)
  /\ (Failed p ->
      blobStore (world (after (convertImage p image s))) = blobStore (world s)
      /\ urls (world (after (convertImage p image s))) = urls (world s))
  /\ (~ Failed p ->
      exists blob,
        toBlob p = BlobReady blob
        /\ blobStore (world (after (convertImage p image s))) =
             (blobUrl (urls (world s)), blob) :: blobStore (world s)
        /\ urls (world (after (convertImage p image s))) = S (urls (world s))).
Proof.
  unfold Failed.
  destruct (platform_cases p)
    as [D | [(w & h & D & C) | [(w & h & D & C & B)
        | [(w & h & e & D & C & B) | (w & h & blob & D & C & B)]]]].
  - rewrite (convertImage_load_error _ image s D). cbn [after trace fst snd].
    repeat split. intros N. exfalso. apply N. now left.
  - rewrite (convertImage_no_context _ image s _ _ D C). cbn [after trace fst snd].
    split; [reflexivity|]. split; [reflexivity|].
    split; [intros X; congruence|].
    split; [intros _; split; reflexivity|].
    intros N. exfalso. apply N. right. now left.
  - rewrite (convertImage_blob_null _ image s _ _ D C B). cbn [after trace fst snd].
    split; [reflexivity|]. split.
    { unfold revoked. rewrite flat_map_app. fold (revoked (pipelineEvents image w h)).
      now rewrite pipelineEvents_revoked. }
    split; [intros X; congruence|].
    split; [intros _; split; reflexivity|].
    intros N. exfalso. apply N. right. right. now left.
  - rewrite (convertImage_blob_throws _ image s _ _ _ D C B).
    cbn [after trace fst snd].
    split; [reflexivity|]. split.
    { unfold revoked. rewrite flat_map_app. fold (revoked (pipelineEvents image w h)).
      now rewrite pipelineEvents_revoked. }
    split; [intros X; congruence|].
    split; [intros _; split; reflexivity|].
    intros N. exfalso. apply N. right. right. right. eauto.
  - rewrite (convertImage_success _ image s _ _ _ D C B).
    cbn [after trace fst snd].
    split; [reflexivity|]. split.
    { unfold revoked. rewrite flat_map_app. fold (revoked (pipelineEvents image w h)).
      now rewrite pipelineEvents_revoked. }
    split; [intros X; congruence|].
    split.
    + intros [X | [X | [X | [e X]]]]; congruence.
    + intros _. exists blob. repeat split. exact B.
Qed.

(** X1. [convertImage] leaves the component state alone and revokes
    no object URL.  A failed conversion leaves the blob URL store as
    it was, and one that fails at the load of the image creates no
    canvas either; a successful one enters exactly one URL, for the
    encoded blob, and that URL is the converted URL of the result. *)
Theorem convertImage_effects (p : Platform) (image : ImageFile) (s : Sys) :
  app (after (convertImage p image s)) = app s
  /\ revoked (trace (convertImage p image s)) = []
  /\ (decoded p = None -> after (convertImage p image s) = s)
  /\ (Failed p ->
      blobStore (world (after (convertImage p image s))) = blobStore (world s)
      /\ urls (world (after (convertImage p image s))) = urls (world s))
  /\ (~ Failed p ->
      exists blob result,
        toBlob p = BlobReady blob
        /\ value (convertImage p image s) = Resolved result
        /\ blobStore (world (after (convertImage p image s))) =
             (blobUrl (urls (world s)), blob) :: blobStore (world s)
        /\ convertedUrl result = Some (blobUrl (urls (world s)))
        /\ urls (world (after (convertImage p image s))) = S (urls (world s))).
Proof.
  destruct (convertImage_frame p image s) as (A & R & D & F & S).
  split; [exact A|]. split; [exact R|]. split; [exact D|]. split; [exact F|].
  intros N. destruct (S N) as (blob & B & St & U).
  destruct (not_failed_success p N) as (w & h & blob' & Dc & C & B').
  rewrite B in B'. injection B' as <-.
  exists blob. eexists.
  split; [exact B|]. split; [|split; [exact St|split; [|exact U]]].
  - rewrite (convertImage_success _ image s _ _ _ Dc C B). reflexivity.
  - reflexivity.
Qed.

(** ** The name of a file converted again *)

Lemma beforeFirst_no_separator (c : ascii) (s : string) :
  occurs c (beforeFirst c s) = false.
Proof.
  induction s as [|a rest IH]; [reflexivity|].
  cbn [beforeFirst]. destruct (Ascii.eqb a c) eqn:E; [reflexivity|].
  cbn [occurs]. now rewrite E, IH.
Qed.

Lemma converted_name_rule (p : Platform) (image : ImageFile) (s : Sys)
    (w h : nat) (blob : Blob) :
  decoded p = Some (w, h) -> context2d p = true -> toBlob p = BlobReady blob ->
  exists result,
    value (convertImage p image s) = Resolved result
    /\ name (file result) =
         String.append (beforeFirst "." (name (file image)))
           (String.append "." (afterLast "/" (targetFormat image))).
Proof.
  intros D C B.
  rewrite (convertImage_success _ image s _ _ _ D C B).
  eexists. split; [reflexivity|].
  cbn [file name convertedFileOf newFile].
  now rewrite extension_afterLast, basename_beforeFirst.
Qed.

(** X2. Converting a converted file again keeps the base name: the
    second name is the portion of the first uploaded name before its
    first ['.'], then ['.'] and the extension of the new target
    format, whatever the first target format was. *)
Theorem reconversion_name (p1 p2 : Platform) (image again : ImageFile)
    (s1 s2 : Sys) (first : ImageFile) :
  ~ Failed p1 ->
  ~ Failed p2 ->
  value (convertImage p1 image s1) = Resolved first ->
  file again = file first ->
  exists second,
    value (convertImage p2 again s2) = Resolved second
    /\ name (file second) =
         String.append (beforeFirst "." (name (file image)))
           (String.append "." (afterLast "/" (targetFormat again))).
Proof.
  intros N1 N2 V F.
  destruct (not_failed_success p1 N1) as (w1 & h1 & b1 & D1 & C1 & B1).
  destruct (not_failed_success p2 N2) as (w2 & h2 & b2 & D2 & C2 & B2).
  destruct (converted_name_rule p1 image s1 w1 h1 b1 D1 C1 B1) as (r1 & V1 & E1).
  destruct (converted_name_rule p2 again s2 w2 h2 b2 D2 C2 B2) as (r2 & V2 & E2).
  rewrite V in V1. injection V1 as <-.
  exists r2. split; [exact V2|].
  rewrite E2, F, E1.
  change (String.append "." (afterLast "/" (targetFormat image)))
    with (String "." (afterLast "/" (targetFormat image))).
  now rewrite beforeFirst_app by apply beforeFirst_no_separator.
Qed.

Lemma working_succeeds : ~ Failed working.
Proof.
  unfold Failed. intros [X | [X | [X | [e X]]]]; discriminate.
Qed.

Lemma reconversion_name_witness :
  ~ Failed working
  /\ value (convertImage working (photoAs "image/jpeg") loadedSys)
     = Resolved photoJpeg
  /\ exists second,
       value (convertImage working photoAgain convertedSys) = Resolved second
       /\ name (file second) = "photo.webp".
Proof.
  split; [exact working_succeeds|]. split; [reflexivity|].
  exact (reconversion_name working working (photoAs "image/jpeg") photoAgain
           loadedSys convertedSys photoJpeg working_succeeds working_succeeds
           eq_refl eq_refl).
Defined.

(** ** The labels of the formats *)

Lemma find_format_absent (format : string) :
  ~ In format formatValues ->
  find (fun f => String.eqb (fst f) format) IMAGE_FORMATS = None.
Proof.
  unfold formatValues. intros N.
  induction IMAGE_FORMATS as [|[v l] rest IH]; [reflexivity|].
  cbn [find fst]. destruct (String.eqb_spec v format) as [E|E].
  - exfalso. apply N. now left.
  - apply IH. intros X. apply N. now right.
Qed.

(** X3. [getFormatExtension] gives the label of the format in lower
    case, and ['unknown'] exactly for the strings that are no format of
    [IMAGE_FORMATS].  The label is the extension [convertImage] gives
    the converted file for every format of the table but
    [image/svg+xml] (['svg'], the file gets ['svg+xml']) and
    [image/x-icon] (['ico'], the file gets ['x-icon']). *)
Theorem getFormatExtension_labels (format : string) :
  (forall label,
     In (format, label) IMAGE_FORMATS ->
     getFormatExtension format = toLowerCase label)
  /\ (getFormatExtension format = "unknown" <-> ~ In format formatValues)
  /\ (In format formatValues ->
      (getFormatExtension format = afterLast "/" format
       <-> format <> "image/svg+xml" /\ format <> "image/x-icon")).
Proof.
  split; [|split].
  - intros label H. cbn in H.
    repeat (destruct H as [H|H]; [injection H as <- <-; reflexivity|]).
    contradiction.
  - split.
    + intros U H. cbn in H.
      repeat (destruct H as [<-|H]; [discriminate U|]).
      contradiction.
    + intros N. unfold getFormatExtension. now rewrite find_format_absent.
  - intros H. cbn in H.
    repeat (destruct H as [<-|H];
            [split;
             [intros E; split; intros X; discriminate
             | intros [X Y]; try reflexivity; congruence]|]).
    contradiction.
Qed.

(** ** The cards of the list *)

Lemma split_second (c : ascii) (s : string) :
  JS.index (JS.split c s) 1 = None <-> occurs c s = false.
Proof.
  unfold JS.index. split.
  - intros H. destruct (occurs c s) eqn:O; [|reflexivity].
    pose proof (split_separator c s O) as L.
    apply nth_error_None in H. lia.
  - intros O. now rewrite (split_no_separator c s O).
Qed.

Lemma image_type_has_slash (t : string) :
  JS.startsWith t "image/" = true -> occurs "/" t = true.
Proof.
  unfold JS.startsWith. intros H.
  do 6 (destruct t as [|? t]; [discriminate H|];
        cbn [String.prefix] in H;
        match type of H with
        | (if ?d then _ else _) = true => destruct d; [subst | discriminate H]
        end).
  reflexivity.
Qed.

(** X4. The badge of a card reads the part of the file type after its
    first ['/'], in upper case; when the type has no ['/'] at all (the
    empty type of a file the browser does not recognise, which the
    file input lets through) the expression calls a method of
    [undefined] and the render throws.  Files dropped on the page have
    passed the [image/] test, and a converted file has its target
    format as type, so their badges never throw. *)
Theorem typeBadge_defined (image : ImageFile) :
  (typeBadge image = None <-> occurs "/" (type (file image)) = false)
  /\ (JS.startsWith (type (file image)) "image/" = true -> typeBadge image <> None)
  /\ (forall p s result,
        In (targetFormat image) formatValues ->
        value (convertImage p image s) = Resolved result ->
        error result = None ->
        typeBadge result = Some (toUpperCase (afterLast "/" (targetFormat image)))).
Proof.
  assert (B : typeBadge image = None <-> occurs "/" (type (file image)) = false).
  { unfold typeBadge. rewrite <- split_second.
    destruct (JS.index (JS.split "/" (type (file image))) 1);
      split; intros H; congruence. }
  split; [exact B|]. split.
  - intros H N. apply B in N. apply image_type_has_slash in H. congruence.
  - intros p s result F V E.
    destruct (platform_cases p)
      as [D | [(w & h & D & C) | [(w & h & D & C & Bl)
          | [(w & h & e & D & C & Bl) | (w & h & blob & D & C & Bl)]]]].
    + rewrite (convertImage_load_error _ image s D) in V.
      injection V as <-. discriminate E.
    + rewrite (convertImage_no_context _ image s _ _ D C) in V.
      injection V as <-. discriminate E.
    + rewrite (convertImage_blob_null _ image s _ _ D C Bl) in V.
      injection V as <-. discriminate E.
    + rewrite (convertImage_blob_throws _ image s _ _ _ D C Bl) in V.
      injection V as <-. discriminate E.
    + rewrite (convertImage_success _ image s _ _ _ D C Bl) in V.
      injection V as <-. unfold typeBadge. cbn [file type convertedFileOf newFile].
      cbn in F.
      repeat (destruct F as [<-|F]; [reflexivity|]). contradiction.
Qed.

Lemma downloads_of_list (s : Sys) :
  downloads (trace (downloadAllImages s)) =
    flat_map (fun img =>
                match convertedUrl img with
                | Some url =>
                    if String.eqb url "" then [] else [(url, name (file img))]
                | None => []
                end) (State.images (app s)).
Proof.
  unfold downloadAllImages, downloads.
  rewrite flat_map_trace_bind.
  cbn [getState trace snd flat_map Datatypes.app value after fst].
  erewrite forEach_reading; [reflexivity|].
  intros x s'. apply download_round.
Qed.

Lemma download_list_shown (s : Sys) :
  showDownloadAll (app s) = true
  <-> downloads (trace (downloadAllImages s)) <> [].
Proof.
  rewrite downloads_of_list. unfold showDownloadAll.
  induction (State.images (app s)) as [|x rest IH]; cbn [existsb flat_map].
  - split; [discriminate | congruence].
  - destruct (convertedUrl x) as [url|]; cbn [JS.truthy orb].
    + destruct (String.eqb url ""); cbn [negb orb Datatypes.app];
        [exact IH | split; [discriminate | reflexivity]].
    + exact IH.
Qed.

(** X5. The download buttons do what they promise: the Download All
    button is rendered exactly when [downloadAllImages] would download
    something, and a card that shows its download button (no error,
    not converting, a converted URL) downloads exactly that URL under
    the current file name of the image. *)
Theorem download_buttons (s : Sys) :
  (showDownloadAll (app s) = true
   <-> downloads (trace (downloadAllImages s)) <> [])
  /\ (forall image label,
        status image = ShowConverted label ->
        exists url,
          convertedUrl image = Some url
          /\ downloads (trace (downloadImage image s)) = [(url, name (file image))]
          /\ JS.truthy (error image) = false
          /\ converting image = false
          /\ label = getFormatExtension (targetFormat image)).
Proof.
  split; [apply download_list_shown|].
  - intros image label H. unfold status in H.
    assert (K : JS.truthy (error image) = false
                /\ (if converting image then ShowConverting
                    else if JS.truthy (convertedUrl image)
                         then ShowConverted (getFormatExtension (targetFormat image))
                         else ShowNothing) = ShowConverted label).
    { destruct (error image) as [m|]; [|split; [reflexivity | exact H]].
      destruct (JS.truthy (Some m)); [discriminate H | split; [reflexivity | exact H]]. }
    destruct K as (KE & K).
    destruct (converting image); [discriminate K|].
    destruct (convertedUrl image) as [url|] eqn:U; [|discriminate K].
    destruct (JS.truthy (Some url)) eqn:T; [|discriminate K].
    injection K as <-. exists url. split; [reflexivity|].
    destruct (downloadImage_calls image s url U T) as (Tr & _).
    rewrite Tr. repeat split. exact KE.
Qed.

(** ** Lists of distinct URLs *)

Lemma NoDup_app_split {A : Type} (l1 l2 : list A) :
  NoDup (l1 ++ l2) <->
  NoDup l1 /\ NoDup l2 /\ (forall x, In x l1 -> ~ In x l2).
Proof.
  split.
  - intros N. split; [now apply NoDup_app_remove_r in N|].
    split; [now apply NoDup_app_remove_l in N|].
    induction l1 as [|a l1 IH]; [intros x []|].
    cbn in N. inversion N as [|? ? NI N']; subst.
    intros x [<-|X] Y.
    + apply NI. apply in_or_app. now right.
    + now apply (IH N' x).
  - intros (N1 & N2 & D). now apply NoDup_app.
Qed.

Lemma map_fixed {A : Type} (g : A -> A) (l : list A) :
  (forall x, In x l -> g x = x) -> map g l = l.
Proof.
  induction l as [|a l IH]; intros H; [reflexivity|].
  cbn. rewrite H by now left. f_equal. apply IH. intros x X. apply H. now right.
Qed.

(** Putting a result in a list of distinct identifiers replaces the
    one entry that has its identifier. *)
Lemma putResult_at (result entry : ImageFile) (done pending : list ImageFile) :
  NoDup (map id (done ++ entry :: pending)) ->
  id entry = id result ->
  putResult result (done ++ entry :: pending) = done ++ result :: pending.
Proof.
  intros N E. unfold putResult.
  rewrite map_app. cbn [map]. rewrite E, String.eqb_refl.
  rewrite map_app in N. cbn [map] in N.
  apply NoDup_app_split in N. destruct N as (_ & N2 & D).
  inversion N2 as [|? ? NI _]; subst.
  f_equal; [|f_equal]; apply map_fixed; intros x X.
  - destruct (String.eqb_spec (id x) (id result)) as [Y|Y]; [|reflexivity].
    exfalso. apply (D (id x)); [now apply in_map|]. left. congruence.
  - destruct (String.eqb_spec (id x) (id result)) as [Y|Y]; [|reflexivity].
    exfalso. apply NI. rewrite E, <- Y. now apply in_map.
Qed.

Lemma heldUrls_app (l1 l2 : list ImageFile) :
  heldUrls (l1 ++ l2) = heldUrls l1 ++ heldUrls l2.
Proof.
  apply flat_map_app.
Qed.

Lemma handles_awaits (entry image : ImageFile) :
  awaits entry image -> handles entry = handles image.
Proof.
  intros (_ & P & C). unfold handles. now rewrite P, C.
Qed.

Lemma handles_in (image : ImageFile) (u : string) :
  In u (handles image) ->
  u = preview image \/ convertedUrl image = Some u.
Proof.
  unfold handles. intros [H|H]; [now left|].
  destruct (convertedUrl image) as [url|]; [|contradiction].
  destruct (JS.truthy (Some url)); [|contradiction].
  destruct H as [<-|[]]. now right.
Qed.

(** The images a [storeOk] state lists hold live URLs. *)
Lemma storeOk_live (s : Sys) (image : ImageFile) :
  storeOk s ->
  Forall (fun img => convertedUrl img <> Some "") (State.images (app s)) ->
  In image (State.images (app s)) ->
  In (preview image) (liveUrls (world s))
  /\ (forall u, convertedUrl image = Some u -> In u (liveUrls (world s))).
Proof.
  intros (_ & L & _) F H.
  assert (K : forall u, In u (handles image) -> In u (liveUrls (world s))).
  { intros u U. apply L. unfold heldUrls. apply in_flat_map. eauto. }
  split; [apply K; now left|].
  intros u U. apply K. unfold handles. rewrite U. right.
  pose proof (proj1 (Forall_forall _ _) F image H) as NE.
  cbn. destruct (String.eqb_spec u ""); [congruence | now left].
Qed.

Lemma blobUrl_fresh (s : Sys) :
  storeOk s -> ~ In (blobUrl (urls (world s))) (liveUrls (world s)).
Proof.
  intros (_ & _ & B) H. destruct (B _ H) as (k & K & E).
  apply blobUrl_inj in E. lia.
Qed.

(** ** One round of the loop and the blob URL store *)

Lemma convertImage_handles (p : Platform) (image : ImageFile) (s : Sys) :
  exists result,
    value (convertImage p image s) = Resolved result
    /\ id result = id image
    /\ ((Failed p
         /\ handles result = handles image
         /\ liveUrls (world (after (convertImage p image s))) = liveUrls (world s)
         /\ urls (world (after (convertImage p image s))) = urls (world s))
        \/ (~ Failed p
            /\ convertedUrl result = Some (blobUrl (urls (world s)))
            /\ handles result = [preview image; blobUrl (urls (world s))]
            /\ liveUrls (world (after (convertImage p image s))) =
                 blobUrl (urls (world s)) :: liveUrls (world s)
            /\ urls (world (after (convertImage p image s))) = S (urls (world s)))).
Proof.
  destruct (convertImage_frame p image s) as (_ & _ & _ & F & S).
  unfold liveUrls.
  destruct (platform_cases p)
    as [D | [(w & h & D & C) | [(w & h & D & C & B)
        | [(w & h & e & D & C & B) | (w & h & blob & D & C & B)]]]].
  - assert (X : Failed p) by now left.
    destruct (F X) as (FS & FU). rewrite FS, FU.
    rewrite (convertImage_load_error _ image s D).
    eexists. split; [reflexivity|]. split; [reflexivity|]. left. now repeat split.
  - assert (X : Failed p) by (right; now left).
    destruct (F X) as (FS & FU). rewrite FS, FU.
    rewrite (convertImage_no_context _ image s _ _ D C).
    eexists. split; [reflexivity|]. split; [reflexivity|]. left. now repeat split.
  - assert (X : Failed p) by (right; right; now left).
    destruct (F X) as (FS & FU). rewrite FS, FU.
    rewrite (convertImage_blob_null _ image s _ _ D C B).
    eexists. split; [reflexivity|]. split; [reflexivity|]. left. now repeat split.
  - assert (X : Failed p) by (right; right; right; eauto).
    destruct (F X) as (FS & FU). rewrite FS, FU.
    rewrite (convertImage_blob_throws _ image s _ _ _ D C B).
    eexists. split; [reflexivity|]. split; [reflexivity|]. left. now repeat split.
  - assert (X : ~ Failed p).
    { unfold Failed. rewrite D, C, B.
      intros [Y | [Y | [Y | [e Y]]]]; discriminate. }
    destruct (S X) as (blob' & _ & SS & SU). rewrite SS, SU.
    rewrite (convertImage_success _ image s _ _ _ D C B).
    eexists. split; [reflexivity|]. split; [reflexivity|]. right.
    split; [exact X|]. split; [reflexivity|]. split; [|split; reflexivity].
    unfold handles. cbn [preview convertedUrl].
    now rewrite (blobUrl_truthy _ (blobUrl_is_blob _)).
Qed.

(** The store stays in order when the entry that stands for an image
    is replaced by the result of converting that image. *)
Lemma round_storeOk (p : Platform) (image entry result : ImageFile)
    (done pending : list ImageFile) (s s2 : Sys) :
  storeOk s ->
  State.images (app s) = done ++ entry :: pending ->
  awaits entry image ->
  value (convertImage p image s) = Resolved result ->
  State.images (app s2) = done ++ result :: pending ->
  world s2 = world (after (convertImage p image s)) ->
  storeOk s2.
Proof.
  intros (N & L & B) I A V I2 W2.
  destruct (convertImage_handles p image s) as (r & V' & _ & H).
  rewrite V in V'. injection V' as <-.
  pose proof (handles_awaits _ _ A) as HA.
  unfold storeOk. rewrite I2, W2.
  rewrite I in N, L.
  rewrite heldUrls_app in *. cbn [heldUrls flat_map] in *.
  fold (heldUrls pending) in *.
  destruct H as [(_ & HR & LU & U) | (_ & _ & HR & LU & U)];
    rewrite HR, LU, U.
  - rewrite <- HA. split; [exact N|]. split; [exact L | exact B].
  - set (u := blobUrl (urls (world s))) in *.
    assert (Fr : ~ In u (liveUrls (world s))).
    { intros X. destruct (B _ X) as (k & K & E). apply blobUrl_inj in E. lia. }
    rewrite HA in N, L. unfold handles in N, L.
    set (old := match convertedUrl image with
                | Some url => if JS.truthy (Some url) then [url] else []
                | None => []
                end) in *.
    apply NoDup_app_split in N. destruct N as (N1 & N23 & D1).
    cbn [Datatypes.app] in N23, D1, L |- *.
    inversion N23 as [|? ? NP N3]; subst.
    apply NoDup_app_split in N3. destruct N3 as (_ & N3 & _).
    split; [|split].
    + apply NoDup_app_split. split; [exact N1|]. split.
      * constructor.
        { intros [X|X].
          - apply Fr. rewrite X. apply L. apply in_or_app. right. now left.
          - apply NP. apply in_or_app. now right. }
        constructor; [|exact N3].
        intros X. apply Fr. apply L. apply in_or_app. right. right.
        apply in_or_app. now right.
      * intros x X [Y|[Y|Y]].
        -- apply (D1 x X). now left.
        -- apply Fr. rewrite Y. apply L. apply in_or_app. now left.
        -- apply (D1 x X). right. apply in_or_app. now right.
    + intros x X. apply in_app_or in X. destruct X as [X|[X|[X|X]]].
      * right. apply L. apply in_or_app. now left.
      * right. apply L. apply in_or_app. right. now left.
      * now left.
      * right. apply L. apply in_or_app. right. right. apply in_or_app. now right.
    + intros x [X|X].
      * exists (urls (world s)). split; [lia | now symmetry].
      * destruct (B _ X) as (k & K & E). exists k. split; [lia | exact E].
Qed.

Lemma convertLoop_step (env : nat -> Platform) (k : nat) (image : ImageFile)
    (rest acc : list ImageFile) (s : Sys) (result : ImageFile) :
  value (convertImage (env k) image s) = Resolved result ->
  after (convertLoop env k (image :: rest) acc s) =
    after (convertLoop env (S k) rest (acc ++ [result])
             (after (setImages (putResult result)
                       (after (convertImage (env k) image s))))).
Proof.
  intros V. cbn [convertLoop]. rewrite after_bind, V, after_bind. reflexivity.
Qed.

Lemma convertLoop_step_trace (env : nat -> Platform) (k : nat) (image : ImageFile)
    (rest acc : list ImageFile) (s : Sys) (result : ImageFile) :
  value (convertImage (env k) image s) = Resolved result ->
  trace (convertLoop env k (image :: rest) acc s) =
    trace (convertImage (env k) image s)
    ++ [EvSetImages
          (putResult result (State.images (app (after (convertImage (env k) image s)))))]
    ++ trace (convertLoop env (S k) rest (acc ++ [result])
                (after (setImages (putResult result)
                          (after (convertImage (env k) image s))))).
Proof.
  intros V. cbn [convertLoop]. rewrite trace_bind, V, trace_bind. reflexivity.
Qed.

Lemma conversions_app (a b : list Event) :
  conversions (a ++ b) = conversions a ++ conversions b.
Proof. apply flat_map_app. Qed.

(** A call of [convertImage] is one conversion, of its image. *)
Lemma convertImage_conversions (p : Platform) (image : ImageFile) (s : Sys) :
  conversions (trace (convertImage p image s)) = [image].
Proof.
  destruct (convertImage_resolves p image s) as (result & work & _ & T & F & _).
  rewrite T.
  change (EvConvertImage image :: work ++ [EvResolve result])
    with ([EvConvertImage image] ++ work ++ [EvResolve result]).
  rewrite !conversions_app, (conversions_work _ F). reflexivity.
Qed.

(** The loop, from a list whose entries [pending] stand for the images
    still to convert: the entries are replaced, in place, by the
    results of the conversions, and the store stays in order.  The
    conversion of the [j]-th image starts in a state [s0] whose list
    has the results of the conversions before it and the entries
    still pending, and its calls are a segment of the trace that comes
    after the calls of the [j] conversions before it. *)
Lemma convertLoop_spec (env : nat -> Platform) (todo : list ImageFile) :
  forall pending done k acc s,
    State.images (app s) = done ++ pending ->
    Forall2 awaits pending todo ->
    NoDup (map id (done ++ pending)) ->
    storeOk s ->
    exists results,
      State.images (app (after (convertLoop env k todo acc s))) = done ++ results
      /\ length results = length todo
      /\ storeOk (after (convertLoop env k todo acc s))
      /\ incl (liveUrls (world s))
           (liveUrls (world (after (convertLoop env k todo acc s))))
      /\ (forall j image,
            nth_error todo j = Some image ->
            exists result s0,
              nth_error results j = Some result
              /\ value (convertImage (env (k + j)) image s0) = Resolved result
              /\ storeOk s0
              /\ incl (liveUrls (world s)) (liveUrls (world s0))
              /\ incl (liveUrls (world (after (convertImage (env (k + j)) image s0))))
                   (liveUrls (world (after (convertLoop env k todo acc s))))
              /\ State.images (app s0)
                 = done ++ firstn j results ++ skipn j pending
              /\ exists pre post,
                   trace (convertLoop env k todo acc s)
                   = pre ++ trace (convertImage (env (k + j)) image s0) ++ post
                   /\ conversions pre = firstn j todo).
Proof.
  induction todo as [|image rest IH]; intros pending done k acc s I A N St.
  - inversion A; subst. exists []. cbn [convertLoop ret after fst snd].
    split; [exact I|]. split; [reflexivity|].
    split; [exact St|]. split; [apply incl_refl|].
    intros j image H. destruct j; discriminate H.
  - inversion A as [|entry ? pending' ? AE AR]; subst.
    destruct (convertImage_handles (env k) image s) as (result & V & IR & H).
    rewrite (convertLoop_step env k image rest acc s result V).
    set (s1 := after (convertImage (env k) image s)) in *.
    set (s2 := after (setImages (putResult result) s1)).
    assert (A1 : app s1 = app s) by apply convertImage_frame.
    assert (EI : id entry = id result) by (destruct AE as (E & _); congruence).
    assert (I2 : State.images (app s2) = done ++ result :: pending').
    { subst s2. rewrite setImages_images, A1, I. now apply putResult_at. }
    assert (S2 : storeOk s2).
    { apply (round_storeOk (env k) image entry result done pending' s s2);
        try assumption. reflexivity. }
    assert (L1 : incl (liveUrls (world s)) (liveUrls (world s1))).
    { destruct H as [(_ & _ & LU & _) | (_ & _ & _ & LU & _)];
        fold s1 in LU; rewrite LU;
        [apply incl_refl | apply incl_tl, incl_refl]. }
    assert (N2 : NoDup (map id ((done ++ [result]) ++ pending'))).
    { rewrite <- app_assoc. cbn [Datatypes.app].
      rewrite map_app in N |- *. cbn [map] in N |- *. now rewrite <- EI. }
    destruct (IH pending' (done ++ [result]) (S k) (acc ++ [result]) s2)
      as (results & IF & LE & SF & LF & PF); try assumption.
    { rewrite I2, <- app_assoc. reflexivity. }
    exists (result :: results).
    split; [rewrite IF, <- app_assoc; reflexivity|].
    split; [cbn [length]; now rewrite LE|].
    split; [exact SF|].
    split; [eapply incl_tran; [exact L1 | exact LF]|].
    intros [|j] img Hj.
    + cbn in Hj. injection Hj as <-. exists result, s.
      rewrite Nat.add_0_r. split; [reflexivity|]. split; [exact V|].
      split; [exact St|]. split; [apply incl_refl|]. split; [exact LF|].
      split; [exact I|].
      exists [], ([EvSetImages (putResult result (State.images (app s1)))]
                  ++ trace (convertLoop env (S k) rest (acc ++ [result]) s2)).
      split; [|reflexivity].
      exact (convertLoop_step_trace env k image rest acc s result V).
    + cbn [nth_error] in Hj.
      destruct (PF j img Hj)
        as (r & s0 & R1 & R2 & R3 & R4 & R5 & R6 & pre & post & R7 & R8).
      exists r, s0. rewrite Nat.add_succ_r. cbn [nth_error].
      split; [exact R1|]. split; [exact R2|]. split; [exact R3|].
      split; [eapply incl_tran; [exact L1 | exact R4]|]. split; [exact R5|].
      split.
      * rewrite R6, <- app_assoc. reflexivity.
      * exists (trace (convertImage (env k) image s)
                ++ [EvSetImages (putResult result (State.images (app s1)))]
                ++ pre), post.
        split.
        -- rewrite (convertLoop_step_trace env k image rest acc s result V).
           fold s1 s2. rewrite R7, <- !app_assoc. reflexivity.
        -- rewrite !conversions_app, convertImage_conversions, R8. reflexivity.
Qed.

Lemma storeOk_same (s s' : Sys) :
  State.images (app s') = State.images (app s) ->
  world s' = world s ->
  storeOk s -> storeOk s'.
Proof.
  unfold storeOk. intros -> ->. tauto.
Qed.

Lemma heldUrls_marked (l : list ImageFile) :
  heldUrls (map markConverting l) = heldUrls l.
Proof.
  unfold heldUrls. rewrite flat_map_concat_map, map_map, <- flat_map_concat_map.
  reflexivity.
Qed.

Lemma marked_awaits (l : list ImageFile) : Forall2 awaits (map markConverting l) l.
Proof.
  induction l as [|x l IH]; cbn [map]; constructor; [|exact IH].
  repeat split.
Qed.

(** The state [convertAllImages] ends in is the one its loop ends in,
    but for [isConverting]. *)
Lemma convertAllImages_after (env : nat -> Platform) (s : Sys) :
  State.images (app s) <> [] ->
  let s2 := after (setImages (map markConverting) (after (setIsConverting true s))) in
  let s3 := after (convertLoop env 0 (State.images (app s)) [] s2) in
  State.images (app (after (convertAllImages env s))) = State.images (app s3)
  /\ world (after (convertAllImages env s)) = world s3.
Proof.
  intros N s2 s3.
  assert (L : Nat.eqb (length (State.images (app s))) 0 = false).
  { destruct (State.images (app s)); [congruence | reflexivity]. }
  destruct (convertLoop_rounds env (State.images (app s)) 0 [] s2)
    as ((results & V) & _).
  unfold convertAllImages.
  rewrite !after_bind. cbn [getState value after fst snd].
  rewrite L, ?after_bind, ?value_bind.
  change (value (convertLoop env 0 (State.images (app s)) [] s2) = Resolved results)
    in V.
  split.
  - match goal with
    | |- State.images (app (after (match ?v with _ => _ end ?x))) = _ =>
        change v with (value (convertLoop env 0 (State.images (app s)) [] s2));
        rewrite V
    end.
    reflexivity.
  - match goal with
    | |- world (after (match ?v with _ => _ end ?x)) = _ =>
        change v with (value (convertLoop env 0 (State.images (app s)) [] s2));
        rewrite V
    end.
    reflexivity.
Qed.

(** The calls of [convertAllImages] are those of its loop, between
    the updates that open and close it. *)
Lemma convertAllImages_trace (env : nat -> Platform) (s : Sys) :
  State.images (app s) <> [] ->
  let s2 := after (setImages (map markConverting) (after (setIsConverting true s))) in
  trace (convertAllImages env s) =
    [EvSetIsConverting true; EvSetImages (map markConverting (State.images (app s)))]
    ++ trace (convertLoop env 0 (State.images (app s)) [] s2)
    ++ [EvSetIsConverting false].
Proof.
  intros N s2.
  assert (L : Nat.eqb (length (State.images (app s))) 0 = false).
  { destruct (State.images (app s)); [congruence | reflexivity]. }
  destruct (convertLoop_rounds env (State.images (app s)) 0 [] s2)
    as ((results & V) & _).
  unfold convertAllImages.
  rewrite trace_bind. cbn [getState value after trace fst snd].
  rewrite L, ?trace_bind, ?after_bind, ?value_bind.
  change (value (convertLoop env 0 (State.images (app s)) [] s2) = Resolved results)
    in V.
  match goal with
  | |- context [trace (match ?v with _ => _ end ?x)] =>
      change v with (value (convertLoop env 0 (State.images (app s)) [] s2));
      rewrite V
  end.
  reflexivity.
Qed.

Lemma convertAllImages_spec (env : nat -> Platform) (s : Sys) :
  State.images (app s) <> [] ->
  NoDup (map id (State.images (app s))) ->
  storeOk s ->
  storeOk (after (convertAllImages env s))
  /\ length (State.images (app (after (convertAllImages env s))))
     = length (State.images (app s))
  /\ incl (liveUrls (world s)) (liveUrls (world (after (convertAllImages env s))))
  /\ (forall j image,
        nth_error (State.images (app s)) j = Some image ->
        exists result s0,
          nth_error (State.images (app (after (convertAllImages env s)))) j
          = Some result
          /\ value (convertImage (env j) image s0) = Resolved result
          /\ storeOk s0
          /\ incl (liveUrls (world s)) (liveUrls (world s0))
          /\ incl (liveUrls (world (after (convertImage (env j) image s0))))
               (liveUrls (world (after (convertAllImages env s))))
          /\ State.images (app s0)
             = firstn j (State.images (app (after (convertAllImages env s))))
               ++ map markConverting (skipn j (State.images (app s)))
          /\ exists pre post,
               trace (convertAllImages env s)
               = pre ++ trace (convertImage (env j) image s0) ++ post
               /\ In (EvSetImages (map markConverting (State.images (app s)))) pre
               /\ conversions pre = firstn j (State.images (app s))).
Proof.
  intros NE N St.
  pose proof (convertAllImages_trace env s NE) as T. cbn zeta in T.
  destruct (convertAllImages_after env s NE) as (I & W).
  set (s2 := after (setImages (map markConverting)
                      (after (setIsConverting true s)))) in *.
  assert (I2 : State.images (app s2) = [] ++ map markConverting (State.images (app s)))
    by reflexivity.
  assert (S2 : storeOk s2).
  { destruct St as (A & B & C). unfold storeOk.
    change (world s2) with (world s).
    rewrite I2. cbn [Datatypes.app]. rewrite heldUrls_marked. tauto. }
  destruct (convertLoop_spec env (State.images (app s))
              (map markConverting (State.images (app s))) [] 0 [] s2 I2
              (marked_awaits _))
    as (results & IF & LE & SF & LF & PF); [|exact S2|].
  { cbn [Datatypes.app]. rewrite map_map. exact N. }
  cbn [Datatypes.app] in IF.
  rewrite I, W. split; [|split; [|split]].
  - eapply storeOk_same; [exact I | exact W | exact SF].
  - rewrite IF. exact LE.
  - exact LF.
  - intros j image H.
    destruct (PF j image H)
      as (r & s0 & R1 & R2 & R3 & R4 & R5 & R6 & pre & post & R7 & R8).
    exists r, s0. cbn [Nat.add] in *. rewrite IF.
    split; [exact R1|]. split; [exact R2|]. split; [exact R3|].
    split; [exact R4|]. split; [exact R5|]. split.
    + rewrite R6. cbn [Datatypes.app]. now rewrite skipn_map.
    + exists ([EvSetIsConverting true;
               EvSetImages (map markConverting (State.images (app s)))] ++ pre),
             (post ++ [EvSetIsConverting false]).
      split; [|split].
      * rewrite T. fold s2. rewrite R7, <- !app_assoc. reflexivity.
      * right. now left.
      * rewrite conversions_app, R8. reflexivity.
Qed.

(** ** The frame of a handler *)

Lemma localTrace_quiet (t : list Event) :
  localTrace t -> networkRequests t = [] /\ storageWrites t = [].
Proof.
  induction 1 as [|e t H _ [IH1 IH2]]; [split; reflexivity|].
  unfold networkRequests, storageWrites in *. cbn [flat_map]. rewrite IH1, IH2.
  destruct e as [| | | | src | | | | | | | | | | | | | | | n | | | | | |];
    cbn in H |- *; try discriminate; try (split; reflexivity).
  - rewrite H. split; reflexivity.
  - destruct n as [|k href download]; [split; reflexivity|].
    rewrite H. split; reflexivity.
Qed.

Lemma keeps_bind {A B : Type} (m : M A) (k : A -> M B) :
  keepsFileInput m -> (forall a, keepsFileInput (k a)) -> keepsFileInput (bind m k).
Proof.
  intros Hm Hk s. rewrite after_bind. now rewrite Hk, Hm.
Qed.

Lemma keeps_forEach {A : Type} (f : A -> M unit) (l : list A) :
  (forall x, keepsFileInput (f x)) -> keepsFileInput (forEach f l).
Proof.
  intros Hf. induction l as [|x rest IH]; cbn [forEach]; [intros s; reflexivity|].
  apply keeps_bind; [apply Hf | intros _; exact IH].
Qed.

Lemma keeps_mapM {A B : Type} (f : A -> M B) (l : list A) :
  (forall x, keepsFileInput (f x)) -> keepsFileInput (mapM f l).
Proof.
  intros Hf. induction l as [|x rest IH]; cbn [mapM]; [intros s; reflexivity|].
  apply keeps_bind; [apply Hf | intros y].
  apply keeps_bind; [exact IH | intros ys s; reflexivity].
Qed.

Lemma keeps_setImagesWith (f : list ImageFile -> M (list ImageFile)) :
  (forall prev, keepsFileInput (f prev)) -> keepsFileInput (setImagesWith f).
Proof.
  intros H s. exact (H (State.images (app s)) s).
Qed.

Lemma keeps_revokeImage (image : ImageFile) : keepsFileInput (revokeImage image).
Proof.
  unfold revokeImage. apply keeps_bind; [intros s; reflexivity | intros _].
  destruct (convertedUrl image) as [url|]; [|intros s; reflexivity].
  destruct (JS.truthy (Some url)); intros s; reflexivity.
Qed.

Lemma keeps_removeImage (i : string) : keepsFileInput (removeImage i).
Proof.
  unfold removeImage. apply keeps_setImagesWith. intros prev. cbv zeta.
  apply keeps_bind; [|intros _ s; reflexivity].
  destruct (find _ prev); [apply keeps_revokeImage | intros s; reflexivity].
Qed.

Lemma keeps_convertImage (p : Platform) (image : ImageFile) :
  keepsFileInput (convertImage p image).
Proof.
  intros s.
  destruct (platform_cases p)
    as [D | [(w & h & D & C) | [(w & h & D & C & B)
        | [(w & h & e & D & C & B) | (w & h & blob & D & C & B)]]]].
  - now rewrite (convertImage_load_error _ image s D).
  - now rewrite (convertImage_no_context _ image s _ _ D C).
  - now rewrite (convertImage_blob_null _ image s _ _ D C B).
  - now rewrite (convertImage_blob_throws _ image s _ _ _ D C B).
  - now rewrite (convertImage_success _ image s _ _ _ D C B).
Qed.

Lemma keeps_convertLoop (env : nat -> Platform) (todo : list ImageFile) :
  forall k acc, keepsFileInput (convertLoop env k todo acc).
Proof.
  induction todo as [|image rest IH]; intros k acc s; [reflexivity|].
  destruct (convertImage_handles (env k) image s) as (result & V & _).
  rewrite (convertLoop_step env k image rest acc s result V), IH.
  exact (keeps_convertImage (env k) image s).
Qed.

Lemma keeps_convertAllImages (env : nat -> Platform) :
  keepsFileInput (convertAllImages env).
Proof.
  intros s. destruct (State.images (app s)) as [|x rest] eqn:E.
  - now rewrite (convertAllImages_empty env s E).
  - destruct (convertAllImages_after env s) as (_ & W); [rewrite E; discriminate|].
    rewrite W. now rewrite keeps_convertLoop.
Qed.

Lemma keeps_downloadImage (image : ImageFile) : keepsFileInput (downloadImage image).
Proof.
  unfold downloadImage. destruct (convertedUrl image) as [url|];
    [|intros s; reflexivity].
  destruct (JS.truthy (Some url)); intros s; reflexivity.
Qed.

Lemma keeps_handleDrop (files : option (list File)) :
  keepsFileInput (handleDrop files).
Proof.
  unfold handleDrop.
  apply keeps_bind; [intros s; reflexivity | intros st].
  apply keeps_bind; [intros s; reflexivity | intros _].
  apply keeps_bind; [intros s; reflexivity | intros _].
  destruct files as [fs|]; [|intros s; reflexivity].
  destruct (Nat.eqb (length fs) 0); [intros s; reflexivity|]. cbv zeta.
  destruct (Nat.eqb (length (filter _ fs)) 0); [intros s; reflexivity|].
  apply keeps_bind; [|intros newFiles s; reflexivity].
  apply keeps_mapM. intros f s. reflexivity.
Qed.

Lemma resetFileInput_value (s : Sys) :
  fileInput (world (after (resetFileInput s))) = resetValue (fileInput (world s)).
Proof.
  unfold resetFileInput. cbv zeta.
  destruct (fileInput (world s)) eqn:E; [reflexivity | exact E].
Qed.

(** [handleFileSelect] empties the value of the file input when it
    adds files, and no other handler touches it. *)
Lemma run_fileInput (a : Action) (s : Sys) :
  fileInput (world (after (run a s))) =
    match a with
    | FileSelect (Some (_ :: _)) => resetValue (fileInput (world s))
    | _ => fileInput (world s)
    end.
Proof.
  destruct a as [files | | files | i | env | image | | | | | format | i format |];
    cbn [run]; try reflexivity.
  - destruct files as [[|f rest]|]; try reflexivity.
    unfold handleFileSelect. cbn [length Nat.eqb]. rewrite !after_bind.
    cbn [getState value after fst snd].
    rewrite resetFileInput_value. f_equal.
    apply (keeps_mapM (newImageFile (State.targetFormat (app s))) (f :: rest)).
    intros x s0. reflexivity.
  - apply keeps_handleDrop.
  - apply keeps_removeImage.
  - apply (keeps_bind (convertAllImages env) (fun _ => ret tt));
      [apply keeps_convertAllImages | intros _ s0; reflexivity].
  - apply keeps_downloadImage.
  - unfold downloadAllImages.
    apply keeps_bind; [intros s0; reflexivity | intros st].
    apply keeps_forEach. intros image.
    destruct (JS.truthy (convertedUrl image));
      [apply keeps_downloadImage | intros s0; reflexivity].
  - unfold clearAllImages.
    apply keeps_bind; [intros s0; reflexivity | intros st].
    apply keeps_bind; [|intros _ s0; reflexivity].
    apply keeps_forEach. apply keeps_revokeImage.
Qed.

Lemma pickedSys_invariant : invariant pickedSys.
Proof.
  repeat split; repeat constructor.
Qed.

(** C7.  From any state in which the URLs of the
    images are [blob:] URLs, the identifiers are distinct and the
    children of [document.body] are known elements (the states the
    page can reach are such states), a handler sends nothing over the
    network and writes to no storage: it makes no call of [fetch] or
    of a storage, and every URL it loads into an image element or
    follows for a download is a [blob:] URL of the local store.  Of
    the page outside the component state and the blob URL store, the
    children of [document.body] are afterwards what they were, the
    anchor of a download being removed again, and the value of the
    file input is what it was but after [handleFileSelect] added
    files, which empties it.  The state it leaves is such a state
    again, and one the page can reach when the first is. *)
Theorem effects_confined (s : Sys) (a : Action) :
  invariant s ->
  offered a s ->
  networkRequests (trace (run a s)) = []
  /\ storageWrites (trace (run a s)) = []
  /\ (forall url, ~ In (EvFetch url) (trace (run a s)))
  /\ (forall key value, ~ In (EvStorageSetItem key value) (trace (run a s)))
  /\ (forall src, In (EvImageSrc src) (trace (run a s)) -> isBlobUrl src = true)
  /\ (forall k href download,
        In (EvClick (Anchor k href download)) (trace (run a s)) ->
        isBlobUrl href = true)
  /\ body (world (after (run a s))) = body (world s)
  /\ fileInput (world (after (run a s))) =
       match a with
       | FileSelect (Some (_ :: _)) => resetValue (fileInput (world s))
       | _ => fileInput (world s)
       end
  /\ Forall urlsOk (State.images (app (after (run a s))))
  /\ invariant (after (run a s))
  /\ (reachable s -> reachable (after (run a s))).
Proof.
  intros Inv O.
  destruct (run_confined a s Inv O) as (IA & L & B).
  destruct (localTrace_quiet _ L) as (Q1 & Q2).
  unfold localTrace in L. rewrite Forall_forall in L.
  split; [exact Q1|]. split; [exact Q2|].
  split; [intros url H; specialize (L _ H); discriminate L|].
  split; [intros key value H; specialize (L _ H); discriminate L|].
  split; [intros src H; exact (L _ H)|].
  split; [intros k href download H; exact (L _ H)|].
  split; [exact B|]. split; [apply run_fileInput|].
  split; [|split; [exact IA | intros R; now apply reachable_step]].
  destruct IA as (IO & _).
  eapply Forall_impl; [|exact IO]. intros img H. apply H.
Qed.

Lemma effects_confined_witness :
  invariant pickedSys
  /\ offered (FileSelect (Some [photo])) pickedSys
  /\ networkRequests (trace (run (FileSelect (Some [photo])) pickedSys)) = []
  /\ storageWrites (trace (run (FileSelect (Some [photo])) pickedSys)) = []
  /\ body (world (after (run (FileSelect (Some [photo])) pickedSys)))
     = body (world pickedSys).
Proof.
  split; [exact pickedSys_invariant|]. split; [exact I|].
  destruct (effects_confined pickedSys (FileSelect (Some [photo]))
              pickedSys_invariant I)
    as (Q1 & Q2 & _ & _ & _ & _ & B & _).
  split; [exact Q1|]. split; [exact Q2 | exact B].
Defined.

(** C7, as stated, fails: besides the component state, the object
    URLs and the anchor of a download, [handleFileSelect] writes the
    value of the file input, which goes from the path of the chosen
    file to the empty string. *)
Lemma file_input_counterexample :
  invariant pickedSys
  /\ offered (FileSelect (Some [photo])) pickedSys
  /\ fileInput (world pickedSys) = Some "C:\fakepath\photo.final.png"
  /\ fileInput (world (after (run (FileSelect (Some [photo])) pickedSys)))
     = Some EmptyString
  /\ In EvResetFileInput (trace (run (FileSelect (Some [photo])) pickedSys))
  /\ ~ pageUntouched pickedSys (after (run (FileSelect (Some [photo])) pickedSys)).
Proof.
  split; [exact pickedSys_invariant|]. split; [exact I|].
  split; [reflexivity|]. split; [reflexivity|]. split.
  - vm_compute. tauto.
  - intros (_ & E). vm_compute in E. discriminate E.
Qed.

(** ** The blob URL store under the other handlers *)

Lemma revokeObjectURL_live (url : string) (s : Sys) (u : string) :
  In u (liveUrls (world (after (revokeObjectURL url s))))
  <-> In u (liveUrls (world s)) /\ u <> url.
Proof.
  unfold liveUrls, revokeObjectURL. cbn [after fst snd world blobStore].
  induction (blobStore (world s)) as [|[k b] rest IH]; cbn [filter map fst].
  - cbn. tauto.
  - destruct (String.eqb_spec k url) as [E|E]; cbn [negb map fst In].
    + rewrite IH. subst k. split; [tauto|]. intros [[X|X] Y]; [congruence | tauto].
    + rewrite IH. split; [|tauto].
      intros [X|X]; [|tauto]. subst u. tauto.
Qed.

Lemma revokeImage_live (image : ImageFile) (s : Sys) (u : string) :
  In u (liveUrls (world (after (revokeImage image s))))
  <-> In u (liveUrls (world s)) /\ ~ In u (handles image).
Proof.
  unfold revokeImage, handles. rewrite after_bind.
  destruct (convertedUrl image) as [url|].
  - destruct (JS.truthy (Some url)).
    + rewrite revokeObjectURL_live, revokeObjectURL_live. cbn [In].
      split; [intros ((A & B) & C); split; [exact A|]; intros [X|[X|[]]]; congruence|].
      intros (A & B). repeat split; [exact A | |]; intros X; apply B; auto.
    + cbn [ret after fst snd]. rewrite revokeObjectURL_live. cbn [In].
      split; [intros (A & B); split; [exact A|]; intros [X|[]]; congruence|].
      intros (A & B). split; [exact A|]. intros X. apply B. auto.
  - cbn [ret after fst snd]. rewrite revokeObjectURL_live. cbn [In].
    split; [intros (A & B); split; [exact A|]; intros [X|[]]; congruence|].
    intros (A & B). split; [exact A|]. intros X. apply B. auto.
Qed.

Lemma revokeImage_urls (image : ImageFile) (s : Sys) :
  urls (world (after (revokeImage image s))) = urls (world s).
Proof.
  unfold revokeImage.
  destruct (convertedUrl image) as [url|]; [destruct (JS.truthy (Some url))|];
    reflexivity.
Qed.

Lemma forEach_revokeImage_live (l : list ImageFile) :
  forall s u,
    In u (liveUrls (world (after (forEach revokeImage l s))))
    <-> In u (liveUrls (world s)) /\ ~ In u (heldUrls l).
Proof.
  induction l as [|x rest IH]; intros s u.
  - cbn. tauto.
  - cbn [forEach]. rewrite after_bind, IH, revokeImage_live.
    unfold heldUrls. cbn [flat_map]. rewrite in_app_iff. tauto.
Qed.

Lemma forEach_revokeImage_urls (l : list ImageFile) :
  forall s, urls (world (after (forEach revokeImage l s))) = urls (world s).
Proof.
  induction l as [|x rest IH]; intros s; [reflexivity|].
  cbn [forEach]. rewrite after_bind, IH. apply revokeImage_urls.
Qed.

(** What [removeImage] does to the store. *)
Lemma removeImage_live (i : string) (s : Sys) (u : string) :
  In u (liveUrls (world (after (removeImage i s))))
  <-> In u (liveUrls (world s))
      /\ ~ In u match find (fun img => String.eqb (id img) i)
                        (State.images (app s)) with
                | Some image => handles image
                | None => []
                end.
Proof.
  unfold removeImage, setImagesWith. cbn [after fst snd world].
  rewrite after_bind. cbn [ret after fst snd].
  destruct (find _ _) as [image|].
  - apply revokeImage_live.
  - cbn. tauto.
Qed.

Lemma removeImage_urls (i : string) (s : Sys) :
  urls (world (after (removeImage i s))) = urls (world s).
Proof.
  unfold removeImage, setImagesWith. cbn [after fst snd world].
  rewrite after_bind. cbn [ret after fst snd].
  destruct (find _ _) as [image|]; [apply revokeImage_urls | reflexivity].
Qed.

Lemma NoDup_flat_map_filter {A B : Type} (f : A -> list B) (g : A -> bool)
    (l : list A) :
  NoDup (flat_map f l) -> NoDup (flat_map f (filter g l)).
Proof.
  induction l as [|a l IH]; cbn [flat_map filter]; intros N; [constructor|].
  apply NoDup_app_split in N. destruct N as (N1 & N2 & D).
  destruct (g a); [|now apply IH].
  cbn [flat_map]. apply NoDup_app_split.
  split; [exact N1|]. split; [now apply IH|].
  intros x X Y. apply (D x X).
  apply in_flat_map in Y. destruct Y as (y & Y1 & Y2).
  apply in_flat_map. exists y. apply filter_In in Y1. tauto.
Qed.

(** In a list whose images hold distinct URLs, a URL tells its image. *)
Lemma heldUrls_owner (l : list ImageFile) (x y : ImageFile) (u : string) :
  NoDup (heldUrls l) ->
  In x l -> In y l -> In u (handles x) -> In u (handles y) -> x = y.
Proof.
  unfold heldUrls.
  induction l as [|a l IH]; cbn [flat_map]; intros N X Y UX UY; [destruct X|].
  apply NoDup_app_split in N. destruct N as (_ & N2 & D).
  assert (K : forall z, In z l -> In u (handles z) -> In u (flat_map handles l)).
  { intros z Z UZ. apply in_flat_map. eauto. }
  destruct X as [<-|X], Y as [<-|Y]; try reflexivity.
  - exfalso. exact (D u UX (K y Y UY)).
  - exfalso. exact (D u UY (K x X UX)).
  - now apply IH.
Qed.

Lemma removeImage_storeOk (i : string) (s : Sys) :
  storeOk s -> storeOk (after (removeImage i s)).
Proof.
  intros (N & L & B).
  destruct (removeImage_effect i s) as (E & _).
  unfold storeOk. rewrite E. split; [|split].
  - now apply NoDup_flat_map_filter.
  - intros u U. apply removeImage_live.
    unfold heldUrls in U. apply in_flat_map in U. destruct U as (x & X & UX).
    apply filter_In in X. destruct X as (X & NI).
    assert (H : In u (heldUrls (State.images (app s)))).
    { apply in_flat_map. eauto. }
    split; [now apply L|].
    destruct (find _ _) as [image|] eqn:F; [|tauto].
    apply find_some in F. destruct F as (FI & FE).
    intros UY.
    assert (EQ : x = image) by now apply (heldUrls_owner _ x image u N).
    subst x. rewrite FE in NI. discriminate NI.
  - intros u U. apply removeImage_live in U. rewrite removeImage_urls.
    apply B. tauto.
Qed.

Lemma clearAllImages_storeOk (s : Sys) :
  storeOk s -> storeOk (after (clearAllImages s)).
Proof.
  intros (N & L & B). unfold storeOk.
  rewrite (proj1 (clearAllImages_effect s)).
  split; [constructor|]. split; [intros u []|].
  intros u U. unfold clearAllImages in U |- *.
  rewrite !after_bind in U |- *. cbn [getState value after fst snd] in U |- *.
  change (world (after (setImages ?f ?x))) with (world x) in U |- *.
  apply forEach_revokeImage_live in U. rewrite forEach_revokeImage_urls.
  apply B. tauto.
Qed.

Lemma mapM_newImageFile_store (format : string) (fs : list File) :
  forall s,
    map preview (value (mapM (newImageFile format) fs s))
    = map blobUrl (seq (urls (world s)) (length fs))
    /\ urls (world (after (mapM (newImageFile format) fs s)))
       = urls (world s) + length fs
    /\ incl (blobStore (world s))
         (blobStore (world (after (mapM (newImageFile format) fs s))))
    /\ (forall u,
          In u (liveUrls (world (after (mapM (newImageFile format) fs s))))
          <-> In u (liveUrls (world s))
              \/ In u (map preview (value (mapM (newImageFile format) fs s))))
    /\ Forall (fun img =>
                 In (preview img, blob_of_file (file img))
                   (blobStore (world (after (mapM (newImageFile format) fs s))))
                 /\ converting img = false)
         (value (mapM (newImageFile format) fs s)).
Proof.
  induction fs as [|f rest IH]; intros s.
  - cbn. rewrite Nat.add_0_r.
    repeat split; try constructor; try tauto. apply incl_refl.
  - cbn [mapM].
    rewrite ?value_bind, ?after_bind.
    destruct (IH (after (newImageFile format f s))) as (P & U & I & L & F).
    cbn [ret value after fst snd].
    set (s1 := after (newImageFile format f s)) in *.
    assert (S1 : blobStore (world s1)
                 = (blobUrl (urls (world s)), blob_of_file f) :: blobStore (world s))
      by reflexivity.
    assert (U1 : urls (world s1) = S (urls (world s))) by reflexivity.
    split; [|split; [|split; [|split]]].
    + cbn [map length seq]. rewrite P, U1. reflexivity.
    + rewrite U, U1. cbn [length]. lia.
    + eapply incl_tran; [|exact I]. rewrite S1. apply incl_tl, incl_refl.
    + intros u. rewrite L. unfold liveUrls at 1. rewrite S1.
      cbn [map fst In preview value newImageFile]. fold (liveUrls (world s)).
      change (preview (value (newImageFile format f s)))
        with (blobUrl (urls (world s))).
      tauto.
    + constructor; [|exact F].
      split; [|reflexivity]. apply I. rewrite S1. now left.
Qed.

Lemma heldUrls_unconverted (l : list ImageFile) :
  Forall (fun img => convertedUrl img = None) l ->
  heldUrls l = map preview l.
Proof.
  induction 1 as [|x l H _ IH]; [reflexivity|].
  unfold heldUrls in *. cbn [flat_map map]. rewrite IH.
  unfold handles. now rewrite H.
Qed.

Lemma appended_storeOk (s s' : Sys) (newFiles : list ImageFile) (n : nat) :
  storeOk s ->
  State.images (app s') = State.images (app s) ++ newFiles ->
  Forall (fun img => convertedUrl img = None) newFiles ->
  map preview newFiles = map blobUrl (seq (urls (world s)) n) ->
  urls (world s') = urls (world s) + n ->
  (forall u, In u (liveUrls (world s'))
             <-> In u (liveUrls (world s)) \/ In u (map preview newFiles)) ->
  storeOk s'.
Proof.
  intros (N & L & B) I C P U LV.
  unfold storeOk. rewrite I, heldUrls_app, (heldUrls_unconverted _ C), P.
  rewrite P in LV.
  split; [|split].
  - apply NoDup_app_split. split; [exact N|]. split.
    + apply NoDup_map_injective; [apply blobUrl_inj | apply seq_NoDup].
    + intros u X Y. apply L in X. destruct (B _ X) as (k & K & ->).
      apply in_map_iff in Y. destruct Y as (j & J & JS).
      apply blobUrl_inj in J. apply in_seq in JS. lia.
  - intros u X. apply LV. apply in_app_or in X.
    destruct X as [X|X]; [left; now apply L | now right].
  - intros u X. apply LV in X. destruct X as [X|X].
    + destruct (B _ X) as (k & K & E). exists k. split; [lia | exact E].
    + apply in_map_iff in X. destruct X as (j & J & JS).
      apply in_seq in JS. exists j. split; [lia | now symmetry].
Qed.

Lemma resetFileInput_store (s : Sys) :
  blobStore (world (after (resetFileInput s))) = blobStore (world s)
  /\ urls (world (after (resetFileInput s))) = urls (world s).
Proof.
  unfold resetFileInput. destruct (fileInput (world s)); split; reflexivity.
Qed.

Lemma handleFileSelect_run (fs : list File) (s : Sys) :
  fs <> [] ->
  let r := mapM (newImageFile (State.targetFormat (app s))) fs s in
  State.images (app (after (handleFileSelect (Some fs) s)))
  = State.images (app s) ++ value r
  /\ blobStore (world (after (handleFileSelect (Some fs) s)))
     = blobStore (world (after r))
  /\ urls (world (after (handleFileSelect (Some fs) s))) = urls (world (after r)).
Proof.
  intros N r. split; [now apply handleFileSelect_images|].
  unfold handleFileSelect. destruct fs as [|f rest]; [congruence|].
  cbn [length Nat.eqb]. rewrite !after_bind.
  cbn [getState value after fst snd].
  match goal with
  | |- context [resetFileInput ?x] =>
      destruct (resetFileInput_store x) as (A & B); rewrite A, B
  end.
  split; reflexivity.
Qed.

Lemma added_unconverted (format : string) (fs : list File) (s : Sys) :
  Forall (fun img => convertedUrl img = None)
    (value (mapM (newImageFile format) fs s)).
Proof.
  destruct (mapM_newImageFile format fs s) as (_ & T & _).
  eapply Forall_impl; [|exact T]. cbn. tauto.
Qed.

Lemma handleFileSelect_storeOk (files : option (list File)) (s : Sys) :
  storeOk s -> storeOk (after (handleFileSelect files s)).
Proof.
  intros St. destruct files as [[|f rest]|]; try exact St.
  set (fs := f :: rest).
  destruct (handleFileSelect_run fs s ltac:(discriminate)) as (I & BS & U).
  destruct (mapM_newImageFile_store (State.targetFormat (app s)) fs s)
    as (P & UU & _ & L & _).
  eapply appended_storeOk;
    [exact St | exact I | apply added_unconverted | exact P | |].
  - rewrite U. exact UU.
  - intros u. unfold liveUrls at 1. rewrite BS. apply L.
Qed.

Lemma handleDrop_storeOk (files : option (list File)) (s : Sys) :
  storeOk s -> storeOk (after (handleDrop files s)).
Proof.
  intros St. destruct files as [fs|]; [|exact St].
  destruct (filter (fun f => JS.startsWith (type f) "image/") fs)
    as [|f rest] eqn:F.
  { unfold handleDrop. destruct fs as [|f0 rest0]; [exact St|].
    cbn [length Nat.eqb]. rewrite F. exact St. }
  assert (NE : filter (fun f => JS.startsWith (type f) "image/") fs <> [])
    by (rewrite F; discriminate).
  pose proof (handleDrop_images fs s NE) as I.
  destruct (handleDrop_run fs s NE) as (_ & W).
  destruct (mapM_newImageFile_store (State.targetFormat (app s))
              (filter (fun f => JS.startsWith (type f) "image/") fs) s)
    as (P & UU & _ & L & _).
  eapply appended_storeOk;
    [exact St | exact I | apply added_unconverted | exact P | |].
  - rewrite W. exact UU.
  - intros u. rewrite W. apply L.
Qed.

Lemma downloadImage_store (image : ImageFile) (s : Sys) :
  blobStore (world (after (downloadImage image s))) = blobStore (world s)
  /\ urls (world (after (downloadImage image s))) = urls (world s).
Proof.
  unfold downloadImage.
  destruct (convertedUrl image) as [url|]; [|split; reflexivity].
  destruct (negb (JS.truthy (Some url))); split; reflexivity.
Qed.

Lemma downloadAllImages_store (s : Sys) :
  blobStore (world (after (downloadAllImages s))) = blobStore (world s)
  /\ urls (world (after (downloadAllImages s))) = urls (world s).
Proof.
  unfold downloadAllImages. rewrite after_bind.
  cbn [getState value after fst snd].
  generalize (State.images (app s)) as l. intros l. revert s.
  induction l as [|x rest IH]; intros s; [split; reflexivity|].
  cbn [forEach]. rewrite after_bind.
  destruct (IH (after ((if JS.truthy (convertedUrl x) then downloadImage x
                        else ret tt) s))) as (A & B).
  rewrite A, B.
  destruct (JS.truthy (convertedUrl x)); [apply downloadImage_store|].
  split; reflexivity.
Qed.

(** Dropping URLs from the images of a list keeps the rest distinct. *)
Lemma heldUrls_shrink (g : ImageFile -> ImageFile) (l : list ImageFile) :
  (forall x, exists tail, handles x = handles (g x) ++ tail) ->
  NoDup (heldUrls l) ->
  NoDup (heldUrls (map g l)) /\ incl (heldUrls (map g l)) (heldUrls l).
Proof.
  intros H. unfold heldUrls.
  induction l as [|a l IH]; cbn [map flat_map]; intros N.
  - split; [constructor | apply incl_refl].
  - apply NoDup_app_split in N. destruct N as (N1 & N2 & D).
    destruct (IH N2) as (IN & II). destruct (H a) as (tail & E).
    assert (IA : incl (handles (g a)) (handles a)).
    { rewrite E. apply incl_appl, incl_refl. }
    split.
    + apply NoDup_app_split. split; [|split; [exact IN|]].
      * rewrite E in N1. now apply NoDup_app_remove_r in N1.
      * intros x X Y. apply (D x); [now apply IA | now apply II].
    + apply incl_app; [apply incl_appl; exact IA | apply incl_appr; exact II].
Qed.

Lemma mapped_storeOk (g : ImageFile -> ImageFile) (s : Sys) :
  (forall x, exists tail, handles x = handles (g x) ++ tail) ->
  storeOk s -> storeOk (after (setImages (map g) s)).
Proof.
  intros H (N & L & B).
  destruct (heldUrls_shrink g (State.images (app s)) H N) as (N' & I').
  unfold storeOk. rewrite setImages_images.
  change (world (after (setImages (map g) s))) with (world s).
  split; [exact N'|]. split; [|exact B].
  intros u U. apply L. now apply I'.
Qed.

Lemma reset_handles (x : ImageFile) (format : string) :
  exists tail,
    handles x =
    handles (mkImageFile (id x) (file x) (preview x) None (converting x) None format)
    ++ tail.
Proof.
  unfold handles. cbn [preview convertedUrl Datatypes.app]. eauto.
Qed.

Lemma updateImageTargetFormat_storeOk (i format : string) (s : Sys) :
  storeOk s -> storeOk (after (updateImageTargetFormat i format s)).
Proof.
  apply (mapped_storeOk
           (fun img => if String.eqb (id img) i
                       then mkImageFile (id img) (file img) (preview img) None
                              (converting img) None format
                       else img)).
  intros x. destruct (String.eqb (id x) i); [apply reset_handles|].
  exists []. now rewrite app_nil_r.
Qed.

Lemma applyGlobalFormatToAll_storeOk (s : Sys) :
  storeOk s -> storeOk (after (applyGlobalFormatToAll s)).
Proof.
  apply (mapped_storeOk
           (fun img => mkImageFile (id img) (file img) (preview img) None
                         (converting img) None (State.targetFormat (app s)))).
  intros x. apply reset_handles.
Qed.

Lemma convertAllImages_storeOk (env : nat -> Platform) (s : Sys) :
  NoDup (map id (State.images (app s))) ->
  storeOk s -> storeOk (after (convertAllImages env s)).
Proof.
  intros N St.
  destruct (State.images (app s)) as [|x rest] eqn:E.
  - now rewrite (convertAllImages_empty env s E).
  - apply convertAllImages_spec; [rewrite E; discriminate | now rewrite E | exact St].
Qed.

Lemma storeOk_frame (s s' : Sys) :
  State.images (app s') = State.images (app s) ->
  blobStore (world s') = blobStore (world s) ->
  urls (world s') = urls (world s) ->
  storeOk s -> storeOk s'.
Proof.
  unfold storeOk, liveUrls. intros -> -> ->. tauto.
Qed.

Lemma run_storeOk (a : Action) (s : Sys) :
  invariant s -> storeOk s -> storeOk (after (run a s)).
Proof.
  intros (_ & N & _) St. destruct a; cbn [run].
  - now apply handleFileSelect_storeOk.
  - exact St.
  - now apply handleDrop_storeOk.
  - now apply removeImage_storeOk.
  - rewrite after_bind. cbn [ret after fst snd].
    now apply convertAllImages_storeOk.
  - destruct (downloadImage_store image s) as (A & B).
    apply (storeOk_frame s); [now rewrite downloadImage_app | exact A | exact B
                             | exact St].
  - destruct (downloadAllImages_store s) as (A & B).
    apply (storeOk_frame s); [|exact A | exact B | exact St].
    unfold downloadAllImages. rewrite after_bind.
    cbn [getState value after fst snd].
    rewrite forEach_app_unchanged; [reflexivity|].
    intros x s'. destruct (JS.truthy (convertedUrl x));
      [apply downloadImage_app | reflexivity].
  - now apply clearAllImages_storeOk.
  - exact St.
  - exact St.
  - exact St.
  - now apply updateImageTargetFormat_storeOk.
  - now apply applyGlobalFormatToAll_storeOk.
Qed.

Lemma reachable_storeOk (s : Sys) : reachable s -> storeOk s.
Proof.
  induction 1 as [|a s R IH O].
  - repeat split; [constructor | intros u [] | intros u []].
  - apply run_storeOk; [now apply reachable_invariant | exact IH].
Qed.

(** ** The settings of the reachable states *)

(** The fields of the result of a conversion. *)
Lemma convertImage_fields (p : Platform) (image : ImageFile) (s : Sys)
    (result : ImageFile) :
  value (convertImage p image s) = Resolved result ->
  id result = id image
  /\ preview result = preview image
  /\ targetFormat result = targetFormat image
  /\ converting result = false
  /\ (error result <> None <-> Failed p)
  /\ (Failed p ->
      file result = file image /\ convertedUrl result = convertedUrl image)
  /\ (~ Failed p ->
      convertedUrl result = Some (blobUrl (urls (world s)))
      /\ type (file result) = normalizeType (targetFormat image)).
Proof.
  intros V.
  assert (FailCase : forall message,
            Failed p -> result = failedWith image message ->
            id result = id image
            /\ preview result = preview image
            /\ targetFormat result = targetFormat image
            /\ converting result = false
            /\ (error result <> None <-> Failed p)
            /\ (Failed p ->
                file result = file image
                /\ convertedUrl result = convertedUrl image)
            /\ (~ Failed p ->
                convertedUrl result = Some (blobUrl (urls (world s)))
                /\ type (file result) = normalizeType (targetFormat image))).
  { intros message X ->. cbn.
    split; [reflexivity|]. split; [reflexivity|]. split; [reflexivity|].
    split; [reflexivity|]. split; [split; [tauto | discriminate]|].
    split; [tauto | intros N; contradiction]. }
  destruct (platform_cases p)
    as [D | [(w & h & D & C) | [(w & h & D & C & B)
        | [(w & h & e & D & C & B) | (w & h & blob & D & C & B)]]]].
  - rewrite (convertImage_load_error _ image s D) in V. injection V as <-.
    eapply FailCase; [|reflexivity]. now left.
  - rewrite (convertImage_no_context _ image s _ _ D C) in V. injection V as <-.
    eapply FailCase; [|reflexivity]. right. now left.
  - rewrite (convertImage_blob_null _ image s _ _ D C B) in V. injection V as <-.
    eapply FailCase; [|reflexivity]. right. right. now left.
  - rewrite (convertImage_blob_throws _ image s _ _ _ D C B) in V.
    injection V as <-.
    eapply FailCase; [|reflexivity]. right. right. right. eauto.
  - rewrite (convertImage_success _ image s _ _ _ D C B) in V. injection V as <-.
    assert (N : ~ Failed p).
    { unfold Failed. rewrite D, C, B.
      intros [X | [X | [X | [e X]]]]; discriminate. }
    cbn.
    split; [reflexivity|]. split; [reflexivity|]. split; [reflexivity|].
    split; [reflexivity|]. split; [split; [congruence | tauto]|].
    split; [tauto | intros _; split; reflexivity].
Qed.

Lemma forEach_revokeImage_app (l : list ImageFile) (s : Sys) :
  app (after (forEach revokeImage l s)) = app s.
Proof.
  apply forEach_app_unchanged. intros x s'. apply revokeImage_app.
Qed.

(** Every handler but [convertAllImages] and the pick of the global
    format leaves [isConverting] and [targetFormat] as they were. *)
Lemma handlers_keep_settings (s : Sys) :
  (forall files,
     State.isConverting (app (after (handleFileSelect files s)))
     = State.isConverting (app s)
     /\ State.targetFormat (app (after (handleFileSelect files s)))
        = State.targetFormat (app s))
  /\ (forall files,
        State.isConverting (app (after (handleDrop files s)))
        = State.isConverting (app s)
        /\ State.targetFormat (app (after (handleDrop files s)))
           = State.targetFormat (app s))
  /\ (forall i,
        State.isConverting (app (after (removeImage i s)))
        = State.isConverting (app s)
        /\ State.targetFormat (app (after (removeImage i s)))
           = State.targetFormat (app s))
  /\ (State.isConverting (app (after (clearAllImages s)))
      = State.isConverting (app s)
      /\ State.targetFormat (app (after (clearAllImages s)))
         = State.targetFormat (app s)).
Proof.
  split; [|split; [|split]].
  - intros [[|f rest]|]; try (split; reflexivity).
    unfold handleFileSelect. cbn [length Nat.eqb].
    rewrite !after_bind, resetFileInput_app.
    cbn [getState value after fst snd].
    destruct (mapM_newImageFile (State.targetFormat (app s)) (f :: rest) s)
      as (_ & _ & A).
    cbn [setImages setImagesWith ret after value fst snd app
           State.isConverting State.targetFormat].
    rewrite A. split; reflexivity.
  - intros [fs|]; [|split; reflexivity].
    destruct (filter (fun f => JS.startsWith (type f) "image/") fs)
      as [|f rest] eqn:F.
    { unfold handleDrop. destruct fs as [|f0 rest0]; [split; reflexivity|].
      cbn [length Nat.eqb]. rewrite F. split; reflexivity. }
    unfold handleDrop. destruct fs as [|f0 rest0]; [discriminate F|].
    cbn [length Nat.eqb]. rewrite F. cbn [length Nat.eqb].
    rewrite !after_bind. cbn [getState emit value after fst snd].
    destruct (mapM_newImageFile (State.targetFormat (app s)) (f :: rest) s)
      as (_ & _ & A).
    cbn [setImages setImagesWith ret after value fst snd app
           State.isConverting State.targetFormat].
    rewrite A. split; reflexivity.
  - intros i. unfold removeImage, setImagesWith.
    cbn [after fst snd app State.isConverting State.targetFormat].
    rewrite after_bind. cbn [ret after fst snd].
    destruct (find _ _) as [image|]; [rewrite revokeImage_app|];
      split; reflexivity.
  - unfold clearAllImages. rewrite !after_bind.
    cbn [getState value after fst snd].
    cbn [setImages setImagesWith ret after value fst snd app
           State.isConverting State.targetFormat].
    rewrite forEach_revokeImage_app. split; reflexivity.
Qed.

(** ** Every image, every time *)

(** C5. On an empty list [convertAllImages] does nothing.  On any
    other list it first sets [isConverting] and replaces every image
    by one with [converting] true and [error] null and the other
    fields as they were, then runs its rounds from that list, one call
    of [convertImage] per image of the list, in list order, and no
    other call.  In a state the page can reach, the [j]-th of these
    calls really converts the [j]-th image, whatever its
    [convertedUrl] and [error] were: it starts after the marking and
    after the calls for the images before it, in a state whose list
    has the results of those calls followed by the marked images
    still to convert; it asks [canvas.toBlob] for the target format
    when the image decodes and draws; and its result is the [j]-th
    entry of the list the run ends with, with an [error] exactly when
    this conversion failed, and on success with a converted URL made
    by this call, which was not in the blob URL store before the run
    and so is not the converted URL the image had. *)
Theorem convertAllImages_every_time (env : nat -> Platform) (s : Sys) :
  (State.images (app s) = [] -> convertAllImages env s = (Resolved tt, s, []))
  /\ (State.images (app s) <> [] ->
      exists t,
        trace (convertAllImages env s) =
          EvSetIsConverting true
          :: EvSetImages (map markConverting (State.images (app s)))
          :: t ++ [EvSetIsConverting false]
        /\ Forall2 (fun old new =>
                      converting new = true /\ error new = None
                      /\ id new = id old /\ file new = file old
                      /\ preview new = preview old
                      /\ convertedUrl new = convertedUrl old
                      /\ targetFormat new = targetFormat old)
             (State.images (app s)) (map markConverting (State.images (app s)))
        /\ rounds (map markConverting (State.images (app s)))
             (State.images (app s)) t
             (State.images (app (after (convertAllImages env s))))
        /\ conversions t = State.images (app s)
        /\ conversions (trace (convertAllImages env s)) = State.images (app s))
  /\ (reachable s ->
      State.images (app s) <> [] ->
      length (State.images (app (after (convertAllImages env s))))
      = length (State.images (app s))
      /\ forall j image,
          nth_error (State.images (app s)) j = Some image ->
          exists result s0 pre post,
            nth_error (State.images (app (after (convertAllImages env s)))) j
            = Some result
            /\ value (convertImage (env j) image s0) = Resolved result
            /\ trace (convertAllImages env s)
               = pre ++ trace (convertImage (env j) image s0) ++ post
            /\ In (EvSetImages (map markConverting (State.images (app s)))) pre
            /\ conversions pre = firstn j (State.images (app s))
            /\ State.images (app s0)
               = firstn j (State.images (app (after (convertAllImages env s))))
                 ++ map markConverting (skipn j (State.images (app s)))
            /\ converting result = false
            /\ (error result <> None <-> Failed (env j))
            /\ (forall w h,
                  decoded (env j) = Some (w, h) -> context2d (env j) = true ->
                  In (EvToBlob (targetFormat image) (qualityFor (targetFormat image)))
                    (trace (convertImage (env j) image s0)))
            /\ (Failed (env j) ->
                file result = file image
                /\ convertedUrl result = convertedUrl image)
            /\ (~ Failed (env j) ->
                exists u,
                  convertedUrl result = Some u
                  /\ ~ In u (liveUrls (world s))
                  /\ convertedUrl image <> Some u)).
Proof.
  split; [apply convertAllImages_empty|]. split.
  - intros N.
    destruct (convertAllImages_run env s N) as (t & _ & T & R & _).
    exists t. split; [exact T|].
    pose proof (rounds_conversions _ _ _ _ R) as C.
    split; [|split; [exact R | split; [exact C|]]].
    + clear. induction (State.images (app s)) as [|x l IH]; cbn [map];
        constructor; [repeat split | exact IH].
    + rewrite T. unfold conversions in *. cbn [flat_map Datatypes.app].
      rewrite flat_map_app, C. cbn. apply app_nil_r.
  - intros R NE.
    destruct (reachable_images s R) as (N & NB).
    pose proof (reachable_storeOk s R) as St.
    destruct (convertAllImages_spec env s NE N St) as (_ & L & _ & PF).
    split; [exact L|].
    intros j image H.
    destruct (PF j image H)
      as (result & s0 & R1 & R2 & R3 & R4 & _ & R6 & pre & post & R7 & R8 & R9).
    destruct (convertImage_fields _ _ _ _ R2) as (_ & _ & _ & F4 & F5 & F6 & F7).
    exists result, s0, pre, post.
    split; [exact R1|]. split; [exact R2|]. split; [exact R7|].
    split; [exact R8|]. split; [exact R9|]. split; [exact R6|].
    split; [exact F4|]. split; [exact F5|]. split; [|split; [exact F6|]].
    + intros w h D C.
      destruct (convertImage_tail _ image s0 _ _ D C) as (rest & T & _).
      rewrite T, in_app_iff. left. apply pipelineEvents_has_toBlob.
    + intros NF. destruct (F7 NF) as (CU & _).
      exists (blobUrl (urls (world s0))). split; [exact CU|].
      assert (Fresh : ~ In (blobUrl (urls (world s0))) (liveUrls (world s))).
      { intros X. apply (blobUrl_fresh s0 R3). now apply R4. }
      split; [exact Fresh|].
      intros X. apply Fresh.
      apply (proj2 (storeOk_live s image St NB (nth_error_In _ _ H))). exact X.
Qed.

Lemma convertAllImages_every_time_witness :
  reachable convertedSys
  /\ State.images (app convertedSys) <> []
  /\ nth_error (State.images (app convertedSys)) 0 = Some convertedPhoto
  /\ exists result u,
       nth_error
         (State.images (app (after (convertAllImages (fun _ => working) convertedSys))))
         0 = Some result
       /\ convertedUrl result = Some u
       /\ convertedUrl convertedPhoto <> Some u.
Proof.
  assert (NE : State.images (app convertedSys) <> []) by (vm_compute; discriminate).
  assert (H0 : nth_error (State.images (app convertedSys)) 0 = Some convertedPhoto)
    by (vm_compute; reflexivity).
  assert (NF : ~ Failed working).
  { unfold Failed. intros [X | [X | [X | [e X]]]]; discriminate X. }
  split; [exact convertedSys_reachable|]. split; [exact NE|]. split; [exact H0|].
  destruct (proj2 (proj2 (convertAllImages_every_time (fun _ => working) convertedSys))
              convertedSys_reachable NE)
    as (_ & P).
  destruct (P 0 convertedPhoto H0)
    as (result & s0 & pre & post & R1 & _ & _ & _ & _ & _ & _ & _ & _ & _ & S).
  destruct (S NF) as (u & U & _ & D).
  exists result, u. split; [exact R1|]. split; [exact U | exact D].
Defined.

Lemma convertAllImages_formats (env : nat -> Platform) (s : Sys)
    (P : ImageFile -> Prop) :
  (forall image result, targetFormat result = targetFormat image ->
                        P image -> P result) ->
  NoDup (map id (State.images (app s))) ->
  storeOk s ->
  Forall P (State.images (app s)) ->
  Forall P (State.images (app (after (convertAllImages env s)))).
Proof.
  intros K N St F.
  destruct (State.images (app s)) as [|x rest] eqn:E.
  { rewrite (convertAllImages_empty env s E). cbn [after fst snd]. now rewrite E. }
  rewrite <- E in *.
  destruct (convertAllImages_spec env s) as (_ & L & _ & PF);
    [rewrite E; discriminate | exact N | exact St |].
  apply Forall_forall. intros e H.
  apply In_nth_error in H. destruct H as (j & J).
  assert (JL : j < length (State.images (app s))).
  { rewrite <- L. apply nth_error_Some. congruence. }
  destruct (nth_error (State.images (app s)) j) as [image|] eqn:I;
    [|apply nth_error_None in I; lia].
  destruct (PF j image I) as (r & s0 & R1 & R2 & _).
  rewrite J in R1. injection R1 as <-.
  apply (K image e); [apply (convertImage_fields _ _ _ _ R2)|].
  apply (proj1 (Forall_forall _ _) F). eapply nth_error_In. exact I.
Qed.

Lemma run_settingsOk (a : Action) (s : Sys) :
  invariant s -> storeOk s -> settingsOk s -> offered a s ->
  settingsOk (after (run a s)).
Proof.
  intros (_ & N & _) St (C & G & F) O.
  destruct (handlers_keep_settings s) as (KF & KD & KR & KC).
  unfold settingsOk. destruct a; cbn [run].
  - destruct (KF files) as (K1 & K2). rewrite K1, K2.
    split; [exact C|]. split; [exact G|].
    destruct files as [[|f rest]|]; try exact F.
    rewrite handleFileSelect_images by discriminate.
    apply Forall_app. split; [exact F|].
    destruct (mapM_newImageFile (State.targetFormat (app s)) (f :: rest) s)
      as (_ & T & _).
    eapply Forall_impl; [|exact T]. cbn. intros img (-> & _). exact G.
  - repeat split; assumption.
  - destruct (KD files) as (K1 & K2). rewrite K1, K2.
    split; [exact C|]. split; [exact G|].
    destruct files as [fs|]; [|exact F].
    destruct (filter (fun f => JS.startsWith (type f) "image/") fs)
      as [|f rest] eqn:E.
    { unfold handleDrop. destruct fs as [|f0 rest0]; [exact F|].
      cbn [length Nat.eqb]. rewrite E. exact F. }
    rewrite handleDrop_images by (rewrite E; discriminate).
    apply Forall_app. split; [exact F|].
    destruct (mapM_newImageFile (State.targetFormat (app s))
                (filter (fun f => JS.startsWith (type f) "image/") fs) s)
      as (_ & T & _).
    eapply Forall_impl; [|exact T]. cbn. intros img (-> & _). exact G.
  - destruct (KR i) as (K1 & K2). rewrite K1, K2.
    split; [exact C|]. split; [exact G|].
    rewrite (proj1 (removeImage_effect i s)).
    apply Forall_forall. intros img H. apply filter_In in H.
    now apply (proj1 (Forall_forall _ _) F).
  - rewrite after_bind. cbn [ret after fst snd].
    destruct (State.images (app s)) as [|x rest] eqn:E.
    { rewrite (convertAllImages_empty env s E). cbn [after fst snd].
      rewrite E. repeat split; assumption. }
    destruct (convertAllImages_run env s) as (t & _ & _ & _ & T & I & _);
      [rewrite E; discriminate|].
    rewrite T, I. split; [reflexivity|]. split; [exact G|].
    apply convertAllImages_formats; try assumption; [|now rewrite E..].
    intros image result -> H. exact H.
  - rewrite downloadImage_app. repeat split; assumption.
  - unfold downloadAllImages. rewrite after_bind.
    cbn [getState value after fst snd].
    rewrite forEach_app_unchanged; [repeat split; assumption|].
    intros x s'. destruct (JS.truthy (convertedUrl x));
      [apply downloadImage_app | reflexivity].
  - destruct KC as (K1 & K2). rewrite K1, K2.
    split; [exact C|]. split; [exact G|].
    rewrite (proj1 (clearAllImages_effect s)). constructor.
  - repeat split; assumption.
  - repeat split; assumption.
  - cbn in O. repeat split; assumption.
  - cbn in O. unfold updateImageTargetFormat.
    split; [exact C|]. split; [exact G|].
    rewrite setImages_images. apply Forall_forall. intros img H.
    apply in_map_iff in H. destruct H as (x & <- & X).
    destruct (String.eqb (id x) i); [exact O|].
    now apply (proj1 (Forall_forall _ _) F).
  - unfold applyGlobalFormatToAll. rewrite after_bind.
    cbn [getState value after fst snd].
    split; [exact C|]. split; [exact G|].
    rewrite setImages_images. apply Forall_forall. intros img H.
    apply in_map_iff in H. destruct H as (x & <- & X). exact G.
Qed.

Lemma reachable_settingsOk (s : Sys) : reachable s -> settingsOk s.
Proof.
  induction 1 as [|a s R IH O].
  - repeat split; [cbn; tauto | constructor].
  - apply run_settingsOk; try assumption;
      [now apply reachable_invariant | now apply reachable_storeOk].
Qed.

(** X6. When a handler has returned, no conversion is marked as
    running ([isConverting] is false, so the Convert All button is
    disabled only for an empty list), and the global target format
    and that of every image are formats of [IMAGE_FORMATS]; the status
    line of a card therefore never reads ['unknown']. *)
Theorem settings_at_rest (s : Sys) :
  reachable s ->
  State.isConverting (app s) = false
  /\ convertDisabled (app s) = Nat.eqb (length (State.images (app s))) 0
  /\ editingDisabled (app s) = false
  /\ In (State.targetFormat (app s)) formatValues
  /\ (forall image,
        In image (State.images (app s)) ->
        In (targetFormat image) formatValues
        /\ getFormatExtension (targetFormat image) <> "unknown").
Proof.
  intros R. destruct (reachable_settingsOk s R) as (C & G & F).
  unfold convertDisabled, editingDisabled. rewrite C.
  split; [reflexivity|]. split; [reflexivity|]. split; [reflexivity|].
  split; [exact G|].
  intros image H. pose proof (proj1 (Forall_forall _ _) F image H) as T.
  split; [exact T|]. intros U. cbn in T.
  repeat (destruct T as [T|T]; [rewrite <- T in U; discriminate U|]).
  contradiction.
Qed.

Lemma settings_at_rest_witness :
  reachable convertedSys
  /\ State.isConverting (app convertedSys) = false
  /\ convertDisabled (app convertedSys) = false.
Proof.
  split; [exact convertedSys_reachable|].
  destruct (settings_at_rest convertedSys convertedSys_reachable)
    as (C & D & _).
  split; [exact C | exact D].
Defined.

Lemma imageSrc_held (image : ImageFile) : In (imageSrc image) (handles image).
Proof.
  unfold imageSrc, handles.
  destruct (convertedUrl image) as [url|]; [|now left].
  destruct (JS.truthy (Some url)); [right; now left | now left].
Qed.

(** X7. In every state the page can reach, the URL a thumbnail loads
    ([convertedUrl || preview]) is a [blob:] URL that is still in the
    blob URL store, so is the preview each image keeps for the next
    conversion, and no two images of the list share a URL. *)
Theorem thumbnails_live (s : Sys) :
  reachable s ->
  NoDup (heldUrls (State.images (app s)))
  /\ (forall image,
        In image (State.images (app s)) ->
        In (imageSrc image) (liveUrls (world s))
        /\ isBlobUrl (imageSrc image) = true
        /\ In (preview image) (liveUrls (world s))
        /\ (forall u, convertedUrl image = Some u -> In u (liveUrls (world s)))
        /\ (forall other,
              In other (State.images (app s)) ->
              imageSrc other = imageSrc image -> other = image)).
Proof.
  intros R.
  pose proof (reachable_storeOk s R) as St. pose proof St as (N & L & B).
  destruct (reachable_images s R) as (_ & F).
  split; [exact N|].
  intros image H.
  assert (HS : In (imageSrc image) (liveUrls (world s))).
  { apply L. unfold heldUrls. apply in_flat_map. exists image.
    split; [exact H | apply imageSrc_held]. }
  destruct (storeOk_live s image St F H) as (LP & LC).
  split; [exact HS|]. split.
  - destruct (B _ HS) as (k & _ & ->). apply blobUrl_is_blob.
  - split; [exact LP|]. split; [exact LC|].
    intros other HO E.
    apply (heldUrls_owner _ other image (imageSrc image) N HO H).
    + rewrite <- E. apply imageSrc_held.
    + apply imageSrc_held.
Qed.

Lemma thumbnails_live_witness :
  reachable convertedSys
  /\ In convertedPhoto (State.images (app convertedSys))
  /\ In (imageSrc convertedPhoto) (liveUrls (world convertedSys)).
Proof.
  split; [exact convertedSys_reachable|].
  assert (H : In convertedPhoto (State.images (app convertedSys)))
    by (vm_compute; tauto).
  split; [exact H|].
  exact (proj1 (proj2 (thumbnails_live convertedSys convertedSys_reachable)
                  convertedPhoto H)).
Defined.

(** ** Releasing, and not releasing, object URLs *)

Lemma find_absent (i : string) (l : list ImageFile) :
  ~ In i (map id l) ->
  find (fun img => String.eqb (id img) i) l = None
  /\ filter (fun img => negb (String.eqb (id img) i)) l = l.
Proof.
  induction l as [|x l IH]; intros N; [split; reflexivity|].
  cbn [find filter]. destruct (String.eqb_spec (id x) i) as [E|E].
  - exfalso. apply N. left. exact E.
  - cbn [negb]. destruct IH as (A & B); [intros X; apply N; now right|].
    rewrite A, B. split; reflexivity.
Qed.

Lemma find_present (image : ImageFile) (l : list ImageFile) :
  NoDup (map id l) -> In image l ->
  find (fun img => String.eqb (id img) (id image)) l = Some image.
Proof.
  induction l as [|x l IH]; intros N H; [destruct H|].
  cbn in N. inversion N as [|? ? NI N']; subst.
  cbn [find]. destruct (String.eqb_spec (id x) (id image)) as [E|E].
  - destruct H as [<-|H]; [reflexivity|].
    exfalso. apply NI. rewrite E. now apply in_map.
  - destruct H as [<-|H]; [congruence | now apply IH].
Qed.

(** X8. Removing an identifier that is not listed changes nothing and
    revokes nothing.  Removing a listed image, in a state the page can
    reach, takes its URLs, and only its URLs, out of the blob URL
    store: every image that stays keeps a live preview and a live
    converted URL. *)
Theorem removeImage_releases (s : Sys) (i : string) :
  reachable s ->
  (~ In i (map id (State.images (app s))) ->
   after (removeImage i s) = s /\ revoked (trace (removeImage i s)) = [])
  /\ (forall image,
        In image (State.images (app s)) -> id image = i ->
        (forall u, In u (liveUrls (world (after (removeImage i s))))
                   <-> In u (liveUrls (world s)) /\ ~ In u (handles image))
        /\ ~ In image (State.images (app (after (removeImage i s))))
        /\ S (length (State.images (app (after (removeImage i s)))))
           = length (State.images (app s)))
  /\ (forall other,
        In other (State.images (app s)) -> id other <> i ->
        In other (State.images (app (after (removeImage i s))))
        /\ In (preview other) (liveUrls (world (after (removeImage i s))))
        /\ (forall u, convertedUrl other = Some u ->
                      In u (liveUrls (world (after (removeImage i s)))))).
Proof.
  intros R. destruct (reachable_images s R) as (N & F).
  pose proof (reachable_storeOk s R) as St.
  destruct (removeImage_effect i s) as (E & RV).
  split; [|split].
  - intros A. destruct (find_absent i _ A) as (FN & FL).
    split; [|now rewrite RV, FN].
    unfold removeImage, setImagesWith, bind. rewrite FN, FL.
    cbn [ret value after trace fst snd]. destruct s as [[] ?]. reflexivity.
  - intros image H <-.
    pose proof (find_present image _ N H) as FP.
    split; [|split].
    + intros u. rewrite removeImage_live, FP. tauto.
    + rewrite E. intros X. apply filter_In in X.
      rewrite String.eqb_refl in X. destruct X as (_ & X). discriminate X.
    + rewrite E.
      pose proof (filter_length (fun img => String.eqb (id img) (id image))
                    (State.images (app s))) as FLen.
      rewrite (filter_find_distinct (id image) _ N), FP in FLen.
      exact FLen.
  - intros other H D.
    assert (K : In other (State.images (app (after (removeImage i s))))).
    { rewrite E. apply filter_In. split; [exact H|].
      destruct (String.eqb_spec (id other) i); [contradiction | reflexivity]. }
    split; [exact K|].
    apply (storeOk_live (after (removeImage i s)) other).
    + now apply removeImage_storeOk.
    + rewrite E. apply Forall_forall. intros img X. apply filter_In in X.
      now apply (proj1 (Forall_forall _ _) F).
    + exact K.
Qed.

Lemma removeImage_releases_witness :
  reachable convertedSys
  /\ liveUrls (world convertedSys) = ["blob:2"; "blob:1"; "blob:0"]
  /\ liveUrls (world (after (removeImage "uuid-0" convertedSys))) = ["blob:1"]
  /\ after (removeImage "uuid-7" convertedSys) = convertedSys.
Proof.
  split; [exact convertedSys_reachable|].
  split; [reflexivity|]. split; [reflexivity|].
  destruct (removeImage_releases convertedSys "uuid-7" convertedSys_reachable)
    as (A & _).
  apply A. vm_compute. intros [X|[X|[]]]; discriminate X.
Defined.

Lemma held_distinct (l : list ImageFile) (image : ImageFile) :
  NoDup (heldUrls l) -> In image l -> NoDup (handles image).
Proof.
  unfold heldUrls. induction l as [|a l IH]; cbn [flat_map]; intros N H;
    [destruct H|].
  apply NoDup_app_split in N. destruct N as (N1 & N2 & _).
  destruct H as [<-|H]; [exact N1 | now apply IH].
Qed.

(** X9. [clearAllImages] empties the list and takes every URL the
    images held out of the blob URL store; what stays in the store are
    the URLs that no image held any more. *)
Theorem clearAllImages_releases (s : Sys) (u : string) :
  State.images (app (after (clearAllImages s))) = []
  /\ (In u (liveUrls (world (after (clearAllImages s))))
      <-> In u (liveUrls (world s)) /\ ~ In u (heldUrls (State.images (app s))))
  /\ urls (world (after (clearAllImages s))) = urls (world s).
Proof.
  split; [apply clearAllImages_effect|].
  unfold clearAllImages. rewrite !after_bind.
  cbn [getState value after fst snd].
  change (world (after (setImages ?f ?x))) with (world x).
  split; [apply forEach_revokeImage_live | apply forEach_revokeImage_urls].
Qed.

(** X10. Changing the target format of a converted image, by its
    selector or by Apply to all, forgets its converted URL without
    revoking it: in a state the page can reach, the URL is afterwards
    still in the blob URL store and no image of the list holds it. *)
Theorem format_change_leaks (s : Sys) (image : ImageFile) (u format : string) :
  reachable s ->
  In image (State.images (app s)) ->
  convertedUrl image = Some u ->
  (revoked (trace (updateImageTargetFormat (id image) format s)) = []
   /\ In u (liveUrls (world (after (updateImageTargetFormat (id image) format s))))
   /\ ~ In u (heldUrls (State.images
                          (app (after (updateImageTargetFormat (id image) format s))))))
  /\ (revoked (trace (applyGlobalFormatToAll s)) = []
      /\ In u (liveUrls (world (after (applyGlobalFormatToAll s))))
      /\ ~ In u (heldUrls (State.images (app (after (applyGlobalFormatToAll s)))))).
Proof.
  intros R H U.
  pose proof (reachable_storeOk s R) as St. pose proof St as (N & L & B).
  destruct (reachable_images s R) as (_ & F).
  destruct (storeOk_live s image St F H) as (_ & LC).
  pose proof (LC u U) as LU.
  assert (HU : handles image = [preview image; u]).
  { unfold handles. rewrite U.
    pose proof (proj1 (Forall_forall _ _) F image H) as NE.
    cbn. destruct (String.eqb_spec u ""); [congruence | reflexivity]. }
  assert (PU : preview image <> u).
  { pose proof (held_distinct _ image N H) as ND. rewrite HU in ND.
    inversion ND as [|? ? NI _]; subst. intros X. apply NI. now left. }
  assert (K : forall g : ImageFile -> ImageFile,
            (forall x, handles (g x) = handles x \/ handles (g x) = [preview x]) ->
            handles (g image) = [preview image] ->
            ~ In u (heldUrls (map g (State.images (app s))))).
  { intros g G GI X. unfold heldUrls in X. apply in_flat_map in X.
    destruct X as (y & Y & UY). apply in_map_iff in Y.
    destruct Y as (x & <- & X).
    assert (UX : In u (handles x)).
    { destruct (G x) as [E|E]; rewrite E in UY; [exact UY|].
      destruct UY as [UY|[]]. rewrite <- UY. now left. }
    assert (EQ : x = image).
    { apply (heldUrls_owner _ x image u N X H UX). rewrite HU. right. now left. }
    subst x. rewrite GI in UY. destruct UY as [UY|[]]. contradiction. }
  split; (split; [reflexivity|]); (split; [exact LU|]).
  - unfold updateImageTargetFormat. rewrite setImages_images. apply K.
    + intros x. destruct (String.eqb (id x) (id image)); [right | left]; reflexivity.
    + now rewrite String.eqb_refl.
  - unfold applyGlobalFormatToAll. rewrite after_bind, setImages_images.
    cbn [getState value after fst snd]. apply K.
    + intros x. right. reflexivity.
    + reflexivity.
Qed.

Lemma format_change_leaks_witness :
  reachable convertedSys
  /\ In convertedPhoto (State.images (app convertedSys))
  /\ convertedUrl convertedPhoto = Some "blob:2"
  /\ In "blob:2"
       (liveUrls (world (after (updateImageTargetFormat "uuid-0" "image/webp"
                                  convertedSys))))
  /\ ~ In "blob:2"
         (heldUrls (State.images
                      (app (after (updateImageTargetFormat "uuid-0" "image/webp"
                                     convertedSys))))).
Proof.
  split; [exact convertedSys_reachable|].
  assert (H : In convertedPhoto (State.images (app convertedSys)))
    by (vm_compute; tauto).
  split; [exact H|]. split; [reflexivity|].
  destruct (format_change_leaks convertedSys convertedPhoto "blob:2" "image/webp"
              convertedSys_reachable H eq_refl) as ((_ & A & B) & _).
  split; [exact A | exact B].
Defined.

(** ** The list after a run of [convertAllImages] *)

(** X11. In a state the page can reach with a list that is not empty,
    [convertAllImages] ends with [isConverting] false and a list of
    the same length whose [j]-th entry is the outcome of converting
    the [j]-th image: same identifier, preview and target format,
    [converting] false, an [error] exactly when that conversion
    failed, in which case the file and the converted URL are the
    earlier ones; when it succeeded, a converted URL that was not in
    the blob URL store before the run and is in it after, and a file
    of the target format. *)
Theorem convertAllImages_result (env : nat -> Platform) (s : Sys) :
  reachable s ->
  State.images (app s) <> [] ->
  State.isConverting (app (after (convertAllImages env s))) = false
  /\ length (State.images (app (after (convertAllImages env s))))
     = length (State.images (app s))
  /\ (forall j image,
        nth_error (State.images (app s)) j = Some image ->
        exists result,
          nth_error (State.images (app (after (convertAllImages env s)))) j
          = Some result
          /\ id result = id image
          /\ preview result = preview image
          /\ targetFormat result = targetFormat image
          /\ converting result = false
          /\ (error result <> None <-> Failed (env j))
          /\ (Failed (env j) ->
              file result = file image
              /\ convertedUrl result = convertedUrl image)
          /\ (~ Failed (env j) ->
              type (file result) = targetFormat image
              /\ exists u,
                   convertedUrl result = Some u
                   /\ ~ In u (liveUrls (world s))
                   /\ In u (liveUrls (world (after (convertAllImages env s)))))).
Proof.
  intros R NE.
  destruct (reachable_images s R) as (N & _).
  pose proof (reachable_storeOk s R) as St.
  destruct (convertAllImages_run env s NE) as (_ & _ & _ & _ & _ & C & _).
  destruct (convertAllImages_spec env s NE N St) as (_ & L & _ & PF).
  split; [exact C|]. split; [exact L|].
  intros j image H.
  destruct (PF j image H) as (result & s0 & R1 & R2 & R3 & R4 & R5 & _).
  destruct (convertImage_fields _ _ _ _ R2) as (F1 & F2 & F3 & F4 & F5 & F6 & F7).
  exists result.
  split; [exact R1|]. split; [exact F1|]. split; [exact F2|].
  split; [exact F3|]. split; [exact F4|]. split; [exact F5|].
  split; [exact F6|].
  intros NF. destruct (F7 NF) as (CU & TY). split.
  { rewrite TY. apply normalizeType_format.
    destruct (reachable_settingsOk s R) as (_ & _ & FS).
    apply (proj1 (Forall_forall _ _) FS). eapply nth_error_In. exact H. }
  exists (blobUrl (urls (world s0))). split; [exact CU|]. split.
  - intros X. apply (blobUrl_fresh s0 R3). now apply R4.
  - apply R5.
    destruct (convertImage_handles (env j) image s0)
      as (r & _ & _ & [(Fl & _) | (_ & _ & _ & LU & _)]); [contradiction|].
    rewrite LU. now left.
Qed.

Lemma convertAllImages_result_witness :
  reachable loadedSys
  /\ State.images (app loadedSys) <> []
  /\ State.isConverting
       (app (after (convertAllImages
                      (fun k => if Nat.eqb k 0 then working else broken)
                      loadedSys))) = false.
Proof.
  assert (R : reachable loadedSys).
  { exact (reachable_step (FileSelect (Some [photo; scan])) initialSys
             reachable_initial I). }
  assert (N : State.images (app loadedSys) <> []) by discriminate.
  split; [exact R|]. split; [exact N|].
  exact (proj1 (convertAllImages_result
                  (fun k => if Nat.eqb k 0 then working else broken)
                  loadedSys R N)).
Defined.

(** ** Adding files *)

(** The records made for added files, in a state that keeps the
    invariants. *)
Lemma added_fresh (s : Sys) (fs : list File) :
  invariant s -> storeOk s ->
  NoDup (map id (value (mapM (newImageFile (State.targetFormat (app s))) fs s)))
  /\ NoDup (map preview
              (value (mapM (newImageFile (State.targetFormat (app s))) fs s)))
  /\ Forall (fun img =>
               ~ In (id img) (map id (State.images (app s)))
               /\ ~ In (preview img) (liveUrls (world s))
               /\ In (preview img, blob_of_file (file img))
                    (blobStore
                       (world (after (mapM (newImageFile
                                              (State.targetFormat (app s))) fs s))))
               /\ convertedUrl img = None
               /\ error img = None
               /\ converting img = false
               /\ targetFormat img = State.targetFormat (app s))
       (value (mapM (newImageFile (State.targetFormat (app s))) fs s)).
Proof.
  intros (IO & _) (_ & _ & B).
  destruct (mapM_newImageFile_fresh (State.targetFormat (app s)) fs s)
    as (I & _).
  destruct (mapM_newImageFile_store (State.targetFormat (app s)) fs s)
    as (P & _ & _ & _ & FS).
  destruct (mapM_newImageFile (State.targetFormat (app s)) fs s)
    as (_ & FT & _).
  split; [rewrite I; apply NoDup_map_injective; [apply uuid_inj | apply seq_NoDup]|].
  split; [rewrite P; apply NoDup_map_injective;
          [apply blobUrl_inj | apply seq_NoDup]|].
  apply Forall_forall. intros img H.
  pose proof (proj1 (Forall_forall _ _) FS img H) as (S1 & S2).
  pose proof (proj1 (Forall_forall _ _) FT img H) as (T1 & T2 & T3).
  split; [|split; [|repeat split; assumption]].
  - assert (HI : In (id img) (map id (value (mapM (newImageFile
                   (State.targetFormat (app s))) fs s)))) by now apply in_map.
    rewrite I in HI. apply in_map_iff in HI. destruct HI as (k & K & KS).
    apply in_seq in KS. intros X. apply in_map_iff in X.
    destruct X as (old & E & O).
    pose proof (proj1 (Forall_forall _ _) IO old O) as (_ & j & J & JE).
    rewrite <- K, JE in E. apply uuid_inj in E. lia.
  - assert (HP : In (preview img) (map preview (value (mapM (newImageFile
                   (State.targetFormat (app s))) fs s)))) by now apply in_map.
    rewrite P in HP. apply in_map_iff in HP. destruct HP as (k & K & KS).
    apply in_seq in KS. intros X. destruct (B _ X) as (j & J & JE).
    rewrite <- K in JE. apply blobUrl_inj in JE. lia.
Qed.

(** X12. [handleFileSelect] does nothing for a missing or empty file
    list.  Otherwise, in a state the page can reach, it appends one
    record per selected file, in order and whatever the type of the
    file: each with an identifier and a preview URL that no listed
    image has and that differ from one another, the preview entered
    in the blob URL store for the blob of that very file, no converted
    URL, no error, not converting, and the global target format. *)
Theorem handleFileSelect_adds (s : Sys) (fs : list File) :
  reachable s ->
  handleFileSelect None s = (tt, s, [])
  /\ handleFileSelect (Some []) s = (tt, s, [])
  /\ (fs <> [] ->
      exists newFiles,
        State.images (app (after (handleFileSelect (Some fs) s)))
        = State.images (app s) ++ newFiles
        /\ map file newFiles = fs
        /\ NoDup (map id newFiles)
        /\ NoDup (map preview newFiles)
        /\ Forall (fun img =>
                     ~ In (id img) (map id (State.images (app s)))
                     /\ ~ In (preview img) (liveUrls (world s))
                     /\ In (preview img, blob_of_file (file img))
                          (blobStore (world (after (handleFileSelect (Some fs) s))))
                     /\ convertedUrl img = None
                     /\ error img = None
                     /\ converting img = false
                     /\ targetFormat img = State.targetFormat (app s))
             newFiles).
Proof.
  intros R. split; [reflexivity|]. split; [reflexivity|].
  intros NE.
  destruct (handleFileSelect_run fs s NE) as (I & BS & _).
  destruct (added_fresh s fs (reachable_invariant s R) (reachable_storeOk s R))
    as (N1 & N2 & F).
  destruct (mapM_newImageFile (State.targetFormat (app s)) fs s) as (MF & _).
  eexists. split; [exact I|]. split; [exact MF|].
  split; [exact N1|]. split; [exact N2|].
  rewrite BS. exact F.
Qed.

Lemma handleFileSelect_adds_witness :
  reachable initialSys
  /\ [photo; scan] <> []
  /\ map preview (State.images (app (after (handleFileSelect (Some [photo; scan])
                                             initialSys))))
     = ["blob:0"; "blob:1"].
Proof.
  split; [exact reachable_initial|].
  assert (N : [photo; scan] <> []) by discriminate.
  split; [exact N|].
  destruct (handleFileSelect_adds initialSys [photo; scan] reachable_initial)
    as (_ & _ & A).
  destruct (A N) as (newFiles & I & _).
  reflexivity.
Defined.

Lemma mapM_newImageFile_fileInput (format : string) (fs : list File) :
  forall s,
    fileInput (world (after (mapM (newImageFile format) fs s)))
    = fileInput (world s).
Proof.
  induction fs as [|f rest IH]; intros s; [reflexivity|].
  cbn [mapM]. rewrite !after_bind. cbn [ret after fst snd].
  rewrite IH. reflexivity.
Qed.

(** X13. [handleDrop] keeps, of the dropped files, those whose type
    starts with [image/]: when there is none (or no file list) the
    state stays as it is and the only calls are [preventDefault] and
    [stopPropagation]; otherwise, in a state the page can reach, one
    record per image file is appended as by the file input, and the
    file input is left alone. *)
Theorem handleDrop_adds (s : Sys) (fs : list File) :
  reachable s ->
  handleDrop None s = (tt, s, [EvPreventDefault; EvStopPropagation])
  /\ (filter (fun f => JS.startsWith (type f) "image/") fs = [] ->
      handleDrop (Some fs) s = (tt, s, [EvPreventDefault; EvStopPropagation]))
  /\ (filter (fun f => JS.startsWith (type f) "image/") fs <> [] ->
      fileInput (world (after (handleDrop (Some fs) s))) = fileInput (world s)
      /\ exists newFiles,
           State.images (app (after (handleDrop (Some fs) s)))
           = State.images (app s) ++ newFiles
           /\ map file newFiles
              = filter (fun f => JS.startsWith (type f) "image/") fs
           /\ NoDup (map id newFiles)
           /\ NoDup (map preview newFiles)
           /\ Forall (fun img =>
                        ~ In (id img) (map id (State.images (app s)))
                        /\ ~ In (preview img) (liveUrls (world s))
                        /\ In (preview img, blob_of_file (file img))
                             (blobStore (world (after (handleDrop (Some fs) s))))
                        /\ convertedUrl img = None
                        /\ error img = None
                        /\ converting img = false
                        /\ targetFormat img = State.targetFormat (app s))
                newFiles).
Proof.
  intros R. split; [reflexivity|]. split.
  - intros E. unfold handleDrop. destruct fs as [|f rest]; [reflexivity|].
    cbn [length Nat.eqb]. rewrite E. reflexivity.
  - intros NE.
    pose proof (handleDrop_images fs s NE) as I.
    destruct (handleDrop_run fs s NE) as (_ & W).
    destruct (added_fresh s (filter (fun f => JS.startsWith (type f) "image/") fs)
                (reachable_invariant s R) (reachable_storeOk s R))
      as (N1 & N2 & F).
    destruct (mapM_newImageFile (State.targetFormat (app s))
                (filter (fun f => JS.startsWith (type f) "image/") fs) s)
      as (MF & _).
    rewrite W. split.
    + apply mapM_newImageFile_fileInput.
    + eexists. split; [exact I|]. split; [exact MF|].
      split; [exact N1|]. split; [exact N2 | exact F].
Qed.

Lemma handleDrop_adds_witness :
  reachable loadedSys
  /\ filter (fun f => JS.startsWith (type f) "image/")
       [mkFile "notes.txt" "text/plain" []; scan] <> []
  /\ map file (State.images
                 (app (after (handleDrop
                                (Some [mkFile "notes.txt" "text/plain" []; scan])
                                loadedSys))))
     = [photo; scan; scan].
Proof.
  assert (R : reachable loadedSys).
  { exact (reachable_step (FileSelect (Some [photo; scan])) initialSys
             reachable_initial I). }
  assert (N : filter (fun f => JS.startsWith (type f) "image/")
                [mkFile "notes.txt" "text/plain" []; scan] <> [])
    by discriminate.
  split; [exact R|]. split; [exact N|].
  destruct (handleDrop_adds loadedSys [mkFile "notes.txt" "text/plain" []; scan] R)
    as (_ & _ & A).
  destruct (A N) as (_ & newFiles & I & _).
  reflexivity.
Defined.

(** ** What the cards show after a run *)

Lemma convertImage_error_shown (p : Platform) (image : ImageFile) (s : Sys)
    (result : ImageFile) :
  value (convertImage p image s) = Resolved result ->
  Failed p ->
  exists message, error result = Some message /\ status result = ShowError message.
Proof.
  intros V X. unfold status.
  destruct (platform_cases p)
    as [D | [(w & h & D & C) | [(w & h & D & C & B)
        | [(w & h & e & D & C & B) | (w & h & blob & D & C & B)]]]].
  - rewrite (convertImage_load_error _ image s D) in V. injection V as <-.
    eexists. split; reflexivity.
  - rewrite (convertImage_no_context _ image s _ _ D C) in V. injection V as <-.
    eexists. split; reflexivity.
  - rewrite (convertImage_blob_null _ image s _ _ D C B) in V. injection V as <-.
    eexists. split; reflexivity.
  - rewrite (convertImage_blob_throws _ image s _ _ _ D C B) in V.
    injection V as <-. eexists. split; reflexivity.
  - exfalso. unfold Failed in X. rewrite D, C, B in X.
    destruct X as [X | [X | [X | [e X]]]]; discriminate.
Qed.

(** X14. When the conversion of an image that was converted before
    fails, its card shows the error and no download button, but the
    image keeps the earlier converted URL and file: the Download All
    button is rendered and [downloadAllImages] downloads that earlier
    file. *)
Theorem failed_reconversion_download (env : nat -> Platform) (s : Sys)
    (j : nat) (image : ImageFile) (u : string) :
  reachable s ->
  nth_error (State.images (app s)) j = Some image ->
  Failed (env j) ->
  convertedUrl image = Some u ->
  (exists result message,
     nth_error (State.images (app (after (convertAllImages env s)))) j
     = Some result
     /\ status result = ShowError message)
  /\ showDownloadAll (app (after (convertAllImages env s))) = true
  /\ In (u, name (file image))
       (downloads (trace (downloadAllImages (after (convertAllImages env s))))).
Proof.
  intros R H X U.
  assert (NE : State.images (app s) <> []).
  { intros E. rewrite E in H. destruct j; discriminate H. }
  destruct (reachable_images s R) as (N & F).
  pose proof (reachable_storeOk s R) as St.
  destruct (convertAllImages_spec env s NE N St) as (_ & _ & _ & PF).
  destruct (PF j image H) as (result & s0 & R1 & R2 & _).
  destruct (convertImage_fields _ _ _ _ R2) as (_ & _ & _ & _ & _ & F6 & _).
  destruct (F6 X) as (FF & FC).
  destruct (convertImage_error_shown _ _ _ _ R2 X) as (message & _ & SE).
  assert (UN : u <> "").
  { intros ->. apply nth_error_In in H.
    apply (proj1 (Forall_forall _ _) F image H). exact U. }
  assert (D : In (u, name (file image))
                (downloads (trace (downloadAllImages
                                     (after (convertAllImages env s)))))).
  { rewrite downloads_of_list. apply in_flat_map. exists result.
    split; [eapply nth_error_In; exact R1|].
    rewrite FC, U, FF.
    destruct (String.eqb_spec u ""); [contradiction | now left]. }
  split; [exists result, message; split; assumption|].
  split; [|exact D].
  apply (proj2 (download_list_shown _)). intros E. rewrite E in D. destruct D.
Qed.

Lemma failed_reconversion_download_witness :
  reachable convertedSys
  /\ nth_error (State.images (app convertedSys)) 0 = Some convertedPhoto
  /\ Failed broken
  /\ convertedUrl convertedPhoto = Some "blob:2"
  /\ In ("blob:2", "photo.png")
       (downloads (trace (downloadAllImages
                            (after (convertAllImages (fun _ => broken)
                                      convertedSys))))).
Proof.
  assert (X : Failed broken) by (left; reflexivity).
  split; [exact convertedSys_reachable|]. split; [reflexivity|].
  split; [exact X|]. split; [reflexivity|].
  exact (proj2 (proj2 (failed_reconversion_download (fun _ => broken) convertedSys
                         0 convertedPhoto "blob:2" convertedSys_reachable
                         eq_refl X eq_refl))).
Defined.

(** X15. The file input does not look at the type of a file: a file
    whose type has no ['/'] (the empty type of a file the browser does
    not recognise) is listed like any other, and the badge of its card
    cannot be rendered; dropped on the page, the same file is ignored. *)
Theorem untyped_file_listed (s : Sys) (f : File) :
  occurs "/" (type f) = false ->
  (exists image,
     State.images (app (after (handleFileSelect (Some [f]) s)))
     = State.images (app s) ++ [image]
     /\ file image = f
     /\ typeBadge image = None)
  /\ after (handleDrop (Some [f]) s) = s.
Proof.
  intros O. split.
  - rewrite handleFileSelect_images by discriminate.
    destruct (mapM_newImageFile (State.targetFormat (app s)) [f] s) as (MF & _).
    destruct (value (mapM (newImageFile (State.targetFormat (app s))) [f] s))
      as [|image [|? ?]]; try discriminate MF.
    injection MF as MF. exists image. split; [reflexivity|]. split; [exact MF|].
    unfold typeBadge. rewrite MF.
    now rewrite (proj2 (split_second "/" (type f)) O).
  - unfold handleDrop. cbn [length Nat.eqb filter].
    destruct (JS.startsWith (type f) "image/") eqn:P; [|reflexivity].
    apply image_type_has_slash in P. congruence.
Qed.

Lemma untyped_file_listed_witness :
  occurs "/" (type (mkFile "README" "" [])) = false
  /\ exists image,
       State.images (app (after (handleFileSelect (Some [mkFile "README" "" []])
                                   initialSys)))
       = State.images (app initialSys) ++ [image]
       /\ file image = mkFile "README" "" []
       /\ typeBadge image = None.
Proof.
  split; [reflexivity|].
  exact (proj1 (untyped_file_listed initialSys (mkFile "README" "" []) eq_refl)).
Defined.

(** X16. The global format is the default of what is added later and
    nothing more: picking it leaves every listed image with its own
    target format, files selected afterwards get the picked format,
    and only Apply to all gives it to the images already listed. *)
Theorem global_format_is_default (s : Sys) (format : string) (fs : list File) :
  State.images (app (after (pickGlobalFormat format s))) = State.images (app s)
  /\ (exists newFiles,
        State.images (app (after (handleFileSelect (Some fs)
                                    (after (pickGlobalFormat format s)))))
        = State.images (app s) ++ newFiles
        /\ map file newFiles = fs
        /\ Forall (fun img => targetFormat img = format) newFiles)
  /\ map targetFormat
       (State.images (app (after (applyGlobalFormatToAll
                                    (after (pickGlobalFormat format s))))))
     = map (fun _ => format) (State.images (app s)).
Proof.
  split; [reflexivity|]. split.
  - set (s1 := after (pickGlobalFormat format s)).
    destruct fs as [|f rest].
    + exists []. cbn. rewrite app_nil_r. repeat split. constructor.
    + destruct (mapM_newImageFile (State.targetFormat (app s1)) (f :: rest) s1)
        as (MF & T & _).
      change (State.images (app s)) with (State.images (app s1)).
      eexists. split; [apply handleFileSelect_images; discriminate|].
      split; [exact MF|].
      eapply Forall_impl; [|exact T]. cbn. tauto.
  - unfold applyGlobalFormatToAll. rewrite after_bind, setImages_images.
    cbn [getState value after fst snd]. rewrite map_map. reflexivity.
Qed.

(** ** The preview of an image *)

Lemma kept_same (l : list ImageFile) (image' : ImageFile) :
  In image' l ->
  exists image, In image l /\ id image = id image' /\ preview image = preview image'.
Proof.
  intros H. exists image'. repeat split. exact H.
Qed.

Lemma kept_mapped (g : ImageFile -> ImageFile) (l : list ImageFile)
    (image' : ImageFile) :
  (forall x, id (g x) = id x /\ preview (g x) = preview x) ->
  In image' (map g l) ->
  exists image, In image l /\ id image = id image' /\ preview image = preview image'.
Proof.
  intros G H. apply in_map_iff in H. destruct H as (x & <- & X).
  exists x. destruct (G x) as (A & B). repeat split; [exact X | now symmetry..].
Qed.

(** X17. No handler changes the identifier or the preview URL of a
    listed image: in a state the page can reach, every image listed
    after a handler has run either was listed before with the same
    identifier and the same preview, or is a new one whose identifier
    and preview URL were not in use.  A conversion run again thus
    decodes the upload, not the result of the conversion before. *)
Theorem preview_is_kept (s : Sys) (a : Action) (image' : ImageFile) :
  reachable s ->
  offered a s ->
  In image' (State.images (app (after (run a s)))) ->
  (exists image,
     In image (State.images (app s))
     /\ id image = id image' /\ preview image = preview image')
  \/ (~ In (id image') (map id (State.images (app s)))
      /\ ~ In (preview image') (liveUrls (world s))).
Proof.
  intros R O H.
  pose proof (reachable_invariant s R) as Inv.
  pose proof (reachable_storeOk s R) as St.
  assert (Added : forall fs,
            In image' (State.images (app s)
                       ++ value (mapM (newImageFile (State.targetFormat (app s)))
                                   fs s)) ->
            (exists image,
               In image (State.images (app s))
               /\ id image = id image' /\ preview image = preview image')
            \/ (~ In (id image') (map id (State.images (app s)))
                /\ ~ In (preview image') (liveUrls (world s)))).
  { intros fs X. apply in_app_or in X. destruct X as [X|X].
    - left. now apply kept_same.
    - right. destruct (added_fresh s fs Inv St) as (_ & _ & F).
      pose proof (proj1 (Forall_forall _ _) F image' X) as (A & B & _).
      split; assumption. }
  destruct a; cbn [run] in H.
  - destruct files as [[|f rest]|]; try (left; now apply kept_same).
    rewrite handleFileSelect_images in H by discriminate. now apply (Added (f :: rest)).
  - left. now apply kept_same.
  - destruct files as [fs|]; [|left; now apply kept_same].
    destruct (filter (fun f => JS.startsWith (type f) "image/") fs)
      as [|f rest] eqn:E.
    + left. apply kept_same. revert H. unfold handleDrop.
      destruct fs as [|f0 rest0]; [tauto|].
      cbn [length Nat.eqb]. rewrite E. tauto.
    + rewrite handleDrop_images in H by (rewrite E; discriminate).
      now apply (Added (filter (fun f => JS.startsWith (type f) "image/") fs)).
  - left. apply kept_same. rewrite (proj1 (removeImage_effect i s)) in H.
    now apply filter_In in H.
  - left. rewrite after_bind in H. cbn [ret after fst snd] in H.
    destruct (State.images (app s)) as [|x rest] eqn:E.
    { rewrite (convertAllImages_empty env s E) in H. cbn [after fst snd] in H.
      rewrite E in H. destruct H. }
    rewrite <- E in *.
    destruct (convertAllImages_spec env s) as (_ & L & _ & PF);
      [rewrite E; discriminate | apply Inv | exact St |].
    apply In_nth_error in H. destruct H as (j & J).
    assert (JL : j < length (State.images (app s))).
    { rewrite <- L. apply nth_error_Some. congruence. }
    destruct (nth_error (State.images (app s)) j) as [image|] eqn:I;
      [|apply nth_error_None in I; lia].
    destruct (PF j image I) as (r & s0 & R1 & R2 & _).
    rewrite J in R1. injection R1 as <-.
    destruct (convertImage_fields _ _ _ _ R2) as (F1 & F2 & _).
    exists image. split; [eapply nth_error_In; exact I|].
    split; now symmetry.
  - left. apply kept_same. now rewrite downloadImage_app in H.
  - left. apply kept_same. revert H. unfold downloadAllImages.
    rewrite after_bind. cbn [getState value after fst snd].
    rewrite forEach_app_unchanged; [tauto|].
    intros x s'. destruct (JS.truthy (convertedUrl x));
      [apply downloadImage_app | reflexivity].
  - rewrite (proj1 (clearAllImages_effect s)) in H. destruct H.
  - left. now apply kept_same.
  - left. now apply kept_same.
  - left. now apply kept_same.
  - left. unfold updateImageTargetFormat in H. rewrite setImages_images in H.
    eapply kept_mapped; [|exact H].
    intros x. cbn beta. destruct (String.eqb (id x) i); split; reflexivity.
  - left. unfold applyGlobalFormatToAll in H.
    rewrite after_bind, setImages_images in H.
    cbn [getState value after fst snd] in H.
    eapply kept_mapped; [|exact H]. intros x. split; reflexivity.
Qed.

Lemma preview_is_kept_witness :
  reachable loadedSys
  /\ offered (ConvertAll (fun k => if Nat.eqb k 0 then working else broken))
       loadedSys
  /\ In convertedPhoto
       (State.images
          (app (after (run (ConvertAll
                              (fun k => if Nat.eqb k 0 then working else broken))
                         loadedSys))))
  /\ ((exists image,
         In image (State.images (app loadedSys))
         /\ id image = id convertedPhoto /\ preview image = preview convertedPhoto)
      \/ (~ In (id convertedPhoto) (map id (State.images (app loadedSys)))
          /\ ~ In (preview convertedPhoto) (liveUrls (world loadedSys)))).
Proof.
  assert (R : reachable loadedSys).
  { exact (reachable_step (FileSelect (Some [photo; scan])) initialSys
             reachable_initial I). }
  assert (H : In convertedPhoto
                (State.images
                   (app (after (run (ConvertAll
                                       (fun k => if Nat.eqb k 0 then working
                                                 else broken))
                                  loadedSys)))))
    by (vm_compute; tauto).
  split; [exact R|]. split; [exact I|]. split; [exact H|].
  exact (preview_is_kept loadedSys
           (ConvertAll (fun k => if Nat.eqb k 0 then working else broken))
           convertedPhoto R I H).
Defined.

(** ** The cards at rest *)

Lemma convertAllImages_entries (env : nat -> Platform) (s : Sys)
    (P : ImageFile -> Prop) :
  (forall p image s0 result,
     value (convertImage p image s0) = Resolved result -> P result) ->
  NoDup (map id (State.images (app s))) ->
  storeOk s ->
  State.images (app s) <> [] ->
  Forall P (State.images (app (after (convertAllImages env s)))).
Proof.
  intros K N St NE.
  destruct (convertAllImages_spec env s NE N St) as (_ & L & _ & PF).
  apply Forall_forall. intros e H.
  apply In_nth_error in H. destruct H as (j & J).
  assert (JL : j < length (State.images (app s))).
  { rewrite <- L. apply nth_error_Some. congruence. }
  destruct (nth_error (State.images (app s)) j) as [image|] eqn:I;
    [|apply nth_error_None in I; lia].
  destruct (PF j image I) as (r & s0 & R1 & R2 & _).
  rewrite J in R1. injection R1 as <-.
  exact (K _ _ _ _ R2).
Qed.

Lemma reachable_not_converting (s : Sys) :
  reachable s -> Forall (fun img => converting img = false) (State.images (app s)).
Proof.
  induction 1 as [|a s R IH O]; [constructor|].
  pose proof (reachable_invariant s R) as Inv.
  pose proof (reachable_storeOk s R) as St.
  assert (Added : forall format fs,
            Forall (fun img => converting img = false)
              (State.images (app s) ++ value (mapM (newImageFile format) fs s))).
  { intros format fs. apply Forall_app. split; [exact IH|].
    destruct (mapM_newImageFile_store format fs s) as (_ & _ & _ & _ & F).
    eapply Forall_impl; [|exact F]. cbn. tauto. }
  destruct a; cbn [run].
  - destruct files as [[|f rest]|]; try exact IH.
    rewrite handleFileSelect_images by discriminate. apply Added.
  - exact IH.
  - destruct files as [fs|]; [|exact IH].
    destruct (filter (fun f => JS.startsWith (type f) "image/") fs)
      as [|f rest] eqn:E.
    + unfold handleDrop. destruct fs as [|f0 rest0]; [exact IH|].
      cbn [length Nat.eqb]. rewrite E. exact IH.
    + rewrite handleDrop_images by (rewrite E; discriminate). apply Added.
  - rewrite (proj1 (removeImage_effect i s)).
    apply Forall_forall. intros img H. apply filter_In in H.
    now apply (proj1 (Forall_forall _ _) IH).
  - rewrite after_bind. cbn [ret after fst snd].
    destruct (State.images (app s)) as [|x rest] eqn:E.
    { rewrite (convertAllImages_empty env s E). cbn [after fst snd].
      rewrite E. constructor. }
    destruct Inv as (_ & ND & _).
    apply convertAllImages_entries;
      [|exact ND | exact St | rewrite E; discriminate].
    intros p image s0 result V. apply (convertImage_fields _ _ _ _ V).
  - now rewrite downloadImage_app.
  - unfold downloadAllImages. rewrite after_bind.
    cbn [getState value after fst snd].
    rewrite forEach_app_unchanged; [exact IH|].
    intros x s'. destruct (JS.truthy (convertedUrl x));
      [apply downloadImage_app | reflexivity].
  - rewrite (proj1 (clearAllImages_effect s)). constructor.
  - exact IH.
  - exact IH.
  - exact IH.
  - unfold updateImageTargetFormat. rewrite setImages_images.
    apply Forall_forall. intros img H. apply in_map_iff in H.
    destruct H as (x & <- & X).
    pose proof (proj1 (Forall_forall _ _) IH x X) as C.
    destruct (String.eqb (id x) i); exact C.
  - unfold applyGlobalFormatToAll. rewrite after_bind, setImages_images.
    cbn [getState value after fst snd].
    apply Forall_forall. intros img H. apply in_map_iff in H.
    destruct H as (x & <- & X).
    exact (proj1 (Forall_forall _ _) IH x X).
Qed.

(** X18. When a handler has returned no card reads 'Converting...':
    every listed image has [converting] false.  Changing the target
    format of an image then clears its card: the image with that
    identifier has no error and no converted URL, its status line is
    empty and it carries the new format. *)
Theorem cards_at_rest (s : Sys) (i format : string) :
  reachable s ->
  (forall image,
     In image (State.images (app s)) ->
     converting image = false /\ status image <> ShowConverting)
  /\ (forall image,
        In image (State.images (app (after (updateImageTargetFormat i format s)))) ->
        id image = i ->
        targetFormat image = format
        /\ error image = None
        /\ convertedUrl image = None
        /\ status image = ShowNothing).
Proof.
  intros R. pose proof (reachable_not_converting s R) as F. split.
  - intros image H. pose proof (proj1 (Forall_forall _ _) F image H) as C.
    split; [exact C|]. unfold status. rewrite C.
    destruct (error image) as [m|].
    + destruct (JS.truthy (Some m)); [discriminate|].
      destruct (JS.truthy (convertedUrl image)); discriminate.
    + destruct (JS.truthy (convertedUrl image)); discriminate.
  - intros image H E. unfold updateImageTargetFormat in H.
    rewrite setImages_images in H. apply in_map_iff in H.
    destruct H as (x & G & X).
    pose proof (proj1 (Forall_forall _ _) F x X) as C.
    destruct (String.eqb_spec (id x) i) as [Y|Y].
    + subst image. unfold status. cbn. rewrite C. repeat split.
    + subst image. contradiction.
Qed.

Lemma cards_at_rest_witness :
  reachable convertedSys
  /\ map status (State.images
                   (app (after (updateImageTargetFormat "uuid-0" "image/webp"
                                  convertedSys))))
     = [ShowNothing; ShowError "Failed to load image"].
Proof.
  split; [exact convertedSys_reachable|].
  destruct (cards_at_rest convertedSys "uuid-0" "image/webp"
              convertedSys_reachable) as (_ & A).
  reflexivity.
Defined.
